(** * lds-imgx: the cache-aware batch transcoding pipeline of [src/index.ts]

    A shallow embedding of [generateSettingsHash], [shouldSkipFile] and
    [imgx], followed by the properties of the specification that concern
    them.  The other functions of the file are embedded as well, with
    properties of their own: the HTML helpers [generateSrcset] and
    [generatePicture], the cache functions [loadCache] and [saveCache], the
    configuration functions [loadConfigFile], [findConfigFile] and
    [loadConfig], and [imgxFromFiles].

    Conventions of the embedding.
    - JavaScript strings are [string]s holding the UTF-8 bytes of the text.
    - JavaScript numbers that the program handles (pixel sizes, quality
      levels, millisecond timestamps, byte counts) are integers, modelled
      as [Z]; the embedding is that of the safe integers, of absolute
      value below 2^53, which a JavaScript number holds exactly and on
      which [toString] and [JSON.stringify] write the decimal digits.
      Timestamps may be negative (instants before 1970).
    - [node:path], [node:os], [globby], [pLimit], the file system, the
      clock and the sharp codec are not part of the repository: they are
      the fields of an environment record taken as a parameter; the file
      system is an explicit finite map threaded through the run, the codec
      an oracle.  The map holds the files and the directories that the
      program names; what else makes a call of the file system fail (a
      missing parent directory, permissions) is a fault of the
      environment.
    - The per-file tasks that [imgx] and [imgxFromFiles] hand to [pLimit]
      are executed one after the other, in the order of enumeration, as
      [pLimit(1)] runs them; the interleaving of tasks is outside this
      embedding.  The lists and the events of a whole run are mostly
      told up to the order of the tasks: lists up to permutation, events
      up to merging.
    - The clock stands still during a call: what a call writes carries the
      time at which the call was made.
    - Console output is left out. *)

From Stdlib Require Import ZArith Lia List Ascii String.
From stdpp Require Import base decidable option list sorting strings pretty gmap.

Local Open Scope Z_scope.
Local Open Scope string_scope.

(** ** Strings *)

Module Str.

Definition dquote : ascii := "034"%char.
Definition backslash : ascii := "092"%char.

Definition of_char (c : ascii) : string := String c EmptyString.

Fixpoint join (sep : string) (l : list string) : string :=
  match l with
  | [] => ""
  | [x] => x
  | x :: rest => x +:+ sep +:+ join sep rest
  end.

(** [s.replace(pat, by)] with a string pattern: the first occurrence only. *)
Fixpoint replace_first (pat by_ s : string) : string :=
  match s with
  | EmptyString => if String.prefix pat s then by_ else s
  | String c s' =>
      if String.prefix pat s
      then by_ +:+ String.substring (String.length pat)
                     (String.length s - String.length pat) s
      else String c (replace_first pat by_ s')
  end.

(** [s.replace(/\\/g, "/")]. *)
Fixpoint slashes (s : string) : string :=
  match s with
  | EmptyString => EmptyString
  | String c s' =>
      String (if Ascii.eqb c backslash then "/"%char else c) (slashes s')
  end.

Fixpoint has_dot (s : string) : bool :=
  match s with
  | EmptyString => false
  | String c s' => Ascii.eqb c "."%char || has_dot s'
  end.

(** [s.replace(/\.[^.]+$/, "")]: the text from the last dot on is dropped
    when at least one character follows that dot. *)
Fixpoint strip_ext (s : string) : string :=
  match s with
  | EmptyString => EmptyString
  | String c s' =>
      if Ascii.eqb c "."%char && negb (has_dot s')
         && negb (String.eqb s' EmptyString)
      then EmptyString
      else String c (strip_ext s')
  end.

Definition is_digit (c : ascii) : bool :=
  let n := N_of_ascii c in ((48 <=? n) && (n <=? 57))%N.

Fixpoint digits (s : string) : string * string :=
  match s with
  | EmptyString => (EmptyString, EmptyString)
  | String c s' =>
      if is_digit c
      then let '(d, r) := digits s' in (String c d, r)
      else (EmptyString, s)
  end.

Fixpoint parse_decimal (acc : Z) (s : string) : Z :=
  match s with
  | EmptyString => acc
  | String c s' =>
      parse_decimal (10 * acc + (Z.of_N (N_of_ascii c) - 48)) s'
  end.

(** [s.match(/-(\d+)w\./)] followed by [parseInt] of the group: the
    leftmost hyphen that is followed by a run of digits, [w] and a dot. *)
Fixpoint size_marker (s : string) : option Z :=
  match s with
  | EmptyString => None
  | String c s' =>
      if Ascii.eqb c "-"%char then
        let '(d, r) := digits s' in
        if negb (String.eqb d EmptyString) && String.prefix "w." r
        then Some (parse_decimal 0 d)
        else size_marker s'
      else size_marker s'
  end.

(** The text before and after an item of a comma-separated list, and
    the number of characters of the items of a list. *)
Fixpoint before (l : list string) : string :=
  match l with
  | [] => ""
  | x :: l' => x +:+ "," +:+ before l'
  end.



End Str.

(** ** JSON.stringify on the values the program serializes *)

Module JSON.

Definition hex_digit (n : Z) : ascii :=
  ascii_of_N (Z.to_N (if (n <? 10)%Z then 48 + n else 87 + n)).

(** A character inside a JSON string literal. *)
Definition escape_char (c : ascii) : string :=
  let n := Z.of_N (N_of_ascii c) in
  if Ascii.eqb c Str.dquote then String Str.backslash (Str.of_char Str.dquote)
  else if Ascii.eqb c Str.backslash
       then String Str.backslash (Str.of_char Str.backslash)
  else if (n =? 8)%Z then String Str.backslash "b"
  else if (n =? 9)%Z then String Str.backslash "t"
  else if (n =? 10)%Z then String Str.backslash "n"
  else if (n =? 12)%Z then String Str.backslash "f"
  else if (n =? 13)%Z then String Str.backslash "r"
  else if (n <? 32)%Z
       then String Str.backslash
              ("u00" +:+ String (hex_digit (n / 16))
                           (Str.of_char (hex_digit (n mod 16))))
  else Str.of_char c.

Fixpoint escape (s : string) : string :=
  match s with
  | EmptyString => EmptyString
  | String c s' => escape_char c +:+ escape s'
  end.

Definition str (s : string) : string :=
  String Str.dquote (escape s +:+ Str.of_char Str.dquote).

(** [JSON.stringify] on a number that is a safe integer: its decimal
    digits. *)
Definition num (n : Z) : string := pretty n.

Definition bool (b : Datatypes.bool) : string :=
  if b then "true" else "false".

Definition array (items : list string) : string :=
  "[" +:+ Str.join "," items +:+ "]".

(** A property whose value is [undefined] is left out of the object. *)
Definition property (p : string * option string) : option string :=
  match p with
  | (k, Some v) => Some (str k +:+ ":" +:+ v)
  | (_, None) => None
  end.

Definition object (props : list (string * option string)) : string :=
  "{" +:+ Str.join "," (omap property props) +:+ "}".

End JSON.

(** ** SHA-1 (FIPS 180-4), on 32-bit words held in [Z] *)

Module SHA1.

Definition w32 (x : Z) : Z := x mod 2 ^ 32.

Definition rotl (n x : Z) : Z :=
  w32 (Z.lor (Z.shiftl x n) (Z.shiftr x (32 - n))).

Definition bytes_of_string (s : string) : list Z :=
  map (fun c => Z.of_N (N_of_ascii c)) (list_ascii_of_string s).

Fixpoint be_bytes (n : nat) (x : Z) : list Z :=
  match n with
  | O => []
  | S n' => (x / 256 ^ Z.of_nat n') mod 256 :: be_bytes n' x
  end.

Definition pad (msg : list Z) : list Z :=
  let l := Z.of_nat (length msg) in
  msg ++ [128] ++ List.repeat 0 (Z.to_nat ((55 - l) mod 64))
      ++ be_bytes 8 (8 * l).

Fixpoint words (bs : list Z) : list Z :=
  match bs with
  | a :: b :: c :: d :: rest =>
      (((a * 256 + b) * 256 + c) * 256 + d) :: words rest
  | _ => []
  end.

Fixpoint chunks (fuel : nat) (ws : list Z) : list (list Z) :=
  match fuel with
  | O => []
  | S fuel' =>
      match ws with
      | [] => []
      | _ => firstn 16 ws :: chunks fuel' (skipn 16 ws)
      end
  end.

Definition schedule_step (w : list Z) : list Z :=
  let t := length w in
  let x i := nth (t - i) w 0 in
  w ++ [rotl 1 (Z.lxor (Z.lxor (Z.lxor (x 3%nat) (x 8%nat)) (x 14%nat))
                       (x 16%nat))].

Definition schedule (block : list Z) : list Z :=
  Nat.iter 64 schedule_step block.

Record state := State { ha : Z; hb : Z; hc : Z; hd : Z; he : Z }.

Definition init : state :=
  State 0x67452301 0xEFCDAB89 0x98BADCFE 0x10325476 0xC3D2E1F0.

Definition f (t : nat) (b c d : Z) : Z :=
  if (t <? 20)%nat
  then Z.lor (Z.land b c) (Z.land (Z.lxor b 0xFFFFFFFF) d)
  else if (t <? 40)%nat then Z.lxor (Z.lxor b c) d
  else if (t <? 60)%nat
       then Z.lor (Z.lor (Z.land b c) (Z.land b d)) (Z.land c d)
  else Z.lxor (Z.lxor b c) d.

Definition k (t : nat) : Z :=
  if (t <? 20)%nat then 0x5A827999
  else if (t <? 40)%nat then 0x6ED9EBA1
  else if (t <? 60)%nat then 0x8F1BBCDC
  else 0xCA62C1D6.

Definition round (s : state) (tw : nat * Z) : state :=
  let '(t, w) := tw in
  let temp :=
    w32 (rotl 5 (ha s) + f t (hb s) (hc s) (hd s) + he s + k t + w) in
  State temp (ha s) (rotl 30 (hb s)) (hc s) (hd s).

Definition compress (h : state) (block : list Z) : state :=
  let w := schedule block in
  let s := fold_left round (combine (seq 0 80) w) h in
  State (w32 (ha h + ha s)) (w32 (hb h + hb s)) (w32 (hc h + hc s))
        (w32 (hd h + hd s)) (w32 (he h + he s)).

Definition digest (s : string) : state :=
  let ws := words (pad (bytes_of_string s)) in
  fold_left compress (chunks (length ws) ws) init.

Definition hex_word (x : Z) : string :=
  string_of_list_ascii
    (map (fun i => JSON.hex_digit ((x / 16 ^ Z.of_nat i) mod 16))
         [7; 6; 5; 4; 3; 2; 1; 0]%nat).

Definition hex_state (s : state) : string :=
  hex_word (ha s) +:+ hex_word (hb s) +:+ hex_word (hc s)
    +:+ hex_word (hd s) +:+ hex_word (he s).

(** [crypto.createHash("sha1").update(s).digest("hex")]. *)
Definition hex (s : string) : string := hex_state (digest s).

End SHA1.

(** ** Options *)

Inductive Format := webp | avif | jpeg.

Definition format_name (f : Format) : string :=
  match f with webp => "webp" | avif => "avif" | jpeg => "jpeg" end.

Inductive SharpCacheFiles := CacheFiles (n : Z) | CacheOff.

(** [ImgxOptions]; an optional field left [undefined] is [None]. *)
Record ImgxOptions := {
  input : string;
  output : string;
  width : option Z;
  height : option Z;
  sizes : option (list Z);
  withoutEnlargement : option bool;
  formats : option (list Format);
  suffix : option string;
  quality : option Z;
  effort : option Z;
  concurrency : option Z;
  sharpCacheFiles : option SharpCacheFiles;
  pattern : option (list string);
  stripMetadata : option bool;
  verbose : option bool;
  quiet : option bool;
  force : option bool;
  dryRun : option bool
}.

(** The [settings] object literal of [generateSettingsHash], property by
    property, each with the JSON text of its value. *)
Definition settings (opts : ImgxOptions) : list (string * option string) :=
  [ ("width", JSON.num <$> width opts);
    ("height", JSON.num <$> height opts);
    ("sizes", (fun l => JSON.array (JSON.num <$> l)) <$> sizes opts);
    ("formats",
      (fun l => JSON.array ((fun f => JSON.str (format_name f)) <$> l))
        <$> formats opts);
    ("suffix", JSON.str <$> suffix opts);
    ("quality", JSON.num <$> quality opts);
    ("effort", JSON.num <$> effort opts);
    ("stripMetadata", JSON.bool <$> stripMetadata opts);
    ("withoutEnlargement", JSON.bool <$> withoutEnlargement opts) ].

Definition generateSettingsHash (opts : ImgxOptions) : string :=
  SHA1.hex (JSON.object (settings opts)).

Arguments generateSettingsHash : simpl never.

(** ** The environment: file system, clock, codec, [node:path] *)

(** A thrown value; [message] is the empty string when the value carries
    no message. *)
Record Error := { message : string }.

Inductive Result (A : Type) :=
| Ok (a : A)
| Throw (e : Error).
Arguments Ok {A} a.
Arguments Throw {A} e.

Record Node := {
  is_dir : bool;
  node_mtime : Z;      (* milliseconds since the epoch *)
  node_data : string
}.

Record World := {
  fs : gmap string Node;
  now : Z              (* [Date.now()] *)
}.

(** What [fs.stat] returns, as far as the program reads it. *)
Record Stats := { mtime : Z; st_size : Z }.

Inductive FsCall :=
| Stat (p : string)
| Mkdir (p : string)
| ReadFile (p : string)
| WriteFile (p : string).

Inductive Encoder :=
| EncWebp (quality effort : Z)           (* smartSubsample: true *)
| EncAvif (quality effort : Z)
| EncJpeg (quality : Z).                 (* mozjpeg: true *)

(** The sharp pipeline built for one output:
    [sharp(abs).rotate().withMetadata(..)?.resize({..}).<format>({..})]. *)
Record SharpPipeline := {
  sp_input : string;
  sp_withMetadata : bool;
  sp_width : Z;
  sp_height : option Z;
  sp_withoutEnlargement : bool;
  sp_encoder : Encoder
}.

Record Metadata := { meta_width : option Z; meta_height : option Z }.

Record ImageManifestEntry := {
  src : string;
  entry_width : Z;
  entry_height : Z;
  format : string;
  bytes : Z;
  originalFile : string
}.

Record CacheEntry := {
  inputPath : string;
  inputMtime : Z;
  entry_settingsHash : string;
  entry_outputFiles : list string;
  timestamp : Z
}.

(** The collaborators the repository does not contain. *)
Record Env := {
  cwd : string;                                        (* process.cwd() *)
  path_join : string -> string -> string;
  path_relative : string -> string -> string;          (* relative(from, to) *)
  path_dirname : string -> string;
  path_extname : string -> string;
  globby : list string -> string -> gmap string Node -> list string;
  os_cpus_length : Z;                                  (* os.cpus().length *)
  (** [sharp.cache(false)] or [sharp.cache({ files })], [sharp.concurrency(n)]
      and [pLimit(n)]: whether the call returns or throws; [pLimit] throws
      unless its argument is a positive integer *)
  sharp_cache : SharpCacheFiles -> Result unit;
  sharp_concurrency : Z -> Result unit;
  pLimit : Z -> Result unit;
  (** failures of the file system that the finite map does not produce by
      itself (permissions, I/O errors, a missing parent directory) *)
  fs_fault : FsCall -> option Error;
  (** [instance.toBuffer()] *)
  sharp_toBuffer : gmap string Node -> SharpPipeline -> Result string;
  (** [sharp(buffer).metadata()] *)
  sharp_metadata : string -> Result Metadata;
  JSON_parse_cache : string -> option (gmap string CacheEntry);
  JSON_stringify_cache : gmap string CacheEntry -> string;
  JSON_stringify_manifest :
    gmap string (list ImageManifestEntry) -> string
}.

(** What a run does to the outside, in order. *)
Inductive Event :=
| EvMkdir (dir : string)
| EvSharp (p : SharpPipeline)
| EvWriteOutput (path : string)
| EvSaveCache (path : string)
| EvWriteManifest (path : string).

Record FileResult := { file_in : string; file_out : list string }.
Record FileReason := { file : string; reason : string }.

Record ImgxResult := {
  r_processed : Z;
  r_files : list FileResult;
  r_skipped : list FileReason;
  r_cached : list FileReason;
  r_totalFound : Z;
  r_manifest : option (gmap string (list ImageManifestEntry))
}.

Record SkipCheck := { skip : bool; skip_reason : option string }.

(** The variables of one call of [imgx] that its tasks share, the world
    they act on, and the events of the call. *)
Record Run := {
  world : World;
  events : list Event;
  cache : gmap string CacheEntry;
  results : list FileResult;
  skippedFiles : list FileReason;
  cachedFiles : list FileReason;
  manifest : gmap string (list ImageManifestEntry);
  processedCount : Z
}.

(** [obj[key] = value] on an object literal: the key [__proto__] reaches
    the prototype accessor and creates no property. *)
Definition js_set {V : Type} (key : string) (value : V) (obj : gmap string V)
  : gmap string V :=
  if String.eqb key "__proto__" then obj else <[key := value]> obj.

(** [a || b] on strings: the empty string is falsy. *)
Definition str_or (a b : string) : string :=
  if String.eqb a "" then b else a.

(** [a || b] on numbers that may be [undefined]: [0] is falsy. *)
Definition num_or (a : option Z) (b : Z) : Z :=
  match a with
  | Some n => if (n =? 0)%Z then b else n
  | None => b
  end.

(** A computation of a task: it may throw, and what it did before
    throwing stays done. *)
Definition M (A : Type) : Type := Run -> Result A * Run.

#[global] Instance M_ret : MRet M := fun A a r => (Ok a, r).
#[global] Instance M_bind : MBind M := fun A B f m r =>
  match m r with
  | (Ok a, r') => f a r'
  | (Throw e, r') => (Throw e, r')
  end.

Definition throw {A : Type} (e : Error) : M A := fun r => (Throw e, r).

Definition gets {A : Type} (f : Run -> A) : M A := fun r => (Ok (f r), r).

Definition modify (f : Run -> Run) : M unit := fun r => (Ok tt, f r).

(** [try { body } catch (error) { handler }]. *)
Definition try_catch {A : Type} (body : M A) (handler : Error -> M A) : M A :=
  fun r =>
    match body r with
    | (Ok a, r') => (Ok a, r')
    | (Throw e, r') => handler e r'
    end.

Definition lift {A : Type} (x : Result A) : M A := fun r => (x, r).

Fixpoint foldM {A B : Type} (f : B -> A -> M B) (l : list A) (b : B) : M B :=
  match l with
  | [] => mret b
  | x :: l' => b' ← f b x; foldM f l' b'
  end.

(** [Promise.all(files.map((abs) => limit(...)))], the tasks one after the
    other. *)
Fixpoint for_each {A : Type} (l : list A) (body : A -> M unit) : M unit :=
  match l with
  | [] => mret tt
  | x :: l' => body x ;; for_each l' body
  end.

Definition set_world (w : World) (r : Run) : Run :=
  {| world := w; events := events r; cache := cache r; results := results r;
     skippedFiles := skippedFiles r; cachedFiles := cachedFiles r;
     manifest := manifest r; processedCount := processedCount r |}.

Definition emit (e : Event) : M unit :=
  modify (fun r =>
    {| world := world r; events := (events r ++ [e])%list; cache := cache r;
       results := results r; skippedFiles := skippedFiles r;
       cachedFiles := cachedFiles r; manifest := manifest r;
       processedCount := processedCount r |}).

Definition fs_error (code call p : string) : Error :=
  {| message := code +:+ ", " +:+ call +:+ " '" +:+ p +:+ "'" |}.

Section Program.

Context (env : Env).

(** *** File system and codec calls *)

Definition stat (w : World) (p : string) : Result Stats :=
  match fs_fault env (Stat p) with
  | Some e => Throw e
  | None =>
      match fs w !! p with
      | Some n =>
          Ok {| mtime := node_mtime n;
                st_size := Z.of_nat (String.length (node_data n)) |}
      | None => Throw (fs_error "ENOENT: no such file or directory" "stat" p)
      end
  end.

Definition readFile (w : World) (p : string) : Result string :=
  match fs_fault env (ReadFile p) with
  | Some e => Throw e
  | None =>
      match fs w !! p with
      | Some n =>
          if is_dir n
          then Throw (fs_error "EISDIR: illegal operation on a directory"
                               "read" p)
          else Ok (node_data n)
      | None => Throw (fs_error "ENOENT: no such file or directory" "open" p)
      end
  end.

(** [fs.mkdir(dir, { recursive: true })]; the map records the directory
    itself, its ancestors are implied by its path. *)
Definition mkdir (dir : string) : M unit :=
  emit (EvMkdir dir) ;;
  w ← gets world;
  match fs_fault env (Mkdir dir) with
  | Some e => throw e
  | None =>
      match fs w !! dir with
      | Some n =>
          if is_dir n then mret tt
          else throw (fs_error "EEXIST: file already exists" "mkdir" dir)
      | None =>
          modify (set_world
            {| fs := <[dir := {| is_dir := true; node_mtime := now w;
                                 node_data := "" |}]> (fs w);
               now := now w |})
      end
  end.

(** [fs.writeFile(p, data)]; [ev] tells the call sites apart. *)
Definition writeFile (ev : Event) (p data : string) : M unit :=
  w ← gets world;
  match fs_fault env (WriteFile p) with
  | Some e => throw e
  | None =>
      match fs w !! p with
      | Some {| is_dir := true |} =>
          throw (fs_error "EISDIR: illegal operation on a directory" "open" p)
      | _ =>
          emit ev ;;
          modify (set_world
            {| fs := <[p := {| is_dir := false; node_mtime := now w;
                               node_data := data |}]> (fs w);
               now := now w |})
      end
  end.

(** [await instance.toBuffer()]. *)
Definition toBuffer (p : SharpPipeline) : M string :=
  emit (EvSharp p) ;;
  w ← gets world;
  lift (sharp_toBuffer env (fs w) p).

(** [await sharp(outputFile).metadata()] on a path. *)
Definition metadata_of_file (w : World) (p : string) : Result Metadata :=
  match readFile w p with
  | Ok data => sharp_metadata env data
  | Throw e => Throw e
  end.

(** *** Cache *)

Definition loadCache (w : World) (cachePath : string)
  : gmap string CacheEntry :=
  match readFile w cachePath with
  | Ok data =>
      match JSON_parse_cache env data with
      | Some c => c
      | None => ∅
      end
  | Throw _ => ∅
  end.

Definition saveCache (cachePath : string) (c : gmap string CacheEntry)
  : M unit :=
  writeFile (EvSaveCache cachePath) cachePath (JSON_stringify_cache env c).

(** *** shouldSkipFile *)

(** The loop over [outputFiles]: whether all were found, and the running
    maximum of their modification times, which starts from
    [newestOutputMtime]. *)
Fixpoint scan_outputs (w : World) (outputFiles : list string)
    (newestOutputMtime : Z) : bool * Z :=
  match outputFiles with
  | [] => (true, newestOutputMtime)
  | outputFile :: rest =>
      match stat w outputFile with
      | Ok outputStats =>
          scan_outputs w rest (Z.max newestOutputMtime (mtime outputStats))
      | Throw _ => (false, newestOutputMtime)
      end
  end.

Definition shouldSkipFile (w : World) (inputPath : string)
    (outputFiles : list string) (settingsHash : string) (force : bool)
    (cache : gmap string CacheEntry) : SkipCheck :=
  if force then {| skip := false; skip_reason := None |}
  else
    match stat w inputPath with
    | Throw _ => {| skip := false; skip_reason := None |}
    | Ok inputStats =>
        let inputMtime := mtime inputStats in
        let '(allOutputsExist, newestOutputMtime) :=
          scan_outputs w outputFiles 0 in
        if allOutputsExist && (inputMtime <? newestOutputMtime)%Z then
          let cacheKey := path_relative env (cwd env) inputPath in
          match cache !! cacheKey with
          | Some cacheEntry =>
              if String.eqb (entry_settingsHash cacheEntry) settingsHash
              then {| skip := true;
                      skip_reason := Some "cached (up to date)" |}
              else {| skip := true;
                      skip_reason := Some "output newer than input" |}
          | None => {| skip := true;
                       skip_reason := Some "output newer than input" |}
          end
        else {| skip := false; skip_reason := None |}
    end.

(** *** imgx *)

Section Imgx.

Context (opts : ImgxOptions).

(** The destructuring of [opts], with its defaults. *)
Definition width_ : Z := default 1000 (width opts).
Definition withoutEnlargement_ : bool :=
  default true (withoutEnlargement opts).
Definition formats_ : list Format := default [webp] (formats opts).
Definition suffix_ : string := default "{w}w" (suffix opts).
Definition quality_ : Z := default 78 (quality opts).
Definition effort_ : Z := default 6 (effort opts).
Definition concurrency_ : Z :=
  default (os_cpus_length env) (concurrency opts).
Definition sharpCacheFiles_ : SharpCacheFiles :=
  default (CacheFiles 100) (sharpCacheFiles opts).
Definition pattern_ : list string :=
  default ["**/*.{jpg,jpeg,JPG,JPEG,png}"] (pattern opts).
Definition stripMetadata_ : bool := default true (stripMetadata opts).
Definition force_ : bool := default false (force opts).
Definition dryRun_ : bool := default false (dryRun opts).

(** "Configure Sharp cache and concurrency": the two calls, outside every
    [try]. *)
Definition configure : Result unit :=
  match sharp_cache env sharpCacheFiles_ with
  | Ok _ => sharp_concurrency env concurrency_
  | Throw e => Throw e
  end.

(** [sizes || [width]]: an array, even an empty one, is truthy. *)
Definition sizesToProcess : list Z := default [width_] (sizes opts).

Definition cachePath : string :=
  path_join env (output opts) ".imgx-cache.json".
Definition manifestPath : string :=
  path_join env (output opts) "imgx-manifest.json".

Definition sizeSuffix (size : Z) : string :=
  Str.replace_first "{w}" (pretty size) suffix_.

(** [`${outBase}-${sizeSuffix}.${fmt}`]. *)
Definition outPath (outBase : string) (size : Z) (fmt : Format) : string :=
  outBase +:+ "-" +:+ sizeSuffix size +:+ "." +:+ format_name fmt.

Definition allOutputs (outBase : string) : list string :=
  size ← sizesToProcess; fmt ← formats_; [outPath outBase size fmt].

Definition encoder (fmt : Format) : Encoder :=
  match fmt with
  | webp => EncWebp quality_ effort_
  | avif => EncAvif (Z.min quality_ 60) (Z.min effort_ 6)
  | jpeg => EncJpeg quality_
  end.

(** One round of the inner loop of "Process each size". *)
Definition process_output (abs rel outBase : string) (size : Z)
    (manifestEntries : list ImageManifestEntry) (fmt : Format)
  : M (list ImageManifestEntry) :=
  let outPath := outPath outBase size fmt in
  let outDir := path_dirname env outPath in
  mkdir outDir ;;
  if dryRun_ then mret manifestEntries
  else
    buffer ← toBuffer
      {| sp_input := abs; sp_withMetadata := stripMetadata_;
         sp_width := size; sp_height := height opts;
         sp_withoutEnlargement := withoutEnlargement_;
         sp_encoder := encoder fmt |};
    writeFile (EvWriteOutput outPath) outPath buffer ;;
    metadata ← lift (sharp_metadata env buffer);
    mret (manifestEntries ++
      [ {| src := Str.slashes (path_relative env (output opts) outPath);
           entry_width := num_or (meta_width metadata) size;
           entry_height := num_or (meta_height metadata) 0;
           format := format_name fmt;
           bytes := Z.of_nat (String.length buffer);
           originalFile := rel |} ])%list.

Definition process_sizes (abs rel outBase : string)
  : M (list ImageManifestEntry) :=
  foldM (fun manifestEntries size =>
           foldM (process_output abs rel outBase size) formats_
                 manifestEntries)
        sizesToProcess [].

(** The body of the [try] inside "Reconstruct manifest entries from
    cached data", for one cached output file. *)
Definition reconstruct_entry (w : World) (rel outputFile : string)
  : Result ImageManifestEntry :=
  match stat w outputFile with
  | Throw e => Throw e
  | Ok stats =>
      match metadata_of_file w outputFile with
      | Throw e => Throw e
      | Ok metadata =>
          Ok {| src := Str.slashes
                         (path_relative env (output opts) outputFile);
                entry_width :=
                  match Str.size_marker outputFile with
                  | Some n => n
                  | None => num_or (meta_width metadata) 0
                  end;
                entry_height := num_or (meta_height metadata) 0;
                format :=
                  String.substring 1
                    (String.length (path_extname env outputFile))
                    (path_extname env outputFile);
                bytes := st_size stats;
                originalFile := rel |}
      end
  end.

(** The loop over [cacheEntry.outputFiles]; a failure leaves the loop
    ([break]) with the entries pushed so far. *)
Fixpoint reconstruct (w : World) (rel : string)
    (outputFiles : list string)
    (manifestEntries : list ImageManifestEntry)
  : list ImageManifestEntry :=
  match outputFiles with
  | [] => manifestEntries
  | outputFile :: rest =>
      match reconstruct_entry w rel outputFile with
      | Ok entry => reconstruct w rel rest (manifestEntries ++ [entry])%list
      | Throw _ => manifestEntries
      end
  end.

Definition push_result (x : FileResult) : M unit :=
  modify (fun r =>
    {| world := world r; events := events r; cache := cache r;
       results := (results r ++ [x])%list; skippedFiles := skippedFiles r;
       cachedFiles := cachedFiles r; manifest := manifest r;
       processedCount := processedCount r |}).

Definition push_skipped (x : FileReason) : M unit :=
  modify (fun r =>
    {| world := world r; events := events r; cache := cache r;
       results := results r; skippedFiles := (skippedFiles r ++ [x])%list;
       cachedFiles := cachedFiles r; manifest := manifest r;
       processedCount := processedCount r |}).

Definition push_cached (x : FileReason) : M unit :=
  modify (fun r =>
    {| world := world r; events := events r; cache := cache r;
       results := results r; skippedFiles := skippedFiles r;
       cachedFiles := (cachedFiles r ++ [x])%list; manifest := manifest r;
       processedCount := processedCount r |}).

(** [manifest[rel] = manifestEntries; processedCount++]. *)
Definition set_manifest (rel : string)
    (manifestEntries : list ImageManifestEntry) : M unit :=
  modify (fun r =>
    {| world := world r; events := events r; cache := cache r;
       results := results r; skippedFiles := skippedFiles r;
       cachedFiles := cachedFiles r;
       manifest := js_set rel manifestEntries (manifest r);
       processedCount := processedCount r + 1 |}).

Definition set_cache (cacheKey : string) (e : CacheEntry) : M unit :=
  modify (fun r =>
    {| world := world r; events := events r;
       cache := js_set cacheKey e (cache r);
       results := results r; skippedFiles := skippedFiles r;
       cachedFiles := cachedFiles r; manifest := manifest r;
       processedCount := processedCount r |}).

(** The body of the [try] of one task. *)
Definition task_body (abs rel : string) : M unit :=
  let baseName := Str.strip_ext rel in
  let outBase := path_join env (output opts) baseName in
  let allOutputs := allOutputs outBase in
  let settingsHash := generateSettingsHash opts in
  w ← gets world;
  c ← gets cache;
  let skipCheck := shouldSkipFile w abs allOutputs settingsHash force_ c in
  if skip skipCheck then
    push_cached
      {| file := rel;
         reason := str_or (default "" (skip_reason skipCheck)) "cached" |} ;;
    let cacheKey := path_relative env (cwd env) abs in
    let manifestEntries :=
      match c !! cacheKey with
      | Some cacheEntry =>
          reconstruct w rel (entry_outputFiles cacheEntry) []
      | None => []
      end in
    push_result {| file_in := rel; file_out := allOutputs |} ;;
    set_manifest rel manifestEntries
  else
    manifestEntries ← process_sizes abs rel outBase;
    push_result {| file_in := rel; file_out := allOutputs |} ;;
    set_manifest rel manifestEntries ;;
    if dryRun_ then mret tt
    else
      let cacheKey := path_relative env (cwd env) abs in
      w' ← gets world;
      inputStats ← lift (stat w' abs);
      set_cache cacheKey
        {| inputPath := abs; inputMtime := mtime inputStats;
           entry_settingsHash := settingsHash;
           entry_outputFiles := allOutputs; timestamp := now w' |}.

(** The function handed to [limit] for the file [abs]. *)
Definition task (abs : string) : M unit :=
  let rel := path_relative env (input opts) abs in
  try_catch (task_body abs rel)
    (fun error =>
       push_skipped
         {| file := rel;
            reason := str_or (message error) "Unknown error" |}).

(** From "Save cache file" to the returned object. *)
Definition finish (files : list string) : M ImgxResult :=
  (if dryRun_ then mret tt
   else c ← gets cache; saveCache cachePath c) ;;
  m ← gets manifest;
  (if (0 <? size m)%nat && negb dryRun_
   then writeFile (EvWriteManifest manifestPath) manifestPath
          (JSON_stringify_manifest env m)
   else mret tt) ;;
  r ← gets id;
  mret {| r_processed := Z.of_nat (length (results r));
          r_files := results r;
          r_skipped := skippedFiles r;
          r_cached := cachedFiles r;
          r_totalFound := Z.of_nat (length files);
          r_manifest := if (0 <? size m)%nat then Some m else None |}.

Definition start (w : World) : Run :=
  {| world := w; events := []; cache := loadCache w cachePath;
     results := []; skippedFiles := []; cachedFiles := [];
     manifest := ∅; processedCount := 0 |}.

(** [imgx(opts)] from the world [w]: what the promise settles to, the
    world it leaves, and what it did. *)
Definition imgx (w : World) : Result ImgxResult * World * list Event :=
  match configure with
  | Throw e => (Throw e, w, [])
  | Ok _ =>
      let files := globby env pattern_ (input opts) (fs w) in
      match files with
      | [] =>
          (Ok {| r_processed := 0; r_files := []; r_skipped := [];
                 r_cached := []; r_totalFound := 0; r_manifest := None |},
           w, [])
      | _ =>
          match pLimit env concurrency_ with
          | Throw e => (Throw e, w, [])
          | Ok _ =>
              let '(res, r) :=
                (for_each files task ;; finish files) (start w) in
              (res, world r, events r)
          end
      end
  end.

End Imgx.

End Program.

(** ** Words of the specification *)

(** The modification times of the expected outputs that [fs.stat] finds. *)
Definition output_mtimes (env : Env) (w : World) (outputFiles : list string)
  : list Z :=
  omap (fun p => match stat env w p with
                 | Ok st => Some (mtime st)
                 | Throw _ => None
                 end) outputFiles.

(** [m] is the maximum of a list of numbers. *)
Definition is_maximum (m : Z) (l : list Z) : Prop :=
  In m l /\ Forall (fun x => x <= m) l.

Definition exists_on_disk (env : Env) (w : World) (p : string) : Prop :=
  exists st, stat env w p = Ok st.

(** The cache holds a record under the normalized key of [inputPath] whose
    [settingsHash] is the current fingerprint. *)
Definition cache_hit (env : Env) (cache : gmap string CacheEntry)
    (inputPath settingsHash : string) : Prop :=
  exists e, cache !! path_relative env (cwd env) inputPath = Some e
            /\ entry_settingsHash e = settingsHash.

(** The cache-relevant options, in the order of the [settings] object. *)
Inductive Field :=
| Fwidth | Fheight | Fsizes | Fformats | Fsuffix | Fquality | Feffort
| FstripMetadata | FwithoutEnlargement.

(** The JSON text of a cache-relevant option; [None] when it is
    [undefined]. *)
Definition field_json (f : Field) (o : ImgxOptions) : option string :=
  match f with
  | Fwidth => JSON.num <$> width o
  | Fheight => JSON.num <$> height o
  | Fsizes => (fun l => JSON.array (JSON.num <$> l)) <$> sizes o
  | Fformats =>
      (fun l => JSON.array ((fun f => JSON.str (format_name f)) <$> l))
        <$> formats o
  | Fsuffix => JSON.str <$> suffix o
  | Fquality => JSON.num <$> quality o
  | Feffort => JSON.num <$> effort o
  | FstripMetadata => JSON.bool <$> stripMetadata o
  | FwithoutEnlargement => JSON.bool <$> withoutEnlargement o
  end.



(** The digest as one number, most significant word first. *)
Definition digest_number (s : SHA1.state) : Z :=
  (((SHA1.ha s * 2 ^ 32 + SHA1.hb s) * 2 ^ 32 + SHA1.hc s) * 2 ^ 32
   + SHA1.hd s) * 2 ^ 32 + SHA1.he s.

Definition words_in_range (s : SHA1.state) : Prop :=
  0 <= SHA1.ha s < 2 ^ 32 /\ 0 <= SHA1.hb s < 2 ^ 32
  /\ 0 <= SHA1.hc s < 2 ^ 32 /\ 0 <= SHA1.hd s < 2 ^ 32
  /\ 0 <= SHA1.he s < 2 ^ 32.

(** The word of [n] letters that spells the [n] low binary digits of [i],
    [a] for 0 and [b] for 1. *)
Fixpoint letters (n : nat) (i : Z) : string :=
  match n with
  | O => EmptyString
  | S n' => String (if Z.even i then "a" else "b")%char (letters n' (i / 2))
  end.


(** The shared variables after the tasks of [files], run in order from
    [r]. *)
Fixpoint after_tasks (env : Env) (opts : ImgxOptions) (files : list string)
    (r : Run) : Run :=
  match files with
  | [] => r
  | abs :: rest => after_tasks env opts rest (task env opts abs r).2
  end.

(** What the tasks of a run threw, file by file: for each file, the
    error that the body of the [try] of its task raised, if any. *)
Fixpoint thrown (env : Env) (opts : ImgxOptions) (files : list string)
    (r : Run) : list (option Error) :=
  match files with
  | [] => []
  | abs :: rest =>
      match
        (task_body env opts abs (path_relative env (input opts) abs) r).1
      with
      | Ok _ => None
      | Throw e => Some e
      end :: thrown env opts rest (task env opts abs r).2
  end.

(** The keys of the manifest are the files recorded in [results], but for
    the name that an object cannot hold as a property of its own. *)
Definition manifest_keys (r : Run) : Prop :=
  forall k, is_Some (manifest r !! k)
            <-> k <> "__proto__"
                /\ exists x, In x (results r) /\ file_in x = k.

(** *** What a task may do *)

(** The variables shared by the tasks are left as they were. *)
Definition same_heap (r r' : Run) : Prop :=
  cache r' = cache r /\ results r' = results r
  /\ skippedFiles r' = skippedFiles r /\ cachedFiles r' = cachedFiles r
  /\ manifest r' = manifest r /\ processedCount r' = processedCount r.

(** The events of the tasks: directories are made in every run, the codec
    runs and outputs are written only outside a dry run. *)
Definition allowed (dry : bool) (e : Event) : Prop :=
  match e with
  | EvMkdir _ => True
  | EvSharp _ | EvWriteOutput _ => dry = false
  | EvSaveCache _ | EvWriteManifest _ => False
  end.

(** In a dry run the file system only gains directories. *)
Definition fs_grows (dry : bool) (f f' : gmap string Node) : Prop :=
  dry = true ->
  forall p, f' !! p = f !! p
            \/ (f !! p = None /\ exists n, f' !! p = Some n /\ is_dir n = true).

Definition world_step (dry : bool) (r r' : Run) : Prop :=
  now (world r') = now (world r)
  /\ (exists l, events r' = (events r ++ l)%list /\ Forall (allowed dry) l)
  /\ fs_grows dry (fs (world r)) (fs (world r')).

(** The entry of [files] that the task of [abs] pushes. *)
Definition file_result (env : Env) (opts : ImgxOptions) (abs : string)
  : FileResult :=
  {| file_in := path_relative env (input opts) abs;
     file_out :=
       allOutputs opts
         (path_join env (output opts)
            (Str.strip_ext (path_relative env (input opts) abs))) |}.

(** The entry of [skipped] that the task of [abs] pushes when it catches
    [e]. *)
Definition failure (env : Env) (opts : ImgxOptions) (abs : string)
    (e : Error) : FileReason :=
  {| file := path_relative env (input opts) abs;
     reason := str_or (message e) "Unknown error" |}.

(** The entries of [skipped] for the files whose task threw. *)
Fixpoint failures (env : Env) (opts : ImgxOptions) (files : list string)
    (errors : list (option Error)) : list FileReason :=
  match files, errors with
  | abs :: files', Some e :: errors' =>
      failure env opts abs e :: failures env opts files' errors'
  | _ :: files', None :: errors' => failures env opts files' errors'
  | _, _ => []
  end.

(** The two reasons that [shouldSkipFile] gives for a skip. *)
Definition skip_reason_text (s : string) : Prop :=
  s = "cached (up to date)" \/ s = "output newer than input".

(** What the task of [abs] does to the shared variables, from [r] to
    [r']. *)
Definition task_effect (env : Env) (opts : ImgxOptions) (abs : string)
    (r r' : Run) : Prop :=
  let rel := path_relative env (input opts) abs in
  let recorded :=
    exists es, results r' = (results r ++ [file_result env opts abs])%list
               /\ manifest r' = js_set rel es (manifest r) in
  world_step (dryRun_ opts) r r'
  /\ match (task_body env opts abs rel r).1 with
     | Ok _ =>
         skippedFiles r' = skippedFiles r
         /\ recorded
         /\ (cachedFiles r' = cachedFiles r
             \/ exists c, file c = rel
                          /\ skip_reason_text (reason c)
                          /\ cachedFiles r' = (cachedFiles r ++ [c])%list)
     | Throw e =>
         skippedFiles r' = (skippedFiles r ++ [failure env opts abs e])%list
         /\ cachedFiles r' = cachedFiles r
         /\ ((results r' = results r /\ manifest r' = manifest r)
             \/ (dryRun_ opts = false /\ recorded))
     end.

(** The cache record that the task of [abs] writes after processing. *)
Definition fresh_record (env : Env) (opts : ImgxOptions) (abs : string)
    (ce : CacheEntry) : Prop :=
  inputPath ce = abs
  /\ entry_settingsHash ce = generateSettingsHash opts
  /\ entry_outputFiles ce = file_out (file_result env opts abs).

(** What the task of [abs] does to the cache: nothing when it throws,
    when it skips the input as cached and in a dry run; otherwise it
    stores a fresh record under the normalized key. *)
Definition cache_effect (env : Env) (opts : ImgxOptions) (abs : string)
    (r r' : Run) : Prop :=
  let rel := path_relative env (input opts) abs in
  match (task_body env opts abs rel r).1 with
  | Ok _ =>
      (cache r' = cache r
       /\ (dryRun_ opts = true
           \/ exists c, file c = rel
                        /\ cachedFiles r' = (cachedFiles r ++ [c])%list))
      \/ exists ce, fresh_record env opts abs ce
                    /\ cache r'
                       = js_set (path_relative env (cwd env) abs) ce (cache r)
  | Throw _ => cache r' = cache r
  end.

(** The cache holds, under [k], a record made with the current
    fingerprint. *)
Definition cached_current (opts : ImgxOptions) (r : Run) (k : string)
  : Prop :=
  exists ce, cache r !! k = Some ce
             /\ entry_settingsHash ce = generateSettingsHash opts.

(** Every entry of [cached] carries a reason of [shouldSkipFile] and has
    its entry in [files]. *)
Definition cached_in_files (r : Run) : Prop :=
  (length (cachedFiles r) <= length (results r))%nat
  /\ forall c, In c (cachedFiles r) ->
               skip_reason_text (reason c)
               /\ exists x, In x (results r) /\ file_in x = file c.

(** A computation that touches only the world, and only as a task may. *)
Definition world_only (dry : bool) {A : Type} (m : M A) : Prop :=
  forall r, same_heap r (m r).2 /\ world_step dry r (m r).2.

(** The files that [globby] enumerates for a run. *)
Definition enumerated (env : Env) (opts : ImgxOptions) (w : World)
  : list string :=
  globby env (pattern_ opts) (input opts) (fs w).

(** ** A sample environment *)

Module Sample.

Definition join (a b : string) : string := a +:+ "/" +:+ b.

Definition relative (from to : string) : string :=
  if String.prefix (from +:+ "/") to
  then String.substring (S (String.length from))
         (String.length to - S (String.length from)) to
  else to.

Fixpoint dirname (p : string) : string :=
  match p with
  | EmptyString => EmptyString
  | String c p' =>
      if existsb (Ascii.eqb "/"%char) (list_ascii_of_string p')
      then String c (dirname p') else EmptyString
  end.

Fixpoint extname (p : string) : string :=
  match p with
  | EmptyString => EmptyString
  | String c p' =>
      if Ascii.eqb c "."%char && negb (Str.has_dot p') then p
      else extname p'
  end.

Definition image (t : Z) (data : string) : Node :=
  {| is_dir := false; node_mtime := t; node_data := data |}.

(** A codec that rejects the bytes [corrupt] with [codec_error] and
    encodes anything else. *)
Definition codec (codec_error : Error) (files : gmap string Node)
    (p : SharpPipeline) : Result string :=
  match files !! sp_input p with
  | Some n =>
      if String.eqb (node_data n) "corrupt" then Throw codec_error
      else Ok ("encoded " +:+ pretty (sp_width p))
  | None => Throw {| message := "Input file is missing: " +:+ sp_input p |}
  end.

(** [pLimit]: the validation of its argument. *)
Definition p_limit (concurrency : Z) : Result unit :=
  if (concurrency <? 1)%Z
  then Throw {| message :=
                  "Expected `concurrency` to be a number from 1 and up" |}
  else Ok tt.

Definition env (files : list string) (codec_error : Error)
    (stored : gmap string CacheEntry) : Env :=
  {| cwd := "/proj";
     path_join := join;
     path_relative := relative;
     path_dirname := dirname;
     path_extname := extname;
     globby := fun _ _ _ => files;
     os_cpus_length := 4;
     sharp_cache := fun _ => Ok tt;
     sharp_concurrency := fun _ => Ok tt;
     pLimit := p_limit;
     fs_fault := fun _ => None;
     sharp_toBuffer := codec codec_error;
     sharp_metadata := fun data =>
       if String.eqb data "corrupt" then Throw codec_error
       else Ok {| meta_width := Some 640; meta_height := Some 480 |};
     JSON_parse_cache := fun _ => Some stored;
     JSON_stringify_cache := fun _ => "{cache}";
     JSON_stringify_manifest := fun _ => "{manifest}" |}.

Definition opts : ImgxOptions :=
  {| input := "/proj/in"; output := "/proj/out";
     width := None; height := None; sizes := None;
     withoutEnlargement := None; formats := None; suffix := None;
     quality := None; effort := None; concurrency := None;
     sharpCacheFiles := None; pattern := None; stripMetadata := None;
     verbose := None; quiet := None; force := None; dryRun := None |}.

Definition with_dryRun (o : ImgxOptions) : ImgxOptions :=
  {| input := input o; output := output o; width := width o;
     height := height o; sizes := sizes o;
     withoutEnlargement := withoutEnlargement o; formats := formats o;
     suffix := suffix o; quality := quality o; effort := effort o;
     concurrency := concurrency o; sharpCacheFiles := sharpCacheFiles o;
     pattern := pattern o; stripMetadata := stripMetadata o;
     verbose := verbose o; quiet := quiet o; force := force o;
     dryRun := Some true |}.

Definition with_formats (l : list Format) (o : ImgxOptions) : ImgxOptions :=
  {| input := input o; output := output o; width := width o;
     height := height o; sizes := sizes o;
     withoutEnlargement := withoutEnlargement o; formats := Some l;
     suffix := suffix o; quality := quality o; effort := effort o;
     concurrency := concurrency o; sharpCacheFiles := sharpCacheFiles o;
     pattern := pattern o; stripMetadata := stripMetadata o;
     verbose := verbose o; quiet := quiet o; force := force o;
     dryRun := dryRun o |}.

Definition with_suffix (s : string) (o : ImgxOptions) : ImgxOptions :=
  {| input := input o; output := output o; width := width o;
     height := height o; sizes := sizes o;
     withoutEnlargement := withoutEnlargement o; formats := formats o;
     suffix := Some s; quality := quality o; effort := effort o;
     concurrency := concurrency o; sharpCacheFiles := sharpCacheFiles o;
     pattern := pattern o; stripMetadata := stripMetadata o;
     verbose := verbose o; quiet := quiet o; force := force o;
     dryRun := dryRun o |}.

Definition with_quality (q : Z) (o : ImgxOptions) : ImgxOptions :=
  {| input := input o; output := output o; width := width o;
     height := height o; sizes := sizes o;
     withoutEnlargement := withoutEnlargement o; formats := formats o;
     suffix := suffix o; quality := Some q; effort := effort o;
     concurrency := concurrency o; sharpCacheFiles := sharpCacheFiles o;
     pattern := pattern o; stripMetadata := stripMetadata o;
     verbose := verbose o; quiet := quiet o; force := force o;
     dryRun := dryRun o |}.


Definition no_error : Error := {| message := "unused" |}.

(** One input, processed before: its output is newer than it. *)
Definition w_done : World :=
  {| fs := {[ "/proj/in/a.jpg" := image 1000 "jpeg bytes";
              "/proj/out/a-1000w.webp" := image 2000 "webp bytes" ]};
     now := 5000 |}.

(** One input and an output that both date from before 1970, the output
    being the older one. *)
Definition w_old : World :=
  {| fs := {[ "/proj/in/a.jpg" := image (-3000) "jpeg bytes";
              "/proj/out/a-1000w.webp" := image (-5000) "webp bytes" ]};
     now := 5000 |}.

(** One input in a sub-directory, nothing produced yet. *)
Definition w_fresh : World :=
  {| fs := {[ "/proj/in/sub/a.jpg" := image 1000 "jpeg bytes" ]};
     now := 5000 |}.

(** Two inputs, the second one corrupt. *)
Definition w_corrupt : World :=
  {| fs := {[ "/proj/in/a.jpg" := image 1000 "jpeg bytes";
              "/proj/in/b.jpg" := image 1000 "corrupt" ]};
     now := 5000 |}.

(** The world [w_done] with a cache file left by an earlier run. *)
Definition w_cached : World :=
  {| fs := <[ "/proj/out/.imgx-cache.json" := image 2000 "{cache}" ]>
             (fs w_done);
     now := 5000 |}.

(** The record that a run with [opts] leaves for the input. *)
Definition stored_done : gmap string CacheEntry :=
  {[ "in/a.jpg" :=
       {| inputPath := "/proj/in/a.jpg"; inputMtime := 1000;
          entry_settingsHash := generateSettingsHash opts;
          entry_outputFiles := ["/proj/out/a-1000w.webp"];
          timestamp := 2000 |} ]}.

(** Two formats, both produced by an earlier run with the same settings;
    the second output is on disk but its bytes can no longer be decoded. *)
Definition opts2 : ImgxOptions := with_formats [webp; avif] opts.

Definition stored_two : gmap string CacheEntry :=
  {[ "in/a.jpg" :=
       {| inputPath := "/proj/in/a.jpg"; inputMtime := 1000;
          entry_settingsHash := generateSettingsHash opts2;
          entry_outputFiles :=
            ["/proj/out/a-1000w.webp"; "/proj/out/a-1000w.avif"];
          timestamp := 2000 |} ]}.

Definition w_unreadable : World :=
  {| fs := <[ "/proj/out/a-1000w.avif" := image 2000 "corrupt" ]>
             (fs w_cached);
     now := 5000 |}.

(** The environments of the sample runs: what [globby] enumerates, what
    the codec throws on corrupt bytes, what the cache file holds. *)
Definition env_done : Env := env ["/proj/in/a.jpg"] no_error ∅.
Definition env_cached : Env := env ["/proj/in/a.jpg"] no_error stored_done.
Definition env_two : Env := env ["/proj/in/a.jpg"] no_error stored_two.
Definition env_fresh : Env := env ["/proj/in/sub/a.jpg"] no_error ∅.
Definition env_corrupt (e : Error) : Env :=
  env ["/proj/in/a.jpg"; "/proj/in/b.jpg"] e ∅.
Definition env_gone : Env := env ["/proj/in/gone.jpg"] no_error ∅.






End Sample.


(** ** The HTML helpers: generateSrcset and generatePicture *)

(** A JavaScript array is passed by reference: the helpers return, beside
    their string, the content of the caller's [entries] array after the
    call. *)

(** An optional string used as a condition: [undefined] and the empty
    string are falsy. *)
Definition truthy (s : option string) : bool :=
  match s with
  | Some s => negb (String.eqb s "")
  | None => false
  end.

Fixpoint insert_by_width (x : ImageManifestEntry)
    (l : list ImageManifestEntry) : list ImageManifestEntry :=
  match l with
  | [] => [x]
  | y :: l' =>
      if (entry_width x <=? entry_width y)%Z then x :: l
      else y :: insert_by_width x l'
  end.

(** [array.sort((a, b) => a.width - b.width)]: ascending widths, entries
    of equal width in their former order (the sort is stable). *)
Definition sort_by_width (l : list ImageManifestEntry)
  : list ImageManifestEntry :=
  foldr insert_by_width [] l.

(** [`${e.src} ${e.width}w`]. *)
Definition srcset_item (e : ImageManifestEntry) : string :=
  src e +:+ " " +:+ pretty (entry_width e) +:+ "w".

Definition has_format (f : string) (e : ImageManifestEntry) : bool :=
  String.eqb (format e) f.

Definition generateSrcset (entries : list ImageManifestEntry)
    (fmt : option string) : string * list ImageManifestEntry :=
  if truthy fmt then
    (* [filter] makes a new array, which [sort] then reorders *)
    let filtered := List.filter (has_format (default "" fmt)) entries in
    (Str.join ", " (srcset_item <$> sort_by_width filtered), entries)
  else
    (* [filtered] is [entries] itself: [sort] reorders the caller's array *)
    let sorted := sort_by_width entries in
    (Str.join ", " (srcset_item <$> sorted), sorted).

(** [l.reduce((prev, current) =>
      prev.width > current.width ? prev : current)] on a non-empty array;
    here [None] for the empty one, on which the callers never reduce. *)
Definition largest (l : list ImageManifestEntry) : option ImageManifestEntry :=
  match l with
  | [] => None
  | x :: l' =>
      Some (fold_left
              (fun prev current =>
                 if (entry_width current <? entry_width prev)%Z
                 then prev else current)
              l' x)
  end.

Definition newline : string := Str.of_char "010"%char.
Definition quoted (s : string) : string :=
  Str.of_char Str.dquote +:+ s +:+ Str.of_char Str.dquote.

Definition source_tag (srcset type : string) : string :=
  "  <source srcset=" +:+ quoted srcset +:+ " type=" +:+ quoted type
    +:+ ">" +:+ newline.

Definition img_tag (src_ srcset alt : string) : string :=
  "  <img src=" +:+ quoted src_ +:+ " srcset=" +:+ quoted srcset
    +:+ " alt=" +:+ quoted alt +:+ ">" +:+ newline.

Definition generatePicture (entries : list ImageManifestEntry)
    (alt : option string) : string * list ImageManifestEntry :=
  let alt := default "" alt in
  let webpEntries := List.filter (has_format "webp") entries in
  let avifEntries := List.filter (has_format "avif") entries in
  let jpegEntries := List.filter (has_format "jpeg") entries in
  let picture := "<picture>" +:+ newline in
  let picture :=
    match avifEntries with
    | [] => picture
    | _ => picture
             +:+ source_tag (generateSrcset avifEntries None).1 "image/avif"
    end in
  let picture :=
    match webpEntries with
    | [] => picture
    | _ => picture
             +:+ source_tag (generateSrcset webpEntries None).1 "image/webp"
    end in
  match largest jpegEntries with
  | Some largestJpeg =>
      (picture
         +:+ img_tag (src largestJpeg) (generateSrcset jpegEntries None).1 alt
         +:+ "</picture>",
       entries)
  | None =>
      match largest entries with
      | Some largest_ =>
          (* [generateSrcset(entries)] sorts the caller's array *)
          (picture
             +:+ img_tag (src largest_) (generateSrcset entries None).1 alt
             +:+ "</picture>",
           (generateSrcset entries None).2)
      | None => (picture +:+ "</picture>", entries)
      end
  end.

(** Ascending width, the order of [generateSrcset]. *)
Definition by_width (a b : ImageManifestEntry) : Prop :=
  entry_width a <= entry_width b.

Definition of_width (w : Z) (e : ImageManifestEntry) : bool :=
  (entry_width e =? w)%Z.

(** The entries that a call of [generateSrcset] lists: those of the format,
    or all of them without one. *)
Definition selected (entries : list ImageManifestEntry) (fmt : option string)
  : list ImageManifestEntry :=
  if truthy fmt then List.filter (has_format (default "" fmt)) entries
  else entries.

(** The entries among which [generatePicture] chooses its [<img>]: the
    JPEG ones if there is one, all of them otherwise. *)
Definition img_candidates (entries : list ImageManifestEntry)
  : list ImageManifestEntry :=
  if existsb (has_format "jpeg") entries
  then List.filter (has_format "jpeg") entries
  else entries.

(** The entries of the test helper of the repository, in an order that is
    not the order of their widths. *)
Module Gallery.

Definition entry (name : string) (w h : Z) (f : string) (b : Z)
  : ImageManifestEntry :=
  {| src := name; entry_width := w; entry_height := h; format := f;
     bytes := b; originalFile := "A Caruso Courage.jpg" |}.

Definition webp1000 : ImageManifestEntry :=
  entry "A Caruso Courage-1000w.webp" 1000 750 "webp" 47682.
Definition webp640 : ImageManifestEntry :=
  entry "A Caruso Courage-640w.webp" 640 480 "webp" 32426.
Definition avif1600 : ImageManifestEntry :=
  entry "A Caruso Courage-1600w.avif" 1600 1200 "avif" 92053.
Definition avif640 : ImageManifestEntry :=
  entry "A Caruso Courage-640w.avif" 640 480 "avif" 31244.
Definition jpeg800 : ImageManifestEntry :=
  entry "A Caruso Courage-800w.jpeg" 800 600 "jpeg" 60000.

Definition entries : list ImageManifestEntry :=
  [webp1000; avif1600; webp640; avif640].

End Gallery.

(** *** What processing leaves on disk *)

(** [p] is a regular file written at the time of the run. *)
Definition written (w : World) (p : string) : Prop :=
  exists n, fs w !! p = Some n /\ is_dir n = false /\ node_mtime n = now w.

(** From [w] to [w'] the clock has not moved, and every file or directory
    of [w] is as it was or is one of [W], written anew. *)
Definition writes_within (W : list string) (w w' : World) : Prop :=
  now w' = now w
  /\ forall p n, fs w !! p = Some n ->
                 fs w' !! p = Some n \/ (In p W /\ written w' p).

(** The (size, format) pairs of a run, in the order of its two loops. *)
Definition variants (opts : ImgxOptions) : list (Z * Format) :=
  size ← sizesToProcess opts; fmt ← formats_ opts; [(size, fmt)].

(** The manifest entry of the output of [rel] for a size and a format. *)
Definition entry_for (env : Env) (opts : ImgxOptions) (outBase rel : string)
    (v : Z * Format) (e : ImageManifestEntry) : Prop :=
  src e = Str.slashes
            (path_relative env (output opts) (outPath opts outBase v.1 v.2))
  /\ format e = format_name v.2
  /\ originalFile e = rel.

(** The condition on which [shouldSkipFile] skips: the input and all its
    outputs are found, and the input is older than an output, or than
    1970. *)
Definition up_to_date (env : Env) (w : World) (abs : string)
    (outs : list string) : Prop :=
  exists st, stat env w abs = Ok st
             /\ Forall (exists_on_disk env w) outs
             /\ (mtime st < 0
                 \/ exists p st', In p outs /\ stat env w p = Ok st'
                                  /\ mtime st < mtime st').

(** The outputs that a run expects for the input [abs]. *)
Definition expected_outputs (env : Env) (opts : ImgxOptions) (abs : string)
  : list string :=
  file_out (file_result env opts abs).

(** The base of the output names of [abs]. *)
Definition out_base (env : Env) (opts : ImgxOptions) (abs : string)
  : string :=
  path_join env (output opts)
    (Str.strip_ext (path_relative env (input opts) abs)).

(** [shouldSkipFile] as a task calls it. *)
Definition skip_check (env : Env) (opts : ImgxOptions) (abs : string)
    (r : Run) : SkipCheck :=
  shouldSkipFile env (world r) abs (expected_outputs env opts abs)
    (generateSettingsHash opts) (force_ opts) (cache r).

(** The reason that [shouldSkipFile] gives for skipping [abs], with the
    cache [c]. *)
Definition skip_text (env : Env) (opts : ImgxOptions)
    (c : gmap string CacheEntry) (abs : string) : string :=
  match c !! path_relative env (cwd env) abs with
  | Some ce =>
      if String.eqb (entry_settingsHash ce) (generateSettingsHash opts)
      then "cached (up to date)"
      else "output newer than input"
  | None => "output newer than input"
  end.

(** The entry of [cached] for [abs], with the cache [c]. *)
Definition cached_entry (env : Env) (opts : ImgxOptions)
    (c : gmap string CacheEntry) (abs : string) : FileReason :=
  {| file := path_relative env (input opts) abs;
     reason := skip_text env opts c abs |}.

(** The input [abs] was last modified before the run began. *)
Definition older_than_run (w : World) (abs : string) : Prop :=
  exists n, fs w !! abs = Some n /\ node_mtime n < now w.

(** Every path that a run over [files] may write. *)
Definition written_paths (env : Env) (opts : ImgxOptions)
    (files : list string) : list string :=
  ((files ≫= expected_outputs env opts)
     ++ [cachePath env opts; manifestPath env opts])%list.

(** The events of the end of a run. *)
Definition closing (env : Env) (opts : ImgxOptions) (e : Event) : Prop :=
  e = EvSaveCache (cachePath env opts)
  \/ e = EvWriteManifest (manifestPath env opts).

(** The pipeline that a task builds for the input [abs] and a variant. *)
Definition pipeline (opts : ImgxOptions) (abs : string) (v : Z * Format)
  : SharpPipeline :=
  {| sp_input := abs; sp_withMetadata := stripMetadata_ opts;
     sp_width := v.1; sp_height := height opts;
     sp_withoutEnlargement := withoutEnlargement_ opts;
     sp_encoder := encoder opts v.2 |}.

(** What a task does for one variant when nothing fails: it makes the
    directory of the output and, outside a dry run, encodes and writes. *)
Definition variant_trace (env : Env) (opts : ImgxOptions) (abs : string)
    (v : Z * Format) : list Event :=
  let out := outPath opts (out_base env opts abs) v.1 v.2 in
  EvMkdir (path_dirname env out)
    :: (if dryRun_ opts then []
        else [EvSharp (pipeline opts abs v); EvWriteOutput out]).

(** What a task that processes [abs] does when nothing fails. *)
Definition task_trace (env : Env) (opts : ImgxOptions) (abs : string)
  : list Event :=
  variants opts ≫= variant_trace env opts abs.

(** The sample of a first run and of the run that follows it. *)
Module Rerun.

Definition abs : string := "/proj/in/sub/a.jpg".

(** The cache that a first run over [Sample.w_fresh] holds at its end. *)
Definition stored : gmap string CacheEntry :=
  {[ "in/sub/a.jpg" :=
       {| inputPath := abs; inputMtime := 1000;
          entry_settingsHash := generateSettingsHash Sample.opts;
          entry_outputFiles := ["/proj/out/sub/a-1000w.webp"];
          timestamp := 5000 |} ]}.

Definition env : Env := Sample.env [abs] Sample.no_error stored.

Definition r0 : Run := start env Sample.opts Sample.w_fresh.

Definition r1 : Run :=
  (task_body env Sample.opts abs (path_relative env (input Sample.opts) abs)
     r0).2.

Definition w1 : World := (imgx env Sample.opts Sample.w_fresh).1.2.

(** Two formats, every input processed anew. *)
Definition forced : ImgxOptions :=
  {| input := "/proj/in"; output := "/proj/out";
     width := None; height := None; sizes := None;
     withoutEnlargement := None; formats := Some [webp; avif];
     suffix := None; quality := None; effort := None; concurrency := None;
     sharpCacheFiles := None; pattern := None; stripMetadata := None;
     verbose := None; quiet := None; force := Some true; dryRun := None |}.

End Rerun.

(** ** Configuration files: loadConfigFile, findConfigFile, loadConfig *)

(** A JavaScript value, as far as a JSON text or the export of a
    configuration module is looked at. *)
#[warnings="-register-all"]
Inductive JsValue :=
| JsNull
| JsBool (b : bool)
| JsNumber (n : Z)
| JsString (s : string)
| JsArray (items : list JsValue)
| JsObject (props : list (string * JsValue)).

(** A value used as a condition. *)
Definition js_truthy (v : JsValue) : bool :=
  match v with
  | JsNull => false
  | JsBool b => b
  | JsNumber n => negb (n =? 0)%Z
  | JsString s => negb (String.eqb s "")
  | JsArray _ | JsObject _ => true
  end.

(** What the configuration functions use beside the environment of a run:
    [path.resolve], the faults of [fs.access], [JSON.parse] on any text and
    the dynamic [import()], which gives the exports of a module. *)
Record ConfigEnv := {
  run_env : Env;
  path_resolve : string -> string;
  access_fault : string -> option Error;
  JSON_parse : string -> Result JsValue;
  import_module : gmap string Node -> string -> Result (list (string * JsValue))
}.

(** [toLowerCase] on a file extension; the letters of [".json"] and
    [".mjs"] are the lower case of ASCII capitals only. *)
Definition lower_char (c : ascii) : ascii :=
  let n := nat_of_ascii c in
  if (65 <=? n)%nat && (n <=? 90)%nat then ascii_of_nat (n + 32) else c.

Fixpoint toLowerCase (s : string) : string :=
  match s with
  | EmptyString => EmptyString
  | String c s' => String (lower_char c) (toLowerCase s')
  end.

(** [obj.key], [None] for [undefined]; the first of two properties of the
    same name is shadowed by the second. *)
Fixpoint js_get (key : string) (props : list (string * JsValue))
  : option JsValue :=
  match props with
  | [] => None
  | (k, v) :: rest =>
      match js_get key rest with
      | Some v' => Some v'
      | None => if String.eqb k key then Some v else None
      end
  end.

Section Config.

Context (cenv : ConfigEnv).

(** [await fs.access(p)]. *)
Definition access (w : World) (p : string) : Result unit :=
  match access_fault cenv p with
  | Some e => Throw e
  | None =>
      match fs w !! p with
      | Some _ => Ok tt
      | None => Throw (fs_error "ENOENT: no such file or directory" "access" p)
      end
  end.

(** The body of the [try] of [loadConfigFile]. *)
Definition loadConfigFile_body (w : World) (configPath : string)
  : Result JsValue :=
  let ext := toLowerCase (path_extname (run_env cenv) configPath) in
  if String.eqb ext ".json" then
    match readFile (run_env cenv) w configPath with
    | Ok content => JSON_parse cenv content
    | Throw e => Throw e
    end
  else if String.eqb ext ".mjs" then
    match import_module cenv (fs w) (path_resolve cenv configPath) with
    | Ok exports =>
        (* [module.default || module] *)
        match js_get "default" exports with
        | Some d => if js_truthy d then Ok d else Ok (JsObject exports)
        | None => Ok (JsObject exports)
        end
    | Throw e => Throw e
    end
  else Ok JsNull.

Definition loadConfigFile (w : World) (configPath : string) : JsValue :=
  match loadConfigFile_body w configPath with
  | Ok v => v
  | Throw _ => JsNull
  end.

(** The loop of [findConfigFile] over the names of configuration files. *)
Fixpoint first_accessible (w : World) (workingDir : string)
    (configNames : list string) : option string :=
  match configNames with
  | [] => None
  | configName :: rest =>
      let configPath := path_join (run_env cenv) workingDir configName in
      match access w configPath with
      | Ok _ => Some configPath
      | Throw _ => first_accessible w workingDir rest
      end
  end.

Definition findConfigFile (w : World) (workingDir : string)
    (customPath : option string) : option string :=
  if truthy customPath then
    let resolvedPath := path_resolve cenv (default "" customPath) in
    match access w resolvedPath with
    | Ok _ => Some resolvedPath
    | Throw _ => None
    end
  else
    first_accessible w workingDir ["imgx.config.json"; "imgx.config.mjs"].

Definition loadConfig (w : World) (workingDir : string)
    (customPath : option string) : JsValue :=
  let configPath := findConfigFile w workingDir customPath in
  if truthy configPath then
    let config := loadConfigFile w (default "" configPath) in
    if js_truthy config then config else JsObject []
  else JsObject [].

End Config.

(** A sample: a working directory with both configuration files, the JSON
    one not being JSON, and a custom path that does not exist. *)
Module ConfigSample.

Definition w : World :=
  {| fs := {[ "/proj/imgx.config.json" := Sample.image 1000 "{ width: 640";
              "/proj/imgx.config.mjs" := Sample.image 1000 "export default" ]};
     now := 5000 |}.

Definition cenv : ConfigEnv :=
  {| run_env := Sample.env [] Sample.no_error ∅;
     path_resolve := fun p =>
       if String.prefix "/" p then p else "/proj/" +:+ p;
     access_fault := fun _ => None;
     JSON_parse := fun text =>
       if String.eqb text "{}" then Ok (JsObject [])
       else Throw {| message := "Unexpected token" |};
     import_module := fun _ _ =>
       Ok [("default", JsObject [("width", JsNumber 640)])] |}.

End ConfigSample.

(** ** imgxFromFiles *)

Module Files.

(** [ImgxFileInput = string | Buffer]. *)
Inductive ImgxFileInput :=
| InputPath (p : string)
| InputBuffer (data : string).

Record ImgxFilesOptions := {
  f_files : list ImgxFileInput;
  f_output : option string;
  f_width : option Z;
  f_height : option Z;
  f_sizes : option (list Z);
  f_withoutEnlargement : option bool;
  f_formats : option (list Format);
  f_suffix : option string;
  f_quality : option Z;
  f_effort : option Z;
  f_concurrency : option Z;
  f_sharpCacheFiles : option SharpCacheFiles;
  f_stripMetadata : option bool;
  f_verbose : option bool;
  f_quiet : option bool;
  returnBuffers : option bool;
  writeToDisk : option bool
}.

Record ProcessedOutput := {
  po_path : string;
  po_buffer : string;
  po_width : Z;
  po_height : Z;
  po_format : string;
  po_bytes : Z
}.

Record ProcessedFile := {
  originalPath : string;
  originalIdentifier : string;
  outputs : list ProcessedOutput
}.

Record ImgxFilesResult := {
  fr_processed : Z;
  fr_processedFiles : list ProcessedFile;
  fr_skipped : list FileReason;
  fr_totalFound : Z;
  fr_manifest : option (gmap string (list ImageManifestEntry))
}.

(** The sharp pipeline built on the bytes of an input:
    [sharp(inputBuffer).rotate().withMetadata(..)?.resize({..}).<format>({..})]. *)
Record BufferPipeline := {
  bp_input : string;
  bp_withMetadata : bool;
  bp_width : Z;
  bp_height : option Z;
  bp_withoutEnlargement : bool;
  bp_encoder : Encoder
}.

(** The collaborators of [imgxFromFiles]: those of [imgx], and
    [path.basename], [os.tmpdir()] and the codec on a buffer. *)
Record FilesEnv := {
  base_env : Env;
  path_basename : string -> string;
  os_tmpdir : string;
  sharp_buffer : BufferPipeline -> Result string
}.

Inductive FilesEvent :=
| FvMkdir (dir : string)
| FvSharp (p : BufferPipeline)
| FvWriteOutput (path : string)
| FvSaveCache (path : string)
| FvWriteManifest (path : string).

(** The variables of one call of [imgxFromFiles] that its tasks share, the
    world they act on, and the events of the call. *)
Record FilesRun := {
  f_world : World;
  f_events : list FilesEvent;
  f_cache : gmap string CacheEntry;
  processedFiles : list ProcessedFile;
  f_skippedFiles : list FileReason;
  f_manifest : gmap string (list ImageManifestEntry)
}.

Definition MF (A : Type) : Type := FilesRun -> Result A * FilesRun.

#[export] Instance MF_ret : MRet MF := fun A a r => (Ok a, r).
#[export] Instance MF_bind : MBind MF := fun A B f m r =>
  match m r with
  | (Ok a, r') => f a r'
  | (Throw e, r') => (Throw e, r')
  end.

Definition throw {A : Type} (e : Error) : MF A := fun r => (Throw e, r).
Definition gets {A : Type} (f : FilesRun -> A) : MF A :=
  fun r => (Ok (f r), r).
Definition modify (f : FilesRun -> FilesRun) : MF unit :=
  fun r => (Ok tt, f r).
Definition try_catch {A : Type} (body : MF A) (handler : Error -> MF A)
  : MF A :=
  fun r =>
    match body r with
    | (Ok a, r') => (Ok a, r')
    | (Throw e, r') => handler e r'
    end.
Definition lift {A : Type} (x : Result A) : MF A := fun r => (x, r).

Fixpoint foldM {A B : Type} (f : B -> A -> MF B) (l : list A) (b : B)
  : MF B :=
  match l with
  | [] => mret b
  | x :: l' => b' ← f b x; foldM f l' b'
  end.

(** [files.map((fileInput, index) => ...)], the tasks one after the
    other. *)
Fixpoint for_each_from (index : nat) (l : list ImgxFileInput)
    (body : nat -> ImgxFileInput -> MF unit) : MF unit :=
  match l with
  | [] => mret tt
  | x :: l' => body index x ;; for_each_from (S index) l' body
  end.

Definition set_world (w : World) (r : FilesRun) : FilesRun :=
  {| f_world := w; f_events := f_events r; f_cache := f_cache r;
     processedFiles := processedFiles r; f_skippedFiles := f_skippedFiles r;
     f_manifest := f_manifest r |}.

Definition emit (e : FilesEvent) : MF unit :=
  modify (fun r =>
    {| f_world := f_world r; f_events := (f_events r ++ [e])%list;
       f_cache := f_cache r; processedFiles := processedFiles r;
       f_skippedFiles := f_skippedFiles r; f_manifest := f_manifest r |}).

Definition push_processed (x : ProcessedFile) : MF unit :=
  modify (fun r =>
    {| f_world := f_world r; f_events := f_events r; f_cache := f_cache r;
       processedFiles := (processedFiles r ++ [x])%list;
       f_skippedFiles := f_skippedFiles r; f_manifest := f_manifest r |}).

Definition push_skipped (x : FileReason) : MF unit :=
  modify (fun r =>
    {| f_world := f_world r; f_events := f_events r; f_cache := f_cache r;
       processedFiles := processedFiles r;
       f_skippedFiles := (f_skippedFiles r ++ [x])%list;
       f_manifest := f_manifest r |}).

Definition set_manifest (key : string)
    (manifestEntries : list ImageManifestEntry) : MF unit :=
  modify (fun r =>
    {| f_world := f_world r; f_events := f_events r; f_cache := f_cache r;
       processedFiles := processedFiles r;
       f_skippedFiles := f_skippedFiles r;
       f_manifest := js_set key manifestEntries (f_manifest r) |}).

Definition set_cache (cacheKey : string) (e : CacheEntry) : MF unit :=
  modify (fun r =>
    {| f_world := f_world r; f_events := f_events r;
       f_cache := js_set cacheKey e (f_cache r);
       processedFiles := processedFiles r;
       f_skippedFiles := f_skippedFiles r; f_manifest := f_manifest r |}).

Section Program.

Context (fenv : FilesEnv).

(** [fs.mkdir(dir, { recursive: true })] and [fs.writeFile(p, data)], as
    in [imgx]. *)
Definition mkdir (dir : string) : MF unit :=
  emit (FvMkdir dir) ;;
  w ← gets f_world;
  match fs_fault (base_env fenv) (Mkdir dir) with
  | Some e => throw e
  | None =>
      match fs w !! dir with
      | Some n =>
          if is_dir n then mret tt
          else throw (fs_error "EEXIST: file already exists" "mkdir" dir)
      | None =>
          modify (set_world
            {| fs := <[dir := {| is_dir := true; node_mtime := now w;
                                 node_data := "" |}]> (fs w);
               now := now w |})
      end
  end.

Definition writeFile (ev : FilesEvent) (p data : string) : MF unit :=
  w ← gets f_world;
  match fs_fault (base_env fenv) (WriteFile p) with
  | Some e => throw e
  | None =>
      match fs w !! p with
      | Some {| is_dir := true |} =>
          throw (fs_error "EISDIR: illegal operation on a directory" "open" p)
      | _ =>
          emit ev ;;
          modify (set_world
            {| fs := <[p := {| is_dir := false; node_mtime := now w;
                               node_data := data |}]> (fs w);
               now := now w |})
      end
  end.

(** [await instance.toBuffer()]. *)
Definition toBuffer (p : BufferPipeline) : MF string :=
  emit (FvSharp p) ;;
  lift (sharp_buffer fenv p).

Section FromFiles.

Context (opts : ImgxFilesOptions).

(** The destructuring of [opts], with its defaults. *)
Definition width_ : Z := default 1000 (f_width opts).
Definition withoutEnlargement_ : bool :=
  default true (f_withoutEnlargement opts).
Definition formats_ : list Format := default [webp] (f_formats opts).
Definition suffix_ : string := default "{w}w" (f_suffix opts).
Definition quality_ : Z := default 78 (f_quality opts).
Definition effort_ : Z := default 6 (f_effort opts).
Definition concurrency_ : Z :=
  default (os_cpus_length (base_env fenv)) (f_concurrency opts).
Definition sharpCacheFiles_ : SharpCacheFiles :=
  default (CacheFiles 100) (f_sharpCacheFiles opts).
Definition stripMetadata_ : bool := default true (f_stripMetadata opts).
Definition returnBuffers_ : bool := default true (returnBuffers opts).
Definition writeToDisk_ : bool := default true (writeToDisk opts).

(** "Configure Sharp cache and concurrency", as in [imgx]. *)
Definition configure : Result unit :=
  match sharp_cache (base_env fenv) sharpCacheFiles_ with
  | Ok _ => sharp_concurrency (base_env fenv) concurrency_
  | Throw e => Throw e
  end.

(** [output] where it is used as a string, and as a condition. *)
Definition output_ : string := default "" (f_output opts).
Definition has_output : bool := truthy (f_output opts).

(** [output && writeToDisk]. *)
Definition to_disk : bool := has_output && writeToDisk_.

(** The record of which [imgxFromFiles] takes the fingerprint: the
    destructured options, defaults filled in. *)
Definition tempOpts : ImgxOptions :=
  {| input := ""; output := str_or output_ "";
     width := Some width_; height := f_height opts; sizes := f_sizes opts;
     withoutEnlargement := Some withoutEnlargement_;
     formats := Some formats_; suffix := Some suffix_;
     quality := Some quality_; effort := Some effort_;
     concurrency := None; sharpCacheFiles := None; pattern := None;
     stripMetadata := Some stripMetadata_;
     verbose := None; quiet := None; force := None; dryRun := None |}.

(** [sizes || [width]]. *)
Definition sizesToProcess : list Z := default [width_] (f_sizes opts).

Definition cachePath : string :=
  path_join (base_env fenv) output_ ".imgx-cache.json".
Definition manifestPath : string :=
  path_join (base_env fenv) output_ "imgx-manifest.json".
Definition settingsHash : string := generateSettingsHash tempOpts.

(** [output && writeToDisk && settingsHash]. *)
Definition checks_cache : bool :=
  to_disk && negb (String.eqb settingsHash "").

Definition sizeSuffix (size : Z) : string :=
  Str.replace_first "{w}" (pretty size) suffix_.

Definition outPath (outBase : string) (size : Z) (fmt : Format) : string :=
  outBase +:+ "-" +:+ sizeSuffix size +:+ "." +:+ format_name fmt.

Definition allOutputs (outBase : string) : list string :=
  size ← sizesToProcess; fmt ← formats_; [outPath outBase size fmt].

Definition encoder (fmt : Format) : Encoder :=
  match fmt with
  | webp => EncWebp quality_ effort_
  | avif => EncAvif (Z.min quality_ 60) (Z.min effort_ 6)
  | jpeg => EncJpeg quality_
  end.

(** [`buffer-${index}`]. *)
Definition buffer_name (index : nat) : string :=
  "buffer-" +:+ pretty (Z.of_nat index).

(** The identifier of an input, as the [catch] of its task computes it. *)
Definition identifier (index : nat) (fileInput : ImgxFileInput) : string :=
  match fileInput with
  | InputPath p => path_basename fenv p
  | InputBuffer _ => buffer_name index
  end.

(** The body of the [try] of "Load existing files from cache", for one
    expected output. *)
Definition load_output (w : World) (outputFile : string)
  : Result ProcessedOutput :=
  match readFile (base_env fenv) w outputFile with
  | Throw e => Throw e
  | Ok buffer =>
      match sharp_metadata (base_env fenv) buffer with
      | Throw e => Throw e
      | Ok metadata =>
          Ok {| po_path := outputFile;
                po_buffer := buffer;
                po_width :=
                  match Str.size_marker outputFile with
                  | Some n => n
                  | None => num_or (meta_width metadata) 0
                  end;
                po_height := num_or (meta_height metadata) 0;
                po_format :=
                  String.substring 1
                    (String.length
                       (path_extname (base_env fenv) outputFile))
                    (path_extname (base_env fenv) outputFile);
                po_bytes := Z.of_nat (String.length buffer) |}
      end
  end.

(** The loop over [allOutputs]; an output that cannot be read is left
    out and the loop goes on. *)
Definition load_outputs (w : World) (outputFiles : list string)
  : list ProcessedOutput :=
  omap (fun outputFile =>
          match load_output w outputFile with
          | Ok out => Some out
          | Throw _ => None
          end) outputFiles.

(** One round of the inner loop of "Process each size". *)
Definition process_output (inputBuffer outBase : string) (size : Z)
    (processedOutputs : list ProcessedOutput) (fmt : Format)
  : MF (list ProcessedOutput) :=
  let outPath := outPath outBase size fmt in
  let outDir := path_dirname (base_env fenv) outPath in
  (if writeToDisk_ then mkdir outDir else mret tt) ;;
  buffer ← toBuffer
    {| bp_input := inputBuffer; bp_withMetadata := stripMetadata_;
       bp_width := size; bp_height := f_height opts;
       bp_withoutEnlargement := withoutEnlargement_;
       bp_encoder := encoder fmt |};
  (if writeToDisk_ then writeFile (FvWriteOutput outPath) outPath buffer
   else mret tt) ;;
  metadata ← lift (sharp_metadata (base_env fenv) buffer);
  mret (processedOutputs ++
    [ {| po_path := if writeToDisk_ then outPath else "";
         po_buffer := if returnBuffers_ then buffer else "";
         po_width := num_or (meta_width metadata) size;
         po_height := num_or (meta_height metadata) 0;
         po_format := format_name fmt;
         po_bytes := Z.of_nat (String.length buffer) |} ])%list.

Definition process_sizes (inputBuffer outBase : string)
  : MF (list ProcessedOutput) :=
  foldM (fun processedOutputs size =>
           foldM (process_output inputBuffer outBase size) formats_
                 processedOutputs)
        sizesToProcess [].

(** The manifest entry of a processed output. *)
Definition manifest_entry (originalIdentifier : string)
    (out : ProcessedOutput) : ImageManifestEntry :=
  {| src := if writeToDisk_ && has_output
            then Str.slashes
                   (path_relative (base_env fenv) output_ (po_path out))
            else po_path out;
     entry_width := po_width out;
     entry_height := po_height out;
     format := po_format out;
     bytes := po_bytes out;
     originalFile := originalIdentifier |}.

(** "Handle string (file path) or Buffer input": the original path, the
    identifier and the bytes of the input. *)
Definition read_input (w : World) (index : nat) (fileInput : ImgxFileInput)
  : Result (string * string * string) :=
  match fileInput with
  | InputPath p =>
      match readFile (base_env fenv) w p with
      | Ok inputBuffer => Ok (p, path_basename fenv p, inputBuffer)
      | Throw e => Throw e
      end
  | InputBuffer data => Ok (buffer_name index, buffer_name index, data)
  end.

Definition is_path (fileInput : ImgxFileInput) : bool :=
  match fileInput with
  | InputPath _ => true
  | InputBuffer _ => false
  end.

(** The body of the [try] of one task. *)
Definition task_body (index : nat) (fileInput : ImgxFileInput) : MF unit :=
  w ← gets f_world;
  input ← lift (read_input w index fileInput);
  let '(originalPath, originalIdentifier, inputBuffer) := input in
  let baseName := Str.strip_ext originalIdentifier in
  let outBase :=
    if has_output then path_join (base_env fenv) output_ baseName
    else path_join (base_env fenv) (os_tmpdir fenv)
           ("imgx-" +:+ pretty (now w) +:+ "-" +:+ baseName) in
  let allOutputs := allOutputs outBase in
  c ← gets f_cache;
  let skipCheck :=
    shouldSkipFile (base_env fenv) w originalPath allOutputs settingsHash
      false c in
  if checks_cache && skip skipCheck then
    push_skipped
      {| file := originalIdentifier;
         reason := str_or (default "" (skip_reason skipCheck)) "cached" |} ;;
    let processedOutputs :=
      if returnBuffers_ then load_outputs w allOutputs else [] in
    match processedOutputs with
    | [] => mret tt
    | _ =>
        push_processed
          {| originalPath := originalPath;
             originalIdentifier := originalIdentifier;
             outputs := processedOutputs |}
    end
  else
    processedOutputs ← process_sizes inputBuffer outBase;
    push_processed
      {| originalPath := originalPath;
         originalIdentifier := originalIdentifier;
         outputs := processedOutputs |} ;;
    (if checks_cache && is_path fileInput then
       let cacheKey :=
         path_relative (base_env fenv) (cwd (base_env fenv)) originalPath in
       w' ← gets f_world;
       match stat (base_env fenv) w' originalPath with
       | Ok inputStats =>
           set_cache cacheKey
             {| inputPath := originalPath; inputMtime := mtime inputStats;
                entry_settingsHash := settingsHash;
                entry_outputFiles := allOutputs; timestamp := now w' |}
       | Throw _ => mret tt
       end
     else mret tt) ;;
    set_manifest originalIdentifier
      (manifest_entry originalIdentifier <$> processedOutputs).

(** The function handed to [limit] for the input [fileInput]. *)
Definition task (index : nat) (fileInput : ImgxFileInput) : MF unit :=
  try_catch (task_body index fileInput)
    (fun error =>
       push_skipped
         {| file := identifier index fileInput;
            reason := str_or (message error) "Unknown error" |}).

(** From "Save cache file" to the returned object. *)
Definition finish : MF ImgxFilesResult :=
  (if to_disk && negb (String.eqb cachePath "")
   then c ← gets f_cache;
        writeFile (FvSaveCache cachePath) cachePath
          (JSON_stringify_cache (base_env fenv) c)
   else mret tt) ;;
  m ← gets f_manifest;
  (if to_disk && (0 <? size m)%nat
   then writeFile (FvWriteManifest manifestPath) manifestPath
          (JSON_stringify_manifest (base_env fenv) m)
   else mret tt) ;;
  r ← gets id;
  mret {| fr_processed := Z.of_nat (length (processedFiles r));
          fr_processedFiles := processedFiles r;
          fr_skipped := f_skippedFiles r;
          fr_totalFound := Z.of_nat (length (f_files opts));
          fr_manifest := if (0 <? size m)%nat then Some m else None |}.

Definition start (w : World) : FilesRun :=
  {| f_world := w; f_events := [];
     f_cache := if to_disk then loadCache (base_env fenv) w cachePath else ∅;
     processedFiles := []; f_skippedFiles := []; f_manifest := ∅ |}.

(** [imgxFromFiles(opts)] from the world [w]: what the promise settles to,
    the world it leaves, and what it did. *)
Definition imgxFromFiles (w : World)
  : Result ImgxFilesResult * World * list FilesEvent :=
  if writeToDisk_ && negb has_output then
    (Throw {| message :=
                "output directory is required when writeToDisk is true" |},
     w, [])
  else
    match configure with
    | Throw e => (Throw e, w, [])
    | Ok _ =>
        match f_files opts with
        | [] =>
            (Ok {| fr_processed := 0; fr_processedFiles := [];
                   fr_skipped := []; fr_totalFound := 0;
                   fr_manifest := None |},
             w, [])
        | _ =>
            match pLimit (base_env fenv) concurrency_ with
            | Throw e => (Throw e, w, [])
            | Ok _ =>
                let '(res, r) :=
                  (for_each_from 0 (f_files opts) task ;; finish) (start w) in
                (res, f_world r, f_events r)
            end
        end
    end.

End FromFiles.

End Program.

End Files.

(** *** Words for imgxFromFiles *)

(** The variables shared by the tasks of [imgxFromFiles] are left as they
    were. *)
Definition files_same_heap (r r' : Files.FilesRun) : Prop :=
  Files.f_cache r' = Files.f_cache r
  /\ Files.processedFiles r' = Files.processedFiles r
  /\ Files.f_skippedFiles r' = Files.f_skippedFiles r
  /\ Files.f_manifest r' = Files.f_manifest r.

(** A call of the codec. *)
Definition is_sharp (e : Files.FilesEvent) : Prop :=
  match e with
  | Files.FvSharp _ => True
  | _ => False
  end.

(** An output that was not written to disk. *)
Definition in_memory (out : Files.ProcessedOutput) : Prop :=
  Files.po_path out = "".

(** The shared variables after the tasks of [l], the first of index
    [index], run in order from [r]. *)
Fixpoint files_after_tasks (fenv : Files.FilesEnv)
    (opts : Files.ImgxFilesOptions) (index : nat)
    (l : list Files.ImgxFileInput) (r : Files.FilesRun) : Files.FilesRun :=
  match l with
  | [] => r
  | x :: l' =>
      files_after_tasks fenv opts (S index) l'
        (Files.task fenv opts index x r).2
  end.

(** A computation that leaves the shared variables as they were. *)
Definition heap_only {A : Type} (m : Files.MF A) : Prop :=
  forall r, files_same_heap r (m r).2.

(** What the task of an input pushes: at most one entry on each list, at
    least one on either; [l1] is what it adds to [processedFiles], [l2]
    what it adds to [skipped]. *)
Definition files_pushed (fenv : Files.FilesEnv) (opts : Files.ImgxFilesOptions)
    (index : nat) (x : Files.ImgxFileInput)
    (l1 : list Files.ProcessedFile) (l2 : list FileReason) : Prop :=
  (length l1 <= 1)%nat /\ (length l2 <= 1)%nat
  /\ (1 <= length l1 + length l2)%nat
  /\ (Files.checks_cache opts = false -> (length l1 + length l2 = 1)%nat)
  /\ Forall (fun s => file s = Files.identifier fenv index x) l2.

(** The message of the validation of [imgxFromFiles]. *)
Definition output_required : Error :=
  {| message := "output directory is required when writeToDisk is true" |}.

(** Nothing of what the tasks have recorded names a path on disk. *)
Definition all_in_memory (r : Files.FilesRun) : Prop :=
  Forall (fun pf => Forall in_memory (Files.outputs pf))
    (Files.processedFiles r)
  /\ forall k es, Files.f_manifest r !! k = Some es ->
                  Forall (fun e => src e = "") es.





(** A sample environment for [imgxFromFiles]. *)
Module FilesSample.

Fixpoint basename (p : string) : string :=
  match p with
  | EmptyString => EmptyString
  | String c p' =>
      if existsb (Ascii.eqb "/"%char) (list_ascii_of_string p')
      then basename p'
      else if Ascii.eqb c "/"%char then p' else p
  end.

Definition fenv : Files.FilesEnv :=
  {| Files.base_env := Sample.env [] Sample.no_error ∅;
     Files.path_basename := basename;
     Files.os_tmpdir := "/tmp";
     Files.sharp_buffer := fun p =>
       if String.eqb (Files.bp_input p) "corrupt"
       then Throw {| message := "Input buffer contains unsupported image format" |}
       else Ok ("encoded " +:+ pretty (Files.bp_width p)) |}.

Definition options (inputs : list Files.ImgxFileInput)
    (out : option string) (toDisk : option bool) : Files.ImgxFilesOptions :=
  {| Files.f_files := inputs; Files.f_output := out;
     Files.f_width := None; Files.f_height := None; Files.f_sizes := None;
     Files.f_withoutEnlargement := None; Files.f_formats := None;
     Files.f_suffix := None; Files.f_quality := None; Files.f_effort := None;
     Files.f_concurrency := None; Files.f_sharpCacheFiles := None;
     Files.f_stripMetadata := None; Files.f_verbose := None;
     Files.f_quiet := None; Files.returnBuffers := None;
     Files.writeToDisk := toDisk |}.

(** A file, a buffer and a buffer that the codec rejects, kept in
    memory. *)
Definition in_memory : Files.ImgxFilesOptions :=
  options [Files.InputPath "/proj/in/a.jpg"; Files.InputBuffer "png bytes";
           Files.InputBuffer "corrupt"] None (Some false).

(** No output directory, and [writeToDisk] left to its default. *)
Definition no_output : Files.ImgxFilesOptions :=
  options [Files.InputBuffer "png bytes"] None None.

(** The input of [Sample.w_done], with its output directory. *)
Definition to_disk : Files.ImgxFilesOptions :=
  options [Files.InputPath "/proj/in/a.jpg"] (Some "/proj/out") None.

(** A Buffer, written to the output directory of the sample. *)
Definition buffer_to_disk : Files.ImgxFilesOptions :=
  options [Files.InputBuffer "png bytes"] (Some "/proj/out") None.

(** What the call that keeps its outputs in memory returns. *)
Definition result : Files.ImgxFilesResult :=
  match (Files.imgxFromFiles fenv in_memory Sample.w_done).1.1 with
  | Ok res => res
  | Throw _ =>
      {| Files.fr_processed := 0; Files.fr_processedFiles := [];
         Files.fr_skipped := []; Files.fr_totalFound := 0;
         Files.fr_manifest := None |}
  end.

End FilesSample.

(** Every list of the manifest is empty. *)
Definition manifest_lists_empty (m : gmap string (list ImageManifestEntry))
  : Prop :=
  forall k es, m !! k = Some es -> es = [].

(** *** The outcome of a task *)











(** *** Merging lists *)

(** [m] is a merge of the lists [ls]: it holds the elements of each of
    them, in the order in which that list has them. *)
Inductive interleaved {A : Type} : list (list A) -> list A -> Prop :=
| interleaved_done (ls : list (list A)) :
    Forall (fun l => l = []) ls -> interleaved ls []
| interleaved_step (ls1 : list (list A)) (x : A) (l : list A)
    (ls2 : list (list A)) (m : list A) :
    interleaved (ls1 ++ l :: ls2) m ->
    interleaved (ls1 ++ (x :: l) :: ls2) (x :: m).

(** * Properties *)

(** ** shouldSkipFile *)

Section ShouldSkipFile.

Context (env : Env) (w : World).

Lemma fold_max_ge_acc (l : list Z) (acc : Z) : acc <= fold_left Z.max l acc.
Proof.
  revert acc. induction l as [|x l IH]; intros acc; simpl; [lia|].
  specialize (IH (Z.max acc x)). lia.
Qed.

Lemma fold_max_ge_elem (l : list Z) (acc x : Z) :
  In x l -> x <= fold_left Z.max l acc.
Proof.
  revert acc. induction l as [|y l IH]; intros acc; simpl; [tauto|].
  intros [->|Hin]; [|by apply IH].
  pose proof (fold_max_ge_acc l (Z.max acc x)). lia.
Qed.

Lemma fold_max_le_bound (l : list Z) (acc b : Z) :
  acc <= b -> Forall (fun x => x <= b) l -> fold_left Z.max l acc <= b.
Proof.
  revert acc. induction l as [|y l IH]; intros acc Hacc Hall; simpl; [done|].
  inversion Hall; subst. apply IH; [lia|done].
Qed.

(** When every output is found the loop runs to its end and returns the
    maximum of the accumulator and the modification times. *)
Lemma scan_outputs_all (outputFiles : list string) (acc : Z) :
  Forall (exists_on_disk env w) outputFiles ->
  scan_outputs env w outputFiles acc
  = (true, fold_left Z.max (output_mtimes env w outputFiles) acc).
Proof.
  revert acc. induction outputFiles as [|p l IH]; intros acc Hall; [done|].
  inversion Hall as [|? ? [st Hst] Hl]; subst.
  unfold output_mtimes in *. simpl. rewrite Hst. simpl. by apply IH.
Qed.

(** When some output is missing the loop stops there. *)
Lemma scan_outputs_missing (outputFiles : list string) (acc : Z) :
  Exists (fun p => ~ exists_on_disk env w p) outputFiles ->
  (scan_outputs env w outputFiles acc).1 = false.
Proof.
  revert acc. induction outputFiles as [|p l IH]; intros acc Hex.
  - inversion Hex.
  - simpl. destruct (stat env w p) as [st|e] eqn:Hst; [|done].
    inversion Hex as [? ? Hno|? ? Hl]; subst.
    + exfalso. apply Hno. by exists st.
    + by apply IH.
Qed.

(** C1: with [force] false, the input found, every expected output found
    and the maximum of their modification times strictly greater than the
    input's, [shouldSkipFile] answers skip; the reason is
    "cached (up to date)" exactly when the cache holds a record under the
    normalized key with the current fingerprint, and
    "output newer than input" in every other case. *)
Theorem shouldSkipFile_skips (inputPath : string)
    (outputFiles : list string) (settingsHash : string)
    (cache : gmap string CacheEntry) (inputStats : Stats) (m : Z) :
  stat env w inputPath = Ok inputStats ->
  Forall (exists_on_disk env w) outputFiles ->
  is_maximum m (output_mtimes env w outputFiles) ->
  mtime inputStats < m ->
  skip (shouldSkipFile env w inputPath outputFiles settingsHash false cache)
  = true
  /\ (skip_reason
        (shouldSkipFile env w inputPath outputFiles settingsHash false cache)
      = Some "cached (up to date)"
      <-> cache_hit env cache inputPath settingsHash)
  /\ (~ cache_hit env cache inputPath settingsHash ->
      skip_reason
        (shouldSkipFile env w inputPath outputFiles settingsHash false cache)
      = Some "output newer than input").
Proof.
  intros Hin Hall [Hm _] Hlt.
  unfold shouldSkipFile. rewrite Hin, (scan_outputs_all _ _ Hall).
  pose proof (fold_max_ge_elem _ 0 _ Hm) as Hge.
  assert ((mtime inputStats
             <? fold_left Z.max (output_mtimes env w outputFiles) 0)%Z = true)
    as -> by (apply Z.ltb_lt; lia).
  simpl. unfold cache_hit.
  destruct (cache !! path_relative env (cwd env) inputPath) as [e|] eqn:Hc.
  - destruct (String.eqb (entry_settingsHash e) settingsHash) eqn:He; simpl.
    + apply String.eqb_eq in He. repeat split; eauto.
      intros Hno. exfalso. apply Hno. eauto.
    + apply String.eqb_neq in He. repeat split; try done.
      intros (e' & [= <-] & ?). done.
  - simpl. repeat split; try done. intros (e' & [=] & ?).
Qed.

(** [shouldSkipFile] asks for reprocessing when [force] is set, when the
    input cannot be read, when an expected output is missing, and when no
    expected output is newer than an input dated on or after 1970. *)
Theorem shouldSkipFile_reprocesses (inputPath : string)
    (outputFiles : list string) (settingsHash : string) (force : bool)
    (cache : gmap string CacheEntry) :
  force = true
  \/ ~ exists_on_disk env w inputPath
  \/ Exists (fun p => ~ exists_on_disk env w p) outputFiles
  \/ (exists inputStats, stat env w inputPath = Ok inputStats
        /\ 0 <= mtime inputStats
        /\ Forall (fun t => t <= mtime inputStats)
                  (output_mtimes env w outputFiles)) ->
  shouldSkipFile env w inputPath outputFiles settingsHash force cache
  = {| skip := false; skip_reason := None |}.
Proof.
  intros H. unfold shouldSkipFile. destruct force; [done|].
  destruct H as [H|[H|[H|H]]]; [done| | |].
  - destruct (stat env w inputPath) as [st|e] eqn:Hst; [|done].
    exfalso. apply H. by exists st.
  - destruct (stat env w inputPath) as [st|e] eqn:Hst; [|done].
    pose proof (scan_outputs_missing _ 0 H) as Hs.
    destruct (scan_outputs env w outputFiles 0) as [b n]. simpl in Hs.
    by subst b.
  - destruct H as (st & -> & H0 & Hall).
    destruct (scan_outputs env w outputFiles 0) as [b n] eqn:Hs.
    destruct b; [|done].
    assert (Forall (exists_on_disk env w) outputFiles) as Hex.
    { clear -Hs. revert Hs. generalize 0. induction outputFiles as [|p l IH];
        intros acc Hs; [constructor|].
      simpl in Hs. destruct (stat env w p) as [st'|e] eqn:Hst; [|done].
      constructor; [by exists st'|by eapply IH]. }
    rewrite (scan_outputs_all _ _ Hex) in Hs. injection Hs as <-.
    pose proof (fold_max_le_bound _ 0 _ H0 Hall).
    assert ((mtime st
               <? fold_left Z.max (output_mtimes env w outputFiles) 0)%Z
            = false)
      as -> by (apply Z.ltb_ge; lia).
    done.
Qed.

End ShouldSkipFile.

(** C1, at the sample world whose output is newer than its input. *)
Lemma shouldSkipFile_skips_witness :
  skip (shouldSkipFile (Sample.env [] Sample.no_error ∅) Sample.w_done
          "/proj/in/a.jpg" ["/proj/out/a-1000w.webp"] "h" false ∅) = true
  /\ (skip_reason
        (shouldSkipFile (Sample.env [] Sample.no_error ∅) Sample.w_done
           "/proj/in/a.jpg" ["/proj/out/a-1000w.webp"] "h" false ∅)
      = Some "cached (up to date)"
      <-> cache_hit (Sample.env [] Sample.no_error ∅) ∅ "/proj/in/a.jpg" "h")
  /\ (~ cache_hit (Sample.env [] Sample.no_error ∅) ∅ "/proj/in/a.jpg" "h" ->
      skip_reason
        (shouldSkipFile (Sample.env [] Sample.no_error ∅) Sample.w_done
           "/proj/in/a.jpg" ["/proj/out/a-1000w.webp"] "h" false ∅)
      = Some "output newer than input").
Proof.
  apply (shouldSkipFile_skips (Sample.env [] Sample.no_error ∅) Sample.w_done
           "/proj/in/a.jpg" ["/proj/out/a-1000w.webp"] "h" ∅
           {| mtime := 1000; st_size := 10 |} 2000).
  - vm_compute. reflexivity.
  - constructor; [|constructor].
    exists {| mtime := 2000; st_size := 10 |}. vm_compute. reflexivity.
  - split; [left; vm_compute; reflexivity|].
    constructor; [|constructor]. vm_compute. discriminate.
  - simpl. lia.
Defined.

(** C2, where the code departs from it: an input last modified 3 s before
    1970 and its only expected output, modified 5 s before 1970 and so
    older than the input; [shouldSkipFile] answers skip. *)
Lemma shouldSkipFile_skips_older_output_before_1970 :
  stat (Sample.env [] Sample.no_error ∅) Sample.w_old "/proj/in/a.jpg"
  = Ok {| mtime := -3000; st_size := 10 |}
  /\ output_mtimes (Sample.env [] Sample.no_error ∅) Sample.w_old
       ["/proj/out/a-1000w.webp"] = [-5000]
  /\ shouldSkipFile (Sample.env [] Sample.no_error ∅) Sample.w_old
       "/proj/in/a.jpg" ["/proj/out/a-1000w.webp"] "h" false ∅
     = {| skip := true; skip_reason := Some "output newer than input" |}.
Proof. vm_compute. repeat split. Qed.

(** The reprocessing cases, at the sample world with [force] set. *)
Lemma shouldSkipFile_reprocesses_witness :
  shouldSkipFile (Sample.env [] Sample.no_error ∅) Sample.w_done
    "/proj/in/a.jpg" ["/proj/out/a-1000w.webp"] "h" true ∅
  = {| skip := false; skip_reason := None |}.
Proof.
  apply (shouldSkipFile_reprocesses (Sample.env [] Sample.no_error ∅)
           Sample.w_done "/proj/in/a.jpg" ["/proj/out/a-1000w.webp"] "h" true ∅).
  left. reflexivity.
Defined.

(** ** generateSettingsHash *)

(** The embedded SHA-1 on the test vectors of FIPS 180, one and two blocks
    long, and on the settings of a call without options. *)
Example sha1_empty : SHA1.hex "" = "da39a3ee5e6b4b0d3255bfef95601890afd80709".
Proof. vm_compute. reflexivity. Qed.

Example sha1_abc : SHA1.hex "abc" = "a9993e364706816aba3e25717850c26c9cd0d89d".
Proof. vm_compute. reflexivity. Qed.

Example sha1_two_blocks :
  SHA1.hex "abcdbcdecdefdefgefghfghighijhijkijkljklmklmnlmnomnopnopq"
  = "84983e441c3bd26ebaae4aa1f95129e5e54670f1".
Proof. vm_compute. reflexivity. Qed.

Example sha1_fox :
  SHA1.hex "The quick brown fox jumps over the lazy dog"
  = "2fd4e1c67a2d28fced849ee1bb76e7391b93eb12".
Proof. vm_compute. reflexivity. Qed.

Example settings_of_no_options :
  JSON.object (settings Sample.opts) = "{}"
  /\ generateSettingsHash Sample.opts
     = "bf21a9e8fbc5a3846fb05b4fa0859e0917b2202f".
Proof. vm_compute. split; reflexivity. Qed.

Module StrFacts.

Lemma to_list_app (a b : string) :
  list_ascii_of_string (a +:+ b)
  = (list_ascii_of_string a ++ list_ascii_of_string b)%list.
Proof.
  induction a as [|c a IH]; [done|].
  change (String c a +:+ b) with (String c (a +:+ b)).
  simpl. by rewrite IH.
Qed.

Lemma to_list_inj (a b : string) :
  list_ascii_of_string a = list_ascii_of_string b -> a = b.
Proof.
  intros H. rewrite <-(string_of_list_ascii_of_string a),
    <-(string_of_list_ascii_of_string b). by rewrite H.
Qed.

Lemma length_to_list (a : string) :
  length (list_ascii_of_string a) = String.length a.
Proof. induction a; simpl; congruence. Qed.

Lemma length_app (a b : string) :
  String.length (a +:+ b) = (String.length a + String.length b)%nat.
Proof.
  by rewrite <-!length_to_list, to_list_app, List.length_app.
Qed.

Lemma app_assoc (a b c : string) : (a +:+ b) +:+ c = a +:+ (b +:+ c).
Proof. apply to_list_inj. by rewrite !to_list_app, List.app_assoc. Qed.


Lemma app_cancel_r (a b c : string) : a +:+ c = b +:+ c -> a = b.
Proof.
  intros H. apply to_list_inj. apply (f_equal list_ascii_of_string) in H.
  rewrite !to_list_app in H. by apply List.app_inv_tail in H.
Qed.





End StrFacts.



#[local] Instance Field_eq_dec : EqDecision Field.
Proof. solve_decision. Defined.




(** *** The digest takes finitely many values *)

Lemma w32_range (x : Z) : 0 <= SHA1.w32 x < 2 ^ 32.
Proof. unfold SHA1.w32. apply Z.mod_pos_bound. lia. Qed.

Lemma compress_in_range (h : SHA1.state) (block : list Z) :
  words_in_range (SHA1.compress h block).
Proof.
  unfold SHA1.compress, words_in_range.
  cbn [SHA1.ha SHA1.hb SHA1.hc SHA1.hd SHA1.he].
  repeat split; apply w32_range.
Qed.

Lemma fold_compress_in_range (blocks : list (list Z)) (h : SHA1.state) :
  words_in_range h -> words_in_range (fold_left SHA1.compress blocks h).
Proof.
  revert h. induction blocks as [|b blocks IH]; intros h Hh; [done|].
  simpl. apply IH, compress_in_range.
Qed.

Lemma digest_in_range (s : string) : words_in_range (SHA1.digest s).
Proof.
  unfold SHA1.digest. apply fold_compress_in_range.
  unfold words_in_range, SHA1.init.
  cbn [SHA1.ha SHA1.hb SHA1.hc SHA1.hd SHA1.he].
  change (2 ^ 32) with 4294967296. lia.
Qed.

Lemma digest_number_range (s : SHA1.state) :
  words_in_range s -> 0 <= digest_number s < 2 ^ 160.
Proof.
  unfold words_in_range, digest_number. destruct s as [a b c d e].
  cbn [SHA1.ha SHA1.hb SHA1.hc SHA1.hd SHA1.he].
  change (2 ^ 160) with (2 ^ 32 * 2 ^ 32 * 2 ^ 32 * 2 ^ 32 * 2 ^ 32).
  change (2 ^ 32) with 4294967296. nia.
Qed.

Lemma digest_number_inj (s1 s2 : SHA1.state) :
  words_in_range s1 -> words_in_range s2 ->
  digest_number s1 = digest_number s2 -> s1 = s2.
Proof.
  unfold words_in_range, digest_number.
  destruct s1 as [a1 b1 c1 d1 e1], s2 as [a2 b2 c2 d2 e2].
  cbn [SHA1.ha SHA1.hb SHA1.hc SHA1.hd SHA1.he].
  change (2 ^ 32) with 4294967296. intros H1 H2 H.
  assert (a1 = a2 /\ b1 = b2 /\ c1 = c2 /\ d1 = d2 /\ e1 = e2)
    as (-> & -> & -> & -> & ->) by lia.
  reflexivity.
Qed.

(** *** The pigeonhole principle on an interval of integers *)

Lemma bounded_search (f : Z -> Z) (v n : Z) :
  0 <= n ->
  (exists i, 0 <= i <= n /\ f i = v) \/ (forall i, 0 <= i <= n -> f i <> v).
Proof.
  intros Hn. pattern n. apply natlike_ind; [| |done].
  - destruct (decide (f 0 = v)) as [H|H].
    + left. exists 0. split; [lia|done].
    + right. intros i Hi. by replace i with 0 by lia.
  - clear n Hn. intros n Hn [(i & Hi & Hf)|Hnone].
    + left. exists i. split; [lia|done].
    + destruct (decide (f (Z.succ n) = v)) as [H|H].
      * left. exists (Z.succ n). split; [lia|done].
      * right. intros i Hi.
        destruct (decide (i = Z.succ n)) as [->|Hne]; [done|].
        apply Hnone. lia.
Qed.

Lemma pigeonhole (n : Z) :
  0 <= n ->
  forall f : Z -> Z,
    (forall i, 0 <= i <= n -> 0 <= f i < n) ->
    exists i j, (0 <= i < j /\ j <= n) /\ f i = f j.
Proof.
  intros Hn. pattern n. apply natlike_ind; [| |done]; clear n Hn.
  - intros f Hf. specialize (Hf 0). lia.
  - intros n Hn IH f Hf.
    destruct (bounded_search f (f (Z.succ n)) n Hn) as [(i & Hi & Heq)|Hnone].
    + exists i, (Z.succ n). split; [lia|done].
    + set (v := f (Z.succ n)) in *.
      assert (0 <= v < Z.succ n) as Hv by (apply Hf; lia).
      destruct (IH (fun i => if (f i <? v)%Z then f i else f i - 1))
        as (i & j & Hij & Heq).
      { intros i Hi. specialize (Hnone i Hi).
        assert (0 <= f i < Z.succ n) by (apply Hf; lia).
        destruct (Z.ltb_spec (f i) v); lia. }
      exists i, j. split; [lia|].
      assert (f i <> v) by (apply Hnone; lia).
      assert (f j <> v) by (apply Hnone; lia).
      destruct (Z.ltb_spec (f i) v), (Z.ltb_spec (f j) v); lia.
Qed.

(** *** Words of 161 letters *)

Lemma length_letters (n : nat) (i : Z) : String.length (letters n i) = n.
Proof. revert i. induction n as [|n IH]; intros i; simpl; [done|]. by rewrite IH. Qed.

Lemma escape_letters (n : nat) (i : Z) :
  JSON.escape (letters n i) = letters n i.
Proof.
  revert i. induction n as [|n IH]; intros i; [done|].
  cbn [letters JSON.escape]. rewrite IH. by destruct (Z.even i).
Qed.

Lemma letters_inj (n : nat) (i j : Z) :
  0 <= i < 2 ^ Z.of_nat n -> 0 <= j < 2 ^ Z.of_nat n ->
  letters n i = letters n j -> i = j.
Proof.
  revert i j. induction n as [|n IH]; intros i j Hi Hj H.
  - change (2 ^ Z.of_nat 0) with 1 in *. lia.
  - rewrite Nat2Z.inj_succ, Z.pow_succ_r in Hi, Hj by lia.
    cbn [letters] in H. injection H as Hbit Hrest.
    apply IH in Hrest; [| split; [apply Z.div_pos; lia|apply Z.div_lt_upper_bound; lia]..].
    rewrite (Z.div_mod i 2), (Z.div_mod j 2) by lia.
    rewrite Hrest. f_equal.
    rewrite <-!Z.bit0_mod, !Z.bit0_odd, <-!Z.negb_even.
    by destruct (Z.even i), (Z.even j).
Qed.

Lemma str_letters_inj (n : nat) (i j : Z) :
  0 <= i < 2 ^ Z.of_nat n -> 0 <= j < 2 ^ Z.of_nat n ->
  JSON.str (letters n i) = JSON.str (letters n j) -> i = j.
Proof.
  intros Hi Hj H. unfold JSON.str in H. rewrite !escape_letters in H.
  injection H as H. apply StrFacts.app_cancel_r in H.
  by apply (letters_inj n).
Qed.

Opaque letters.

(** SHA-1 is not one-to-one on the settings: there are two values of
    [suffix], words of 161 letters with different JSON texts, for which
    [generateSettingsHash] returns the same fingerprint, all other
    options being equal.  The fingerprint is one of 2^160 digests, and
    the words of 161 letters [a] and [b] are more than that.  No such pair
    is known. *)
Lemma generateSettingsHash_collision :
  exists s1 s2 : string,
    String.length s1 = 161%nat /\ String.length s2 = 161%nat
    /\ field_json Fsuffix (Sample.with_suffix s1 Sample.opts)
       <> field_json Fsuffix (Sample.with_suffix s2 Sample.opts)
    /\ generateSettingsHash (Sample.with_suffix s1 Sample.opts)
       = generateSettingsHash (Sample.with_suffix s2 Sample.opts).
Proof.
  set (o := fun i : Z => Sample.with_suffix (letters 161 i) Sample.opts).
  destruct (pigeonhole (2 ^ 160) ltac:(lia)
              (fun i => digest_number
                          (SHA1.digest (JSON.object (settings (o i))))))
    as (i & j & Hij & Heq).
  { intros i _. apply digest_number_range, digest_in_range. }
  apply digest_number_inj in Heq; [|apply digest_in_range..].
  exists (letters 161 i), (letters 161 j).
  rewrite !length_letters. split; [done|]. split; [done|]. split.
  - assert (forall s, field_json Fsuffix (Sample.with_suffix s Sample.opts)
                      = Some (JSON.str s)) as Hfield by done.
    rewrite !Hfield. intros H. apply (inj Some) in H.
    assert (2 ^ Z.of_nat 161 = 2 * 2 ^ 160) as Hpow.
    { change (Z.of_nat 161) with (Z.succ 160). by rewrite Z.pow_succ_r. }
    apply (str_letters_inj 161) in H; rewrite ?Hpow; lia.
  - unfold generateSettingsHash, SHA1.hex. fold (o i) (o j). by rewrite Heq.
Qed.

Transparent letters.



(** ** The tasks of imgx *)

Section Tasks.

Context (env : Env) (opts : ImgxOptions).

Abbreviation dry := (dryRun_ opts).

Ltac heap_ok := unfold same_heap; simpl; repeat split; reflexivity.

Lemma world_step_refl (d : bool) (r : Run) : world_step d r r.
Proof.
  split; [done|]. split.
  - exists []. by rewrite List.app_nil_r.
  - intros _ p. by left.
Qed.

Lemma world_step_trans (d : bool) (r1 r2 r3 : Run) :
  world_step d r1 r2 -> world_step d r2 r3 -> world_step d r1 r3.
Proof.
  intros (Hn1 & (l1 & He1 & Hl1) & Hf1) (Hn2 & (l2 & He2 & Hl2) & Hf2).
  split; [congruence|]. split.
  - exists (l1 ++ l2)%list. split.
    + by rewrite He2, He1, List.app_assoc.
    + by apply Forall_app.
  - intros Hd p. specialize (Hf1 Hd p). specialize (Hf2 Hd p).
    destruct Hf2 as [Hf2|(Hnone & n & Hsome & Hdir)].
    + rewrite Hf2. done.
    + destruct Hf1 as [Hf1|(Hnone1 & _)].
      * right. split; [congruence|]. eauto.
      * right. split; [done|]. eauto.
Qed.

Lemma same_heap_refl (r : Run) : same_heap r r.
Proof. by repeat split. Qed.

Lemma same_heap_trans (r1 r2 r3 : Run) :
  same_heap r1 r2 -> same_heap r2 r3 -> same_heap r1 r3.
Proof. unfold same_heap. intuition congruence. Qed.

Lemma world_only_ret (d : bool) {A : Type} (a : A) : world_only d (mret a).
Proof. intros r. split; [apply same_heap_refl|apply world_step_refl]. Qed.

Lemma world_only_bind (d : bool) {A B : Type} (m : M A) (f : A -> M B) :
  world_only d m -> (forall a, world_only d (f a)) -> world_only d (m ≫= f).
Proof.
  intros Hm Hf r. unfold mbind, M_bind.
  destruct (Hm r) as [Hh Hw]. destruct (m r) as [[a|e] r1]; simpl in *.
  - destruct (Hf a r1) as [Hh' Hw']. split.
    + by eapply same_heap_trans.
    + by eapply world_step_trans.
  - done.
Qed.

Lemma world_only_foldM (d : bool) {A B : Type} (f : B -> A -> M B)
    (l : list A) (b : B) :
  (forall b a, world_only d (f b a)) -> world_only d (foldM f l b).
Proof.
  intros Hf. revert b. induction l as [|a l IH]; intros b; simpl.
  - apply world_only_ret.
  - apply world_only_bind; [apply Hf|]. intros b'. apply IH.
Qed.

Lemma world_only_mkdir (d : bool) (dir : string) :
  world_only d (mkdir env dir).
Proof.
  intros r.
  unfold mkdir, emit, modify, gets, throw, set_world, mbind, M_bind, mret, M_ret.
  simpl.
  assert (Forall (allowed d) [EvMkdir dir]) as Hev by (by repeat constructor).
  destruct (fs_fault env (Mkdir dir)) as [e|]; simpl.
  { split; [heap_ok|]. split; [done|]. split; [eauto|].
    intros _ p. by left. }
  destruct (fs (world r) !! dir) as [n|] eqn:Hn; simpl.
  { destruct (is_dir n); simpl; (split; [heap_ok|]);
      (split; [done|]); (split; [eauto|]); intros _ p; by left. }
  split; [heap_ok|]. split; [done|]. split; [eauto|].
  intros _ p. destruct (decide (p = dir)) as [->|Hne].
  - right. split; [done|]. simpl. rewrite lookup_insert_eq. eauto.
  - left. simpl. by rewrite lookup_insert_ne.
Qed.

Lemma world_only_toBuffer (p : SharpPipeline) :
  world_only false (toBuffer env p).
Proof.
  intros r. unfold toBuffer, emit, modify, gets, lift, mbind, M_bind.
  simpl. split; [heap_ok|]. split; [done|]. split.
  - exists [EvSharp p]. split; [done|]. by repeat constructor.
  - intros Hd'. congruence.
Qed.

Lemma world_only_writeOutput (p data : string) :
  world_only false (writeFile env (EvWriteOutput p) p data).
Proof.
  intros r.
  unfold writeFile, emit, modify, gets, throw, set_world, mbind, M_bind.
  simpl.
  assert (world_step false r r) as Hrefl by apply world_step_refl.
  destruct (fs_fault env (WriteFile p)) as [e|]; simpl.
  { split; [heap_ok|done]. }
  assert (forall r', same_heap r r' -> now (world r') = now (world r) ->
            events r' = (events r ++ [EvWriteOutput p])%list ->
            same_heap r r' /\ world_step false r r') as Hok.
  { intros r' Hh Hn He. split; [done|]. split; [done|]. split.
    - exists [EvWriteOutput p]. split; [done|]. by repeat constructor.
    - intros Hd'. congruence. }
  destruct (fs (world r) !! p) as [[[] t d]|] eqn:Hn; simpl.
  - split; [heap_ok|done].
  - apply Hok; [heap_ok|done..].
  - apply Hok; [heap_ok|done..].
Qed.

Lemma world_only_lift (d : bool) {A : Type} (x : Result A) :
  world_only d (lift x).
Proof. intros r. split; [heap_ok|apply world_step_refl]. Qed.

Lemma world_only_process_output (abs rel outBase : string) (size : Z)
    (es : list ImageManifestEntry) (fmt : Format) :
  world_only dry (process_output env opts abs rel outBase size es fmt).
Proof.
  unfold process_output.
  apply world_only_bind; [apply world_only_mkdir|]. intros _.
  destruct dry; [apply world_only_ret|].
  apply world_only_bind; [apply world_only_toBuffer|]. intros buffer.
  apply world_only_bind; [apply world_only_writeOutput|]. intros _.
  apply world_only_bind; [apply world_only_lift|]. intros metadata.
  apply world_only_ret.
Qed.

Lemma world_only_process_sizes (abs rel outBase : string) :
  world_only dry (process_sizes env opts abs rel outBase).
Proof.
  unfold process_sizes. apply world_only_foldM. intros es size.
  apply world_only_foldM. intros es' fmt. apply world_only_process_output.
Qed.

Lemma world_step_same (d : bool) (r r1 r' : Run) :
  world r' = world r1 -> events r' = events r1 ->
  world_step d r r1 -> world_step d r r'.
Proof. unfold world_step. intros -> ->. done. Qed.

Lemma shouldSkipFile_reason (w : World) (inputPath : string)
    (outputFiles : list string) (settingsHash : string) (force : bool)
    (cache : gmap string CacheEntry) :
  skip (shouldSkipFile env w inputPath outputFiles settingsHash force cache)
  = true ->
  skip_reason
    (shouldSkipFile env w inputPath outputFiles settingsHash force cache)
  = Some "cached (up to date)"
  \/ skip_reason
       (shouldSkipFile env w inputPath outputFiles settingsHash force cache)
     = Some "output newer than input".
Proof.
  unfold shouldSkipFile. destruct force; [done|].
  destruct (stat env w inputPath); [|done].
  destruct (scan_outputs env w outputFiles 0) as [b n].
  destruct (b && _); [|done].
  destruct (cache !! _) as [ce|]; [|by right].
  destruct (String.eqb _ _); [by left|by right].
Qed.

Opaque process_sizes shouldSkipFile allOutputs stat reconstruct.

(** A task never throws, and pushes its file to [files], to [skipped], or
    to both. *)
Lemma task_spec (abs : string) (r : Run) :
  (task env opts abs r).1 = Ok tt
  /\ task_effect env opts abs r (task env opts abs r).2.
Proof.
  unfold task_effect, task, try_catch, file_result, failure.
  set (rel := path_relative env (input opts) abs).
  unfold task_body, push_cached, push_result, push_skipped, set_manifest,
    set_cache, modify, gets, lift, mbind, M_bind, mret, M_ret.
  cbn beta iota zeta.
  destruct (skip _) eqn:Hskip.
  - apply shouldSkipFile_reason in Hskip. simpl. split; [done|].
    split; [by eapply world_step_same; [..|apply world_step_refl]|].
    split; [done|]. split; [eauto|]. right. eexists.
    split; [|split; [|done]]; [done|].
    simpl. by destruct Hskip as [-> | ->]; [left|right].
  - destruct (world_only_process_sizes abs rel
                (path_join env (output opts) (Str.strip_ext rel)) r)
      as [Hh Hw].
    destruct (process_sizes _ _ _ _ _ r) as [[es|e] r1]; simpl in Hh, Hw.
    + destruct Hh as (Hc & Hr & Hs & Hcf & Hm & Hn).
      destruct dry eqn:Hd; simpl.
      * split; [done|]. split; [by eapply world_step_same|].
        rewrite Hs, Hr, Hm, Hcf. split; [done|]. split; [eauto|]. by left.
      * destruct (stat env (world r1) abs) as [st|e]; simpl.
        -- split; [done|]. split; [by eapply world_step_same|].
           rewrite Hs, Hr, Hm, Hcf. split; [done|]. split; [eauto|]. by left.
        -- split; [done|]. split; [by eapply world_step_same|].
           rewrite Hs, Hr, Hm, Hcf. split; [done|]. split; [done|].
           right. split; [done|]. eauto.
    + destruct Hh as (Hc & Hr & Hs & Hcf & Hm & Hn). simpl.
      split; [done|]. split; [by eapply world_step_same|].
      rewrite Hs, Hr, Hm, Hcf. split; [done|]. split; [done|]. by left.
Qed.

Lemma task_cache_spec (abs : string) (r : Run) :
  cache_effect env opts abs r (task env opts abs r).2.
Proof.
  unfold cache_effect, fresh_record, task, try_catch, file_result.
  set (rel := path_relative env (input opts) abs).
  unfold task_body, push_cached, push_result, push_skipped, set_manifest,
    set_cache, modify, gets, lift, mbind, M_bind, mret, M_ret.
  cbn beta iota zeta.
  destruct (skip _).
  - simpl. left. split; [done|]. right. eexists. split; [|done]. done.
  - destruct (world_only_process_sizes abs rel
                (path_join env (output opts) (Str.strip_ext rel)) r)
      as [Hh _].
    destruct (process_sizes _ _ _ _ _ r) as [[es|e] r1]; simpl in Hh.
    + destruct Hh as (Hc & _).
      destruct dry eqn:Hd; simpl.
      * left. split; [done|]. by left.
      * destruct (stat env (world r1) abs) as [st|e]; simpl; [|done].
        right. eexists. split; [|by rewrite Hc]. done.
    + by destruct Hh as (Hc & _).
Qed.

Transparent process_sizes shouldSkipFile allOutputs stat reconstruct.

(** *** All the tasks of a run *)

Lemma for_each_tasks (files : list string) (r : Run) :
  for_each files (task env opts) r = (Ok tt, after_tasks env opts files r).
Proof.
  revert r. induction files as [|abs files IH]; intros r; [done|].
  simpl. unfold mbind, M_bind.
  destruct (task_spec abs r) as [Hok _].
  destruct (task env opts abs r) as [[[]|e] r1]; simpl in *; [|done].
  apply IH.
Qed.

Lemma tasks_world (files : list string) (r : Run) :
  world_step dry r (after_tasks env opts files r).
Proof.
  revert r. induction files as [|abs files IH]; intros r; simpl.
  - apply world_step_refl.
  - destruct (task_spec abs r) as [_ [Hw _]].
    eapply world_step_trans; [exact Hw|apply IH].
Qed.

Lemma tasks_skipped (files : list string) (r : Run) :
  skippedFiles (after_tasks env opts files r)
  = (skippedFiles r
       ++ failures env opts files (thrown env opts files r))%list.
Proof.
  revert r. induction files as [|abs files IH]; intros r; simpl.
  - by rewrite List.app_nil_r.
  - destruct (task_spec abs r) as [_ [_ He]]. rewrite IH.
    destruct (task_body _ _ _ _ r).1 as [u|e].
    + destruct He as (-> & _). done.
    + destruct He as (-> & _). by rewrite <-List.app_assoc.
Qed.

(** The entries that the tasks add to [files]: at most one for each file,
    at least one for each file whose task did not throw. *)
Lemma tasks_results (files : list string) (r : Run) :
  exists l,
    results (after_tasks env opts files r) = (results r ++ l)%list
    /\ (length l <= length files)%nat
    /\ (length files
        <= length l
           + length (failures env opts files (thrown env opts files r)))%nat
    /\ (dry = true ->
        (length l + length (failures env opts files (thrown env opts files r))
         = length files)%nat)
    /\ (forall x, In x l -> exists abs, In abs files
                                        /\ x = file_result env opts abs)
    /\ (forall j abs, files !! j = Some abs ->
                      thrown env opts files r !! j = Some None ->
                      In (file_result env opts abs) l).
Proof.
  revert r. induction files as [|abs files IH]; intros r; simpl.
  - exists []. rewrite List.app_nil_r. repeat split; done.
  - destruct (task_spec abs r) as [_ [_ He]].
    destruct (IH (task env opts abs r).2)
      as (l & Hl & Hlen1 & Hlen2 & Hdry & Hfrom & Hall).
    set (fl := failures env opts files
                 (thrown env opts files (task env opts abs r).2)) in *.
    assert (forall l0,
              results (task env opts abs r).2
              = (results r ++ l0)%list ->
              results (after_tasks env opts files (task env opts abs r).2)
              = (results r ++ (l0 ++ l))%list) as Hres.
    { intros l0 H0. by rewrite Hl, H0, <-List.app_assoc. }
    destruct (task_body _ _ _ _ r).1 as [u|e].
    + destruct He as (_ & (es & Hr & _) & _).
      exists (file_result env opts abs :: l).
      split; [by apply (Hres [_])|]. simpl.
      split; [lia|]. split; [lia|]. split; [intros Hd; specialize (Hdry Hd); lia|].
      split.
      * intros x [<-|Hx]; [eauto|].
        destruct (Hfrom x Hx) as (a & Ha & ->). eauto.
      * intros [|j] a Hj Ht; simpl in *.
        -- injection Hj as <-. by left.
        -- right. by eapply Hall.
    + destruct He as (_ & _ & [[Hr _]|(Hd & es & Hr & _)]).
      * exists l. split; [apply (Hres []); by rewrite List.app_nil_r|]. simpl.
        split; [lia|]. split; [lia|].
        split; [intros Hd; specialize (Hdry Hd); lia|].
        split.
        -- intros x Hx. destruct (Hfrom x Hx) as (a & Ha & ->). eauto.
        -- intros [|j] a Hj Ht; simpl in *; [done|]. by eapply Hall.
      * exists (file_result env opts abs :: l).
        split; [by apply (Hres [_])|]. simpl.
        split; [lia|]. split; [lia|]. split; [congruence|].
        split.
        -- intros x [<-|Hx]; [eauto|].
           destruct (Hfrom x Hx) as (a & Ha & ->). eauto.
        -- intros [|j] a Hj Ht; simpl in *; [done|]. right. by eapply Hall.
Qed.

Lemma tasks_cached (files : list string) (r : Run) :
  cached_in_files r -> cached_in_files (after_tasks env opts files r).
Proof.
  revert r. induction files as [|abs files IH]; intros r Hr; [done|].
  simpl. apply IH. destruct Hr as [Hlen Hin].
  destruct (task_spec abs r) as [_ [_ He]]. unfold cached_in_files.
  assert (forall l c, In c (cachedFiles r) ->
            skip_reason_text (reason c)
            /\ exists x, In x (results r ++ l)%list /\ file_in x = file c)
    as Hold.
  { intros l c Hc. destruct (Hin c Hc) as (Hreason & x & Hx & Hf).
    split; [done|]. exists x. split; [|done]. apply in_or_app. by left. }
  destruct (task_body _ _ _ _ r).1 as [u|e].
  - destruct He as (_ & (es & -> & _) & [->|(c & Hc & Hreason & ->)]).
    + rewrite List.length_app. simpl. split; [lia|]. apply Hold.
    + rewrite !List.length_app. simpl. split; [lia|].
      intros c' [Hc'|[<-|[]]]%in_app_or; [by apply Hold|].
      split; [done|]. eexists.
      split; [apply in_or_app; right; by left|]. by rewrite Hc.
  - destruct He as (_ & -> & [[-> _]|(_ & es & -> & _)]); [done|].
    rewrite List.length_app. simpl. split; [lia|]. apply Hold.
Qed.

Lemma task_keeps_current (abs : string) (r : Run) (k : string) :
  cached_current opts r k -> cached_current opts (task env opts abs r).2 k.
Proof.
  intros (ce & Hce & Hh). pose proof (task_cache_spec abs r) as He.
  unfold cache_effect in He. unfold cached_current.
  destruct (task_body _ _ _ _ r).1 as [u|e].
  - destruct He as [[-> _]|(ce' & (_ & Hh' & _) & ->)]; [eauto|].
    unfold js_set. destruct (String.eqb _ "__proto__"); [eauto|].
    destruct (decide (path_relative env (cwd env) abs = k)) as [<-|Hne].
    + rewrite lookup_insert_eq. eauto.
    + rewrite lookup_insert_ne by done. eauto.
  - rewrite He. eauto.
Qed.

Lemma tasks_keep_current (files : list string) (r : Run) (k : string) :
  cached_current opts r k ->
  cached_current opts (after_tasks env opts files r) k.
Proof.
  revert r. induction files as [|abs files IH]; intros r Hr; [done|].
  simpl. by apply IH, task_keeps_current.
Qed.

Lemma tasks_keep_cached (files : list string) (r : Run) (c : FileReason) :
  In c (cachedFiles r) -> In c (cachedFiles (after_tasks env opts files r)).
Proof.
  revert r. induction files as [|abs files IH]; intros r Hr; [done|].
  simpl. apply IH. destruct (task_spec abs r) as [_ [_ He]].
  destruct (task_body _ _ _ _ r).1 as [u|e].
  - destruct He as (_ & _ & [->|(c' & _ & _ & ->)]); [done|].
    apply in_or_app. by left.
  - destruct He as (_ & -> & _). done.
Qed.

(** An input whose task does not throw is listed in [cached], or, outside
    a dry run, has a record with the current fingerprint in the cache. *)
Lemma tasks_cache (files : list string) (r : Run) (j : nat) (abs : string) :
  files !! j = Some abs ->
  thrown env opts files r !! j = Some None ->
  dry = true
  \/ (exists c, In c (cachedFiles (after_tasks env opts files r))
                /\ file c = path_relative env (input opts) abs)
  \/ path_relative env (cwd env) abs = "__proto__"
  \/ cached_current opts (after_tasks env opts files r)
       (path_relative env (cwd env) abs).
Proof.
  revert r j. induction files as [|a files IH]; intros r [|j] Hj Ht;
    simpl in *; try done.
  - injection Hj as ->. pose proof (task_cache_spec abs r) as He.
    unfold cache_effect in He.
    destruct (task_body _ _ _ _ r).1 as [u|e]; [|done].
    destruct He as [[_ [Hd|(c & Hc & Hcf)]]|(ce & (_ & Hh & _) & Hce)].
    + by left.
    + right. left. exists c. split; [|done].
      apply tasks_keep_cached. rewrite Hcf. apply in_or_app. right. by left.
    + destruct (String.eqb_spec (path_relative env (cwd env) abs)
                  "__proto__") as [Hp|Hp]; [by right; right; left|].
      right. right. right. apply tasks_keep_current.
      exists ce. split; [|done]. rewrite Hce. unfold js_set.
      apply String.eqb_neq in Hp. rewrite Hp. by rewrite lookup_insert_eq.
  - by apply (IH _ j).
Qed.

Lemma js_set_lookup {V : Type} (key k : string) (v : V)
    (m : gmap string V) :
  is_Some (js_set key v m !! k)
  <-> (key <> "__proto__" /\ k = key) \/ is_Some (m !! k).
Proof.
  unfold js_set. destruct (String.eqb_spec key "__proto__") as [->|Hne].
  - split; [by right|]. intros [[? _]|?]; done.
  - destruct (decide (k = key)) as [->|Hk].
    + rewrite lookup_insert_eq. split; [by left|eauto].
    + rewrite lookup_insert_ne by done. split; [by right|].
      intros [[_ ?]|?]; done.
Qed.

Lemma tasks_manifest (files : list string) (r : Run) :
  manifest_keys r -> manifest_keys (after_tasks env opts files r).
Proof.
  revert r. induction files as [|abs files IH]; intros r Hr; [done|].
  simpl. apply IH.
  destruct (task_spec abs r) as [_ [_ He]].
  assert ((results (task env opts abs r).2 = results r
           /\ manifest (task env opts abs r).2 = manifest r)
          \/ exists es,
               results (task env opts abs r).2
               = (results r ++ [file_result env opts abs])%list
               /\ manifest (task env opts abs r).2
                  = js_set (path_relative env (input opts) abs) es
                      (manifest r)) as [[Hres Hman]|(es & Hres & Hman)].
  { destruct (task_body _ _ _ _ r).1 as [u|e].
    - destruct He as (_ & H & _). by right.
    - destruct He as (_ & _ & [H|[_ H]]); [by left|by right]. }
  - intros k. rewrite Hres, Hman. apply Hr.
  - intros k. rewrite Hres, Hman, js_set_lookup, (Hr k). split.
    + intros [[Hne ->]|[Hne (x & Hx & Hf)]].
      * split; [done|]. exists (file_result env opts abs).
        split; [apply in_or_app; right; by left|done].
      * split; [done|]. exists x. split; [apply in_or_app; by left|done].
    + intros [Hne (x & [Hx|[<-|[]]]%in_app_or & Hf)].
      * right. eauto.
      * left. simpl in Hf. by subst k.
Qed.

(** *** The end of a run *)

Lemma writeFile_ok (ev : Event) (p data : string) (r r' : Run) :
  writeFile env ev p data r = (Ok tt, r') ->
  same_heap r r' /\ events r' = (events r ++ [ev])%list.
Proof.
  unfold writeFile, emit, modify, gets, throw, set_world, mbind, M_bind.
  simpl. destruct (fs_fault env (WriteFile p)); simpl; [done|].
  destruct (fs (world r) !! p) as [[[] ? ?]|]; simpl; [done|..];
    intros [= <-]; (split; [heap_ok|done]).
Qed.

Lemma finish_spec (files : list string) (r r' : Run) (res : ImgxResult) :
  finish env opts files r = (Ok res, r') ->
  res = {| r_processed := Z.of_nat (length (results r));
           r_files := results r;
           r_skipped := skippedFiles r;
           r_cached := cachedFiles r;
           r_totalFound := Z.of_nat (length files);
           r_manifest := if (0 <? size (manifest r))%nat
                         then Some (manifest r) else None |}
  /\ events r'
     = (events r
          ++ (if dry then []
              else EvSaveCache (cachePath env opts)
                     :: (if (0 <? size (manifest r))%nat
                         then [EvWriteManifest (manifestPath env opts)]
                         else [])))%list.
Proof.
  unfold finish, saveCache. unfold mbind, M_bind, gets, mret, M_ret.
  cbn beta iota zeta.
  destruct dry.
  { destruct (0 <? size (manifest r))%nat; simpl; intros [= <- <-];
      by rewrite List.app_nil_r. }
  destruct (writeFile env _ _ _ r) as [[[]|e] r1] eqn:H1; [|done].
  apply writeFile_ok in H1 as [(_ & Hr & Hs & Hc & Hm & _) He1].
  rewrite Hm. destruct (0 <? size (manifest r))%nat; simpl.
  - destruct (writeFile env _ _ _ r1) as [[[]|e] r2] eqn:H2; [|done].
    apply writeFile_ok in H2 as [(_ & Hr2 & Hs2 & Hc2 & Hm2 & _) He2].
    intros [= <- <-]. rewrite Hr2, Hs2, Hc2, Hr, Hs, Hc, He2, He1.
    split; [done|]. by rewrite <-List.app_assoc.
  - intros [= <- <-]. rewrite Hr, Hs, Hc, He1. done.
Qed.


Lemma imgx_run (w : World) :
  imgx env opts w
  = match configure env opts with
    | Throw e => (Throw e, w, [])
    | Ok _ =>
        match globby env (pattern_ opts) (input opts) (fs w) with
        | [] =>
            (Ok {| r_processed := 0; r_files := []; r_skipped := [];
                   r_cached := []; r_totalFound := 0; r_manifest := None |},
             w, [])
        | files =>
            match pLimit env (concurrency_ env opts) with
            | Throw e => (Throw e, w, [])
            | Ok _ =>
                let '(res, r) :=
                  finish env opts files
                    (after_tasks env opts files (start env opts w)) in
                (res, world r, events r)
            end
        end
    end.
Proof.
  unfold imgx. destruct (configure env opts) as [[]|e]; [|done].
  destruct (globby _ _ _ _) as [|abs files]; [done|].
  destruct (pLimit env _) as [[]|e]; [|done].
  unfold mbind, M_bind at 1. by rewrite for_each_tasks.
Qed.

(** A run that does not get as far as its tasks does nothing; a run that
    does is its tasks followed by its end. *)
Lemma imgx_cases (w : World) :
  ((imgx env opts w).1.2 = w /\ (imgx env opts w).2 = []
   /\ ((exists e, (imgx env opts w).1.1 = Throw e)
       \/ (enumerated env opts w = []
           /\ (imgx env opts w).1.1
              = Ok {| r_processed := 0; r_files := []; r_skipped := [];
                      r_cached := []; r_totalFound := 0;
                      r_manifest := None |})))
  \/ (enumerated env opts w <> []
      /\ configure env opts = Ok tt
      /\ pLimit env (concurrency_ env opts) = Ok tt
      /\ imgx env opts w
         = ((finish env opts (enumerated env opts w)
               (after_tasks env opts (enumerated env opts w)
                  (start env opts w))).1,
            world (finish env opts (enumerated env opts w)
                     (after_tasks env opts (enumerated env opts w)
                        (start env opts w))).2,
            events (finish env opts (enumerated env opts w)
                      (after_tasks env opts (enumerated env opts w)
                         (start env opts w))).2)).
Proof.
  rewrite imgx_run. unfold enumerated.
  destruct (configure env opts) as [[]|e]; [|left; eauto].
  destruct (globby _ _ _ _) as [|abs files]; [left; eauto 6|].
  destruct (pLimit env _) as [[]|e]; [|left; eauto].
  right. split; [done|]. split; [done|]. split; [done|]. cbv zeta.
  by destruct (finish env opts (abs :: files) _) as [res r'].
Qed.

Lemma start_manifest_keys (w : World) : manifest_keys (start env opts w).
Proof.
  intros k. simpl. rewrite lookup_empty. split.
  - by intros [? ?].
  - by intros [_ (x & [] & _)].
Qed.

Lemma start_cached_in_files (w : World) : cached_in_files (start env opts w).
Proof. split; [done|]. by intros c []. Qed.

Lemma manifest_nonempty (r : Run) :
  manifest_keys r ->
  (0 <? size (manifest r))%nat = true
  <-> exists x, In x (results r) /\ file_in x <> "__proto__".
Proof.
  intros Hk. rewrite Nat.ltb_lt. split.
  - intros Hsize.
    destruct (map_choose (manifest r)) as (k & es & Hkes).
    { intros Hempty. rewrite Hempty, map_size_empty in Hsize. lia. }
    destruct (proj1 (Hk k)) as (Hne & x & Hx & <-); eauto.
  - intros (x & Hx & Hne).
    destruct (proj2 (Hk (file_in x))) as [es Hes]; [eauto|].
    destruct (decide (size (manifest r) = 0%nat)) as [H0|]; [|lia].
    apply map_size_empty_iff in H0. rewrite H0, lookup_empty in Hes. done.
Qed.

(** *** The result of a run *)

(** What a run that returns has made of the shared variables. *)
Lemma imgx_result (w w' : World) (res : ImgxResult) (evs : list Event) :
  imgx env opts w = (Ok res, w', evs) ->
  enumerated env opts w = []
  /\ res = {| r_processed := 0; r_files := []; r_skipped := [];
              r_cached := []; r_totalFound := 0; r_manifest := None |}
  /\ w' = w /\ evs = []
  \/ exists r r',
       r = after_tasks env opts (enumerated env opts w) (start env opts w)
       /\ finish env opts (enumerated env opts w) r = (Ok res, r')
       /\ w' = world r' /\ evs = events r'.
Proof.
  rewrite imgx_run. unfold enumerated.
  destruct (configure env opts) as [[]|e]; [|done].
  destruct (globby _ _ _ _) as [|abs files] eqn:Hg.
  - intros [= <- <- <-]. by left.
  - destruct (pLimit env _) as [[]|e]; [|done].
    destruct (finish _ _ _ _) as [res0 r'] eqn:Hf. intros [= -> <- <-].
    right. by exists (after_tasks env opts (abs :: files) (start env opts w)), r'.
Qed.

Lemma not_allowed_manifest (d : bool) (l : list Event) (p : string) :
  Forall (allowed d) l -> ~ In (EvWriteManifest p) l.
Proof.
  intros Hall Hin. rewrite List.Forall_forall in Hall.
  exact (Hall _ Hin).
Qed.

(** The guard of the manifest counts keys, not entries: at the end of a
    run that is not a dry run and that returns, the manifest file is
    written exactly when the returned manifest is present, which is
    exactly when some input is recorded in [files] (processed or skipped
    as cached, with or without entries) under a name other than
    [__proto__], the one name that the manifest object cannot hold. *)
Theorem manifest_written_iff_recorded (w w' : World) (res : ImgxResult)
    (evs : list Event) :
  dry = false ->
  imgx env opts w = (Ok res, w', evs) ->
  (In (EvWriteManifest (manifestPath env opts)) evs
   <-> is_Some (r_manifest res))
  /\ (is_Some (r_manifest res)
      <-> exists x, In x (r_files res) /\ file_in x <> "__proto__").
Proof.
  intros Hd H.
  apply imgx_result in H
    as [(_ & -> & _ & ->)|(r & r' & Hr & Hf & _ & ->)]; simpl.
  { split; (split; [by intros []|]).
    - by intros [? ?].
    - by intros (x & [] & _). }
  destruct (finish_spec _ _ _ _ Hf) as [-> Hev]. simpl.
  pose proof (tasks_manifest (enumerated env opts w) _
                (start_manifest_keys w)) as Hkeys.
  rewrite <-Hr in Hkeys. apply manifest_nonempty in Hkeys.
  destruct (tasks_world (enumerated env opts w) (start env opts w))
    as (_ & (l & Hl & Hall) & _).
  rewrite <-Hr in Hl. simpl in Hl.
  rewrite Hev, Hl, Hd. split; [|].
  - destruct (0 <? size (manifest r))%nat; split.
    + eauto.
    + intros _. apply in_or_app. right. right. by left.
    + intros [Hin|[Hin|[]]]%in_app_or; [|done].
      by apply (not_allowed_manifest _ _ _ Hall) in Hin.
    + by intros [? ?].
  - rewrite <-Hkeys. destruct (0 <? size (manifest r))%nat; split; eauto.
    + by intros [? ?].
    + done.
Qed.

(** The lists of a result, in terms of what the tasks threw. *)
Lemma run_accounting (w w' : World) (res : ImgxResult)
    (evs : list Event) :
  imgx env opts w = (Ok res, w', evs) ->
  r_processed res = Z.of_nat (length (r_files res))
  /\ (length (r_cached res) <= length (r_files res))%nat
  /\ (forall c, In c (r_cached res) ->
        skip_reason_text (reason c)
        /\ exists x, In x (r_files res) /\ file_in x = file c)
  /\ r_skipped res
     = failures env opts (enumerated env opts w)
         (thrown env opts (enumerated env opts w) (start env opts w))
  /\ (forall j abs,
        enumerated env opts w !! j = Some abs ->
        thrown env opts (enumerated env opts w) (start env opts w) !! j
        = Some None ->
        In (file_result env opts abs) (r_files res)).
Proof.
  intros H.
  apply imgx_result in H
    as [(Hnil & -> & _ & _)|(r & r' & Hr & Hf & _ & _)]; simpl.
  { rewrite Hnil. simpl. repeat split; try done; try lia;
      try (by intros c []). }
  destruct (finish_spec _ _ _ _ Hf) as [-> _]. simpl.
  destruct (tasks_cached (enumerated env opts w) _
              (start_cached_in_files w)) as [Hlen Hc].
  rewrite <-Hr in Hlen, Hc.
  pose proof (tasks_skipped (enumerated env opts w) (start env opts w))
    as Hs.
  rewrite <-Hr in Hs. simpl in Hs.
  destruct (tasks_results (enumerated env opts w) (start env opts w))
    as (l & Hl & _ & _ & _ & _ & Hall).
  rewrite <-Hr in Hl. simpl in Hl.
  repeat split; try done.
  - by apply Hc.
  - by apply Hc.
  - intros j abs Hj Ht. rewrite Hl. by eapply Hall.
Qed.

Lemma failures_length (files : list string) (r : Run) :
  (length (failures env opts files (thrown env opts files r))
   <= length files)%nat.
Proof.
  revert r. induction files as [|abs files IH]; intros r; simpl; [lia|].
  destruct (task_body _ _ _ _ r).1; simpl;
    specialize (IH (task env opts abs r).2); lia.
Qed.

(** [files] and [skipped] together account for every enumerated file at
    least once and at most twice, exactly once in a dry run; and [cached]
    is never longer than [files]. *)
Theorem result_counts (w w' : World) (res : ImgxResult) (evs : list Event) :
  imgx env opts w = (Ok res, w', evs) ->
  r_totalFound res = Z.of_nat (length (enumerated env opts w))
  /\ (length (r_files res) <= length (enumerated env opts w))%nat
  /\ (length (r_skipped res) <= length (enumerated env opts w))%nat
  /\ (length (enumerated env opts w)
      <= length (r_files res) + length (r_skipped res))%nat
  /\ (length (r_cached res) <= length (r_files res))%nat
  /\ (dry = true ->
      (length (r_files res) + length (r_skipped res)
       = length (enumerated env opts w))%nat).
Proof.
  intros H. pose proof (run_accounting _ _ _ _ H) as (_ & Hc & _).
  apply imgx_result in H
    as [(Hnil & -> & _ & _)|(r & r' & Hr & Hf & _ & _)]; simpl.
  { rewrite Hnil. simpl. repeat split; lia. }
  destruct (finish_spec _ _ _ _ Hf) as [-> _]. simpl in Hc. simpl.
  pose proof (tasks_skipped (enumerated env opts w) (start env opts w))
    as Hs.
  rewrite <-Hr in Hs. simpl in Hs.
  destruct (tasks_results (enumerated env opts w) (start env opts w))
    as (l & Hl & Hlen1 & Hlen2 & Hdry & _ & _).
  rewrite <-Hr in Hl. simpl in Hl. rewrite Hl, Hs. rewrite Hl in Hc.
  pose proof (failures_length (enumerated env opts w) (start env opts w)).
  repeat split; try done; try lia.
Qed.

End Tasks.

(** ** Failures, dry runs and the reconstruction of entries *)

Section Isolation.

Context (env : Env) (opts : ImgxOptions).





(** When an output of the cached list cannot be read, the reconstruction
    keeps one entry for each output before it and none for it and for the
    outputs after it. *)
Theorem reconstruct_stops (w : World) (rel : string)
    (readable : list string) (unreadable : string) (rest : list string)
    (entries : list ImageManifestEntry) :
  Forall (fun f => exists e, reconstruct_entry env opts w rel f = Ok e)
         readable ->
  (exists err, reconstruct_entry env opts w rel unreadable = Throw err) ->
  reconstruct env opts w rel (readable ++ unreadable :: rest) entries
  = reconstruct env opts w rel readable entries
  /\ length (reconstruct env opts w rel readable entries)
     = (length entries + length readable)%nat.
Proof.
  intros Hread [err Herr]. revert entries.
  induction Hread as [|f readable [e He] _ IH]; intros entries; simpl.
  - rewrite Herr. split; [done|lia].
  - rewrite He. destruct (IH (entries ++ [e])%list) as [-> ->].
    split; [done|]. rewrite List.length_app. simpl. lia.
Qed.

End Isolation.

(** ** The sample runs *)

(** C4, where the code departs from it: a dry run over one input in a
    sub-directory makes the output directory, which did not exist. *)
Lemma dry_run_makes_directory :
  dryRun_ (Sample.with_dryRun Sample.opts) = true
  /\ fs Sample.w_fresh !! "/proj/out/sub" = None
  /\ match
       imgx Sample.env_fresh (Sample.with_dryRun Sample.opts) Sample.w_fresh
     with
     | (Ok _, w', evs) =>
         fs w' !! "/proj/out/sub"
         = Some {| is_dir := true; node_mtime := 5000; node_data := "" |}
         /\ evs = [EvMkdir "/proj/out/sub"]
     | _ => False
     end.
Proof. vm_compute. repeat split. Qed.

(** C5, where the code departs from it: an input skipped as cached whose
    cached list names two existing outputs, the second of which cannot be
    read; the manifest records the input with the entry of the first
    output alone. *)
Lemma skip_records_partial_entries :
  (exists e,
     reconstruct_entry Sample.env_two Sample.opts2 Sample.w_unreadable
       "a.jpg" "/proj/out/a-1000w.avif" = Throw e)
  /\ match imgx Sample.env_two Sample.opts2 Sample.w_unreadable with
     | (Ok r, _, _) =>
         r_cached r = [{| file := "a.jpg"; reason := "cached (up to date)" |}]
         /\ (r_manifest r ≫= (fun m => m !! "a.jpg"))
            = Some [ {| src := "a-1000w.webp"; entry_width := 1000;
                        entry_height := 480; format := "webp"; bytes := 10;
                        originalFile := "a.jpg" |} ]
     | _ => False
     end.
Proof. split; [eexists|]; vm_compute; repeat split. Qed.

(** C6, where the code departs from it: one input, skipped because its
    output is newer, with no record in the cache; no input produces a
    manifest entry, and the manifest file is written all the same, with
    an empty list for the input. *)
Lemma manifest_written_without_entries :
  dryRun_ Sample.opts = false
  /\ match imgx Sample.env_done Sample.opts Sample.w_done with
     | (Ok r, _, evs) =>
         In (EvWriteManifest "/proj/out/imgx-manifest.json") evs
         /\ (map_to_list <$> r_manifest r) = Some [("a.jpg", [])]
     | _ => False
     end.
Proof. vm_compute. split; [reflexivity|]. split; [|reflexivity]. auto. Qed.


(** C10, where the code departs from it: no format is asked for and the
    one enumerated input is gone when its task updates the cache; the
    input is pushed to [files] and then, by the [catch], to [skipped]. *)
Lemma input_in_files_and_skipped :
  match
    imgx Sample.env_gone (Sample.with_formats [] Sample.opts) Sample.w_done
  with
  | (Ok r, _, _) =>
      r_totalFound r = 1
      /\ r_files r = [{| file_in := "gone.jpg"; file_out := [] |}]
      /\ r_skipped r
         = [{| file := "gone.jpg";
               reason := "ENOENT: no such file or directory, "
                           +:+ "stat '/proj/in/gone.jpg'" |}]
  | _ => False
  end.
Proof. vm_compute. repeat split. Qed.

(** The guard of the manifest, at the sample run whose input is
    skipped. *)
Lemma manifest_written_iff_recorded_witness :
  exists res w' evs,
    imgx Sample.env_done Sample.opts Sample.w_done = (Ok res, w', evs)
    /\ (In (EvWriteManifest (manifestPath Sample.env_done Sample.opts)) evs
        <-> is_Some (r_manifest res))
    /\ (is_Some (r_manifest res)
        <-> exists x, In x (r_files res) /\ file_in x <> "__proto__").
Proof.
  eexists _, _, _. split.
  - vm_compute. reflexivity.
  - eapply (manifest_written_iff_recorded Sample.env_done Sample.opts
              Sample.w_done).
    + reflexivity.
    + vm_compute. reflexivity.
Defined.

(** The counts of a run, at the sample run with a corrupt input. *)
Lemma result_counts_witness :
  exists res w' evs,
    imgx (Sample.env_corrupt Sample.no_error) Sample.opts Sample.w_corrupt
    = (Ok res, w', evs)
    /\ (length (enumerated (Sample.env_corrupt Sample.no_error) Sample.opts
                  Sample.w_corrupt)
        <= length (r_files res) + length (r_skipped res))%nat
    /\ (length (r_cached res) <= length (r_files res))%nat.
Proof.
  eexists _, _, _. split.
  - vm_compute. reflexivity.
  - destruct (result_counts (Sample.env_corrupt Sample.no_error) Sample.opts
                Sample.w_corrupt _ _ _ ltac:(vm_compute; reflexivity))
      as (_ & _ & _ & H1 & H2 & _).
    split; [exact H1|exact H2].
Defined.


(** The reconstruction, at the sample world whose second output cannot be
    read. *)
Lemma reconstruct_stops_witness :
  reconstruct Sample.env_two Sample.opts2 Sample.w_unreadable "a.jpg"
    (["/proj/out/a-1000w.webp"] ++ "/proj/out/a-1000w.avif" :: []) []
  = reconstruct Sample.env_two Sample.opts2 Sample.w_unreadable "a.jpg"
      ["/proj/out/a-1000w.webp"] []
  /\ length (reconstruct Sample.env_two Sample.opts2 Sample.w_unreadable
               "a.jpg" ["/proj/out/a-1000w.webp"] [])
     = (length (@nil ImageManifestEntry) + length ["/proj/out/a-1000w.webp"])%nat.
Proof.
  apply (reconstruct_stops Sample.env_two Sample.opts2 Sample.w_unreadable
           "a.jpg" ["/proj/out/a-1000w.webp"] "/proj/out/a-1000w.avif" [] []).
  - constructor; [|constructor]. eexists. vm_compute. reflexivity.
  - eexists. vm_compute. reflexivity.
Defined.

(** ** The HTML helpers *)

Section Srcset.

Implicit Types (e x y : ImageManifestEntry) (l : list ImageManifestEntry).

Lemma insert_by_width_perm x l : insert_by_width x l ≡ₚ x :: l.
Proof.
  induction l as [|y l IH]; simpl; [done|].
  destruct (entry_width x <=? entry_width y)%Z; [done|].
  rewrite IH. apply perm_swap.
Qed.

Lemma sort_by_width_perm l : sort_by_width l ≡ₚ l.
Proof.
  induction l as [|x l IH]; simpl; [done|].
  by rewrite insert_by_width_perm, IH.
Qed.

Lemma insert_by_width_sorted x l :
  StronglySorted by_width l -> StronglySorted by_width (insert_by_width x l).
Proof.
  induction l as [|y l IH]; intros Hl; simpl.
  - by repeat constructor.
  - inversion Hl as [|? ? Hl' Hy]; subst.
    destruct (Z.leb_spec (entry_width x) (entry_width y)) as [Hle|Hgt].
    + constructor; [done|]. constructor; [done|].
      eapply Forall_impl; [exact Hy|]. unfold by_width. intros z. lia.
    + constructor; [by apply IH|].
      rewrite insert_by_width_perm. constructor; [|done].
      unfold by_width. lia.
Qed.

Lemma sort_by_width_sorted l : StronglySorted by_width (sort_by_width l).
Proof.
  induction l as [|x l IH]; simpl; [constructor|].
  by apply insert_by_width_sorted.
Qed.

Lemma insert_by_width_stable (w : Z) x l :
  List.filter (of_width w) (insert_by_width x l)
  = List.filter (of_width w) (x :: l).
Proof.
  induction l as [|y l IH]; [done|]. simpl.
  destruct (Z.leb_spec (entry_width x) (entry_width y)) as [Hle|Hgt]; [done|].
  simpl. rewrite IH. simpl. unfold of_width.
  destruct (Z.eqb_spec (entry_width x) w), (Z.eqb_spec (entry_width y) w);
    try done. lia.
Qed.

Lemma sort_by_width_stable (w : Z) l :
  List.filter (of_width w) (sort_by_width l) = List.filter (of_width w) l.
Proof.
  induction l as [|x l IH]; [done|]. simpl.
  rewrite insert_by_width_stable. simpl. by rewrite IH.
Qed.

Lemma sort_by_width_fixed l :
  StronglySorted by_width l -> sort_by_width l = l.
Proof.
  induction l as [|x l IH]; intros Hl; [done|].
  inversion Hl as [|? ? Hl' Hx]; subst. simpl. rewrite (IH Hl').
  destruct l as [|y l]; [done|]. simpl.
  inversion Hx as [|? ? Hxy _]; subst. unfold by_width in Hxy.
  by destruct (Z.leb_spec (entry_width x) (entry_width y)); [|lia].
Qed.

Lemma generateSrcset_text entries fmt :
  (generateSrcset entries fmt).1
  = Str.join ", " (srcset_item <$> sort_by_width (selected entries fmt)).
Proof. unfold generateSrcset, selected. by destruct (truthy fmt). Qed.

(** generateSrcset lists the entries of the asked format (all entries
    without one), each once, by ascending width, entries of equal width in
    the order of the array. *)
Theorem generateSrcset_sorted entries fmt :
  exists l,
    (generateSrcset entries fmt).1 = Str.join ", " (srcset_item <$> l)
    /\ l ≡ₚ selected entries fmt
    /\ StronglySorted by_width l
    /\ forall w, List.filter (of_width w) l
                 = List.filter (of_width w) (selected entries fmt).
Proof.
  exists (sort_by_width (selected entries fmt)).
  split; [apply generateSrcset_text|].
  split; [apply sort_by_width_perm|].
  split; [apply sort_by_width_sorted|].
  intros w. apply sort_by_width_stable.
Qed.

(** Called with a format, generateSrcset leaves the array of the caller as
    it was; called without one, it leaves it sorted by ascending width,
    and a second call on it returns the same text and changes nothing. *)
Theorem generateSrcset_in_place entries fmt :
  if truthy fmt then (generateSrcset entries fmt).2 = entries
  else (generateSrcset entries fmt).2 ≡ₚ entries
       /\ StronglySorted by_width (generateSrcset entries fmt).2
       /\ generateSrcset (generateSrcset entries fmt).2 fmt
          = generateSrcset entries fmt.
Proof.
  unfold generateSrcset. destruct (truthy fmt); simpl; [done|].
  split; [apply sort_by_width_perm|].
  split; [apply sort_by_width_sorted|].
  by rewrite (sort_by_width_fixed _ (sort_by_width_sorted entries)).
Qed.

Lemma filter_perm (f : ImageManifestEntry -> bool) l1 l2 :
  l1 ≡ₚ l2 -> List.filter f l1 ≡ₚ List.filter f l2.
Proof.
  induction 1 as [|x l1 l2 _ IH|x y l|l1 l2 l3 _ IH1 _ IH2]; simpl.
  - done.
  - destruct (f x); [by constructor|done].
  - destruct (f x), (f y); try done. apply perm_swap.
  - by etrans.
Qed.

Lemma selected_perm entries1 entries2 fmt :
  entries1 ≡ₚ entries2 -> selected entries1 fmt ≡ₚ selected entries2 fmt.
Proof.
  unfold selected. destruct (truthy fmt); [apply filter_perm|done].
Qed.

(** When the formatted entries have pairwise different widths, the text
    does not depend on the order of the array. *)
Theorem generateSrcset_order_independent entries1 entries2 fmt :
  entries1 ≡ₚ entries2 ->
  NoDup (entry_width <$> selected entries1 fmt) ->
  (generateSrcset entries1 fmt).1 = (generateSrcset entries2 fmt).1.
Proof.
  intros Hperm Hnd. rewrite !generateSrcset_text. do 2 f_equal.
  pose proof (selected_perm _ _ fmt Hperm) as Hsel.
  apply (StronglySorted_unique_strong by_width);
    [|apply sort_by_width_sorted..|by rewrite !sort_by_width_perm].
  intros x1 x2 Hx1 Hx2 H12 H21. unfold by_width in *.
  rewrite sort_by_width_perm in Hx1.
  rewrite sort_by_width_perm, <-Hsel in Hx2.
  apply list_elem_of_lookup in Hx1 as [i Hi].
  apply list_elem_of_lookup in Hx2 as [j Hj].
  assert (i = j) as ->.
  { eapply NoDup_lookup; [exact Hnd|..].
    - by rewrite list_lookup_fmap, Hi.
    - rewrite list_lookup_fmap, Hj. simpl. f_equal. lia. }
  congruence.
Qed.


Lemma fold_largest (l : list ImageManifestEntry) x :
  let r := fold_left
             (fun prev current =>
                if (entry_width current <? entry_width prev)%Z
                then prev else current) l x in
  (r = x \/ In r l) /\ entry_width x <= entry_width r
  /\ forall e, In e l -> entry_width e <= entry_width r.
Proof.
  revert x. induction l as [|y l IH]; intros x; simpl.
  - split; [by left|]. split; [lia|]. by intros e [].
  - set (m := if (entry_width y <? entry_width x)%Z then x else y).
    destruct (IH m) as (Hin & Hm & Hall).
    assert (entry_width x <= entry_width m /\ entry_width y <= entry_width m
            /\ (m = x \/ m = y)) as (Hx & Hy & Hxy).
    { unfold m. destruct (Z.ltb_spec (entry_width y) (entry_width x));
        repeat split; try lia; auto. }
    split; [|split; [lia|]].
    + destruct Hin as [->|Hin]; [|by auto]. destruct Hxy as [->| ->]; auto.
    + intros e [<-|He]; [lia|by apply Hall].
Qed.

Lemma largest_spec (l : list ImageManifestEntry) e :
  largest l = Some e ->
  In e l /\ forall e', In e' l -> entry_width e' <= entry_width e.
Proof.
  destruct l as [|x l]; [done|]. intros [= <-].
  destruct (fold_largest l x) as (Hin & Hx & Hall). split.
  - destruct Hin as [->|Hin]; [by left|by right].
  - intros e' [<-|He']; [done|by apply Hall].
Qed.

Lemma largest_none (l : list ImageManifestEntry) :
  largest l = None -> l = [].
Proof. by destruct l. Qed.

Lemma filter_nil_existsb (f : ImageManifestEntry -> bool) l :
  List.filter f l = [] -> existsb f l = false.
Proof.
  induction l as [|x l IH]; [done|]. simpl. by destruct (f x).
Qed.

Lemma filter_cons_existsb (f : ImageManifestEntry -> bool) l x l' :
  List.filter f l = x :: l' -> existsb f l = true.
Proof.
  induction l as [|y l IH]; [done|]. simpl. destruct (f y); [done|]. apply IH.
Qed.

(** The [<img>] of a picture of a non-empty array shows an entry of
    greatest width among the JPEG entries, or among all entries when none
    is a JPEG, and its [srcset] lists those entries. *)
Theorem generatePicture_img entries alt :
  entries <> [] ->
  exists e before,
    (generatePicture entries alt).1
    = before
        +:+ img_tag (src e) (generateSrcset (img_candidates entries) None).1
              (default "" alt)
        +:+ "</picture>"
    /\ In e (img_candidates entries)
    /\ forall e', In e' (img_candidates entries) ->
                  entry_width e' <= entry_width e.
Proof.
  intros Hne. unfold generatePicture, img_candidates. cbv zeta.
  destruct (largest (List.filter (has_format "jpeg") entries)) as [e|] eqn:Hj.
  - assert (existsb (has_format "jpeg") entries = true) as ->.
    { destruct (List.filter (has_format "jpeg") entries) eqn:Hf; [done|].
      by eapply filter_cons_existsb. }
    apply largest_spec in Hj as [Hin Hmax]. cbn [fst]. eauto.
  - apply largest_none in Hj. rewrite (filter_nil_existsb _ _ Hj).
    destruct (largest entries) as [e|] eqn:Hl.
    + apply largest_spec in Hl as [Hin Hmax]. cbn [fst]. eauto.
    + by apply largest_none in Hl.
Qed.

Lemma generatePicture_array entries alt :
  (generatePicture entries alt).2
  = if existsb (has_format "jpeg") entries then entries
    else sort_by_width entries.
Proof.
  unfold generatePicture. cbv zeta.
  destruct (largest (List.filter (has_format "jpeg") entries)) as [e|] eqn:Hj.
  - destruct (List.filter (has_format "jpeg") entries) eqn:Hf; [done|].
    by rewrite (filter_cons_existsb _ _ _ _ Hf).
  - apply largest_none in Hj. rewrite (filter_nil_existsb _ _ Hj).
    destruct (largest entries) as [e|] eqn:Hl; [done|].
    by apply largest_none in Hl as ->.
Qed.

(** generatePicture leaves the array of the caller as it was when it holds
    a JPEG entry; when it holds none, the array is left reordered: sorted
    by ascending width, entries of equal width in their former order. *)
Theorem generatePicture_in_place entries alt :
  if existsb (has_format "jpeg") entries
  then (generatePicture entries alt).2 = entries
  else (generatePicture entries alt).2 ≡ₚ entries
       /\ StronglySorted by_width (generatePicture entries alt).2
       /\ forall w, List.filter (of_width w) (generatePicture entries alt).2
                    = List.filter (of_width w) entries.
Proof.
  rewrite generatePicture_array.
  destruct (existsb (has_format "jpeg") entries); [done|].
  split; [apply sort_by_width_perm|].
  split; [apply sort_by_width_sorted|].
  intros w. apply sort_by_width_stable.
Qed.

End Srcset.

(** The WebP list of the gallery, from the array and from its reverse. *)
Lemma generateSrcset_order_independent_witness :
  (generateSrcset Gallery.entries (Some "webp")).1
  = (generateSrcset (rev Gallery.entries) (Some "webp")).1.
Proof.
  apply (generateSrcset_order_independent Gallery.entries
           (rev Gallery.entries) (Some "webp")).
  - apply Permutation_rev.
  - vm_compute. repeat constructor; rewrite ?elem_of_cons, elem_of_nil;
      intuition discriminate.
Defined.

(** The picture of the gallery, which holds no JPEG entry. *)
Lemma generatePicture_img_witness :
  exists e before,
    (generatePicture Gallery.entries None).1
    = before
        +:+ img_tag (src e)
              (generateSrcset (img_candidates Gallery.entries) None).1
              (default "" None)
        +:+ "</picture>"
    /\ In e (img_candidates Gallery.entries)
    /\ forall e', In e' (img_candidates Gallery.entries) ->
                  entry_width e' <= entry_width e.
Proof.
  apply (generatePicture_img Gallery.entries None). discriminate.
Defined.

(** ** Outputs, second runs and traces *)

Section Outputs.

Context (env : Env) (opts : ImgxOptions).

Lemma writes_within_refl (W : list string) (w : World) : writes_within W w w.
Proof. split; [done|]. intros p n Hp. by left. Qed.

Lemma written_kept (W : list string) (w w' : World) (p : string) :
  writes_within W w w' -> written w p -> written w' p.
Proof.
  intros [Hnow Hfs] (n & Hn & Hdir & Ht).
  destruct (Hfs p n Hn) as [Hsame|[_ Hw]]; [|done].
  exists n. by rewrite Hnow.
Qed.

Lemma writes_within_trans (W1 W2 W : list string) (w1 w2 w3 : World) :
  (forall p, In p W1 -> In p W) -> (forall p, In p W2 -> In p W) ->
  writes_within W1 w1 w2 -> writes_within W2 w2 w3 ->
  writes_within W w1 w3.
Proof.
  intros H1 H2 [Hn1 Hf1] [Hn2 Hf2]. split; [congruence|].
  intros p n Hp. destruct (Hf1 p n Hp) as [Hsame|[Hin Hw]].
  - destruct (Hf2 p n Hsame) as [Hsame'|[Hin Hw]]; [by left|].
    right. split; [by apply H2|done].
  - right. split; [by apply H1|].
    eapply written_kept; [|exact Hw]. by split.
Qed.

Lemma mkdir_writes (dir : string) (r : Run) :
  writes_within [] (world r) (world (mkdir env dir r).2)
  /\ same_heap r (mkdir env dir r).2.
Proof.
  unfold mkdir, emit, modify, gets, throw, set_world, mbind, M_bind, mret, M_ret.
  simpl.
  destruct (fs_fault env (Mkdir dir)) as [e|]; simpl.
  { split; [apply writes_within_refl|by repeat split]. }
  destruct (fs (world r) !! dir) as [n|] eqn:Hn; simpl.
  { destruct (is_dir n); simpl;
      (split; [apply writes_within_refl|by repeat split]). }
  split; [|by repeat split]. split; [done|]. simpl. intros p n Hp. left.
  rewrite lookup_insert_ne; [done|]. intros <-. congruence.
Qed.

Lemma writeFile_writes (ev : Event) (p data : string) (r : Run) :
  writes_within [p] (world r) (world (writeFile env ev p data r).2)
  /\ same_heap r (writeFile env ev p data r).2
  /\ ((writeFile env ev p data r).1 = Ok tt ->
      written (world (writeFile env ev p data r).2) p).
Proof.
  unfold writeFile, emit, modify, gets, throw, set_world, mbind, M_bind.
  simpl.
  destruct (fs_fault env (WriteFile p)) as [e|]; simpl.
  { split; [apply writes_within_refl|]. split; [by repeat split|done]. }
  assert (let w' := {| fs := <[p := {| is_dir := false;
                                        node_mtime := now (world r);
                                        node_data := data |}]> (fs (world r));
                       now := now (world r) |} in
          writes_within [p] (world r) w' /\ written w' p) as [Hw Hp].
  { assert (written
              {| fs := <[p := {| is_dir := false;
                                 node_mtime := now (world r);
                                 node_data := data |}]> (fs (world r));
                 now := now (world r) |} p) as Hp.
    { eexists. simpl. rewrite lookup_insert_eq. done. }
    split; [|done]. split; [done|]. simpl. intros q n Hq.
    destruct (decide (q = p)) as [->|Hne].
    - right. split; [by left|done].
    - left. by rewrite lookup_insert_ne. }
  destruct (fs (world r) !! p) as [[[] t d]|] eqn:Hn; simpl.
  - split; [apply writes_within_refl|]. split; [by repeat split|done].
  - split; [done|]. split; [by repeat split|done].
  - split; [done|]. split; [by repeat split|done].
Qed.

(** One round of the inner loop, outside a dry run. *)
Lemma process_output_writes (abs rel outBase : string) (size : Z)
    (es : list ImageManifestEntry) (fmt : Format) (r r' : Run)
    (res : Result (list ImageManifestEntry)) :
  dryRun_ opts = false ->
  process_output env opts abs rel outBase size es fmt r = (res, r') ->
  writes_within [outPath opts outBase size fmt] (world r) (world r')
  /\ same_heap r r'
  /\ forall es', res = Ok es' ->
       written (world r') (outPath opts outBase size fmt)
       /\ exists e, es' = (es ++ [e])%list
                    /\ entry_for env opts outBase rel (size, fmt) e.
Proof.
  intros Hd. unfold process_output. rewrite Hd. cbv zeta.
  unfold mbind at 1. unfold M_bind at 1.
  destruct (mkdir_writes (path_dirname env (outPath opts outBase size fmt)) r)
    as [Hw1 Hh1].
  assert (forall r3, writes_within [outPath opts outBase size fmt]
                       (world (mkdir env
                                 (path_dirname env
                                    (outPath opts outBase size fmt)) r).2)
                       (world r3) ->
                     writes_within [outPath opts outBase size fmt]
                       (world r) (world r3)) as Hall.
  { intros r3 H3. eapply writes_within_trans; [| |exact Hw1|exact H3];
      [by intros ? []|done]. }
  destruct (mkdir env _ r) as [[[]|e] r1]; simpl in Hw1, Hh1, Hall.
  2:{ intros [= <- <-]. split; [apply Hall, writes_within_refl|done]. }
  unfold toBuffer, emit, modify, gets, lift, mbind, M_bind, mret, M_ret.
  cbn beta iota zeta.
  set (r2 := {| world := world r1; events := _ |}).
  assert (same_heap r r2) as Hh12.
  { destruct Hh1 as (?&?&?&?&?&?). by repeat split. }
  destruct (sharp_toBuffer env _ _) as [buffer|e]; simpl.
  2:{ intros [= <- <-]. split; [apply Hall, writes_within_refl|done]. }
  destruct (writeFile_writes
              (EvWriteOutput (outPath opts outBase size fmt))
              (outPath opts outBase size fmt) buffer r2) as (Hw2 & Hh2 & Hok).
  assert (forall r3, same_heap r2 r3 -> same_heap r r3) as Hheap.
  { intros r3 (?&?&?&?&?&?). destruct Hh12 as (?&?&?&?&?&?).
    repeat split; congruence. }
  destruct (writeFile env _ _ _ r2) as [[[]|e] r3]; simpl in Hw2, Hh2, Hok.
  2:{ intros [= <- <-]. split; [by apply Hall|]. split; [by apply Hheap|done]. }
  destruct (sharp_metadata env buffer) as [metadata|e]; simpl.
  2:{ intros [= <- <-]. split; [by apply Hall|]. split; [by apply Hheap|done]. }
  intros [= <- <-].
  split; [by apply Hall|]. split; [by apply Hheap|].
  intros es' [= <-]. split; [by apply Hok|]. eexists. split; [done|].
  by repeat split.
Qed.

Lemma foldM_app {A B : Type} (f : B -> A -> M B) (l1 l2 : list A) (b : B)
    (r : Run) :
  foldM f (l1 ++ l2)%list b r = (foldM f l1 b ≫= foldM f l2) r.
Proof.
  revert b r. induction l1 as [|x l1 IH]; intros b r; [done|].
  simpl. unfold mbind, M_bind in *.
  destruct (f b x r) as [[b'|e] r1]; [apply IH|done].
Qed.

Lemma foldM_fmap {A A' B : Type} (g : A -> A') (f : B -> A' -> M B)
    (l : list A) (b : B) (r : Run) :
  foldM f (g <$> l) b r = foldM (fun b a => f b (g a)) l b r.
Proof.
  revert b r. induction l as [|x l IH]; intros b r; [done|].
  cbn [foldM fmap list_fmap]. unfold mbind, M_bind.
  destruct (f b (g x) r) as [[b'|e] r1]; auto.
Qed.

Lemma bind_singleton {A B : Type} (g : A -> B) (l : list A) :
  l ≫= (fun x => [g x]) = g <$> l.
Proof.
  induction l as [|x l IH]; [done|].
  cbn [mbind list_bind fmap list_fmap app]. by rewrite IH.
Qed.

(** The two nested loops visit the variants in order. *)
Lemma process_sizes_flat (abs rel outBase : string) (r : Run) :
  process_sizes env opts abs rel outBase r
  = foldM (fun es v => process_output env opts abs rel outBase v.1 es v.2)
      (variants opts) [] r.
Proof.
  unfold process_sizes, variants. generalize (@nil ImageManifestEntry).
  revert r. induction (sizesToProcess opts) as [|size sizes IH]; intros r es;
    [done|].
  cbn [foldM mbind list_bind]. rewrite foldM_app, bind_singleton.
  unfold mbind at 1 2. unfold M_bind at 1 2.
  rewrite foldM_fmap. cbn [fst snd].
  destruct (foldM _ (formats_ opts) es r) as [[es'|e] r1]; [apply IH|done].
Qed.

Lemma allOutputs_variants (outBase : string) :
  allOutputs opts outBase
  = (fun v => outPath opts outBase v.1 v.2) <$> variants opts.
Proof.
  unfold allOutputs, variants.
  induction (sizesToProcess opts) as [|size sizes IH]; [done|].
  cbn [mbind list_bind]. rewrite fmap_app, <-IH. f_equal.
  rewrite !bind_singleton, <-list_fmap_compose. done.
Qed.

(** The loops over sizes and formats, outside a dry run: what they write
    and, when they come to their end, what they return. *)
Lemma variants_writes (abs rel outBase : string) (vs : list (Z * Format))
    (es : list ImageManifestEntry) (r r' : Run)
    (res : Result (list ImageManifestEntry)) :
  dryRun_ opts = false ->
  foldM (fun es v => process_output env opts abs rel outBase v.1 es v.2)
    vs es r = (res, r') ->
  writes_within ((fun v => outPath opts outBase v.1 v.2) <$> vs)
    (world r) (world r')
  /\ same_heap r r'
  /\ forall es', res = Ok es' ->
       (forall v, In v vs -> written (world r') (outPath opts outBase v.1 v.2))
       /\ exists new, es' = (es ++ new)%list
                      /\ Forall2 (entry_for env opts outBase rel) vs new.
Proof.
  intros Hd. revert es r. induction vs as [|[size fmt] vs IH]; intros es r.
  - intros [= <- <-]. split; [apply writes_within_refl|].
    split; [by repeat split|]. intros es' [= <-]. split; [by intros ? []|].
    exists []. by rewrite List.app_nil_r.
  - cbn [foldM]. unfold mbind, M_bind. cbn [fst snd].
    destruct (process_output _ _ _ _ _ _ _ _ r) as [res1 r1] eqn:H1.
    destruct (process_output_writes _ _ _ _ _ _ _ _ _ Hd H1)
      as (Hw1 & Hh1 & Hok1).
    destruct res1 as [es1|e].
    + intros H2. destruct (IH _ _ H2) as (Hw2 & Hh2 & Hok2).
      destruct (Hok1 es1 eq_refl) as (Hwr1 & e1 & -> & He1).
      split; [|split].
      * eapply writes_within_trans; [| |exact Hw1|exact Hw2].
        -- intros p [<-|[]]. by left.
        -- intros p Hp. by right.
      * destruct Hh1 as (?&?&?&?&?&?), Hh2 as (?&?&?&?&?&?).
        repeat split; congruence.
      * intros es' ->. destruct (Hok2 es' eq_refl) as (Hwr2 & new & -> & Hnew).
        split.
        -- intros v [<-|Hv]; [|by apply Hwr2].
           eapply written_kept; [exact Hw2|exact Hwr1].
        -- exists (e1 :: new). split; [by rewrite <-List.app_assoc|].
           by constructor.
    + intros [= <- <-]. split; [|split; [done|done] ].
      eapply (writes_within_trans _ []);
        [| |exact Hw1|apply writes_within_refl].
      * intros p [<-|[]]. by left.
      * by intros ? [].
Qed.

Lemma fold_max_lt (l : list Z) (acc x : Z) :
  x < fold_left Z.max l acc <-> x < acc \/ exists y, In y l /\ x < y.
Proof.
  revert acc. induction l as [|y l IH]; intros acc; simpl.
  - split; [by left|]. by intros [?|(? & [] & _)].
  - rewrite IH. split.
    + intros [H|(z & Hz & Hlt)]; [|by eauto].
      destruct (Z.max_spec acc y) as [[_ Hm]|[_ Hm]]; rewrite Hm in H;
        [right; eauto|by left].
    + intros [H|(z & [<-|Hz] & Hlt)]; [left; lia|left; lia|right; eauto].
Qed.

Lemma output_mtimes_In (w : World) (outs : list string) (t : Z) :
  In t (output_mtimes env w outs)
  <-> exists p st, In p outs /\ stat env w p = Ok st /\ mtime st = t.
Proof.
  unfold output_mtimes. rewrite <-list_elem_of_In, list_elem_of_omap. split.
  - intros (p & Hp & Ht). apply list_elem_of_In in Hp.
    destruct (stat env w p) as [st|e] eqn:Hst; [|done]. injection Ht as <-.
    by exists p, st.
  - intros (p & st & Hp & Hst & <-). exists p.
    split; [by apply list_elem_of_In|]. by rewrite Hst.
Qed.

Lemma outputs_found_or_missing (w : World) (outs : list string) :
  Forall (exists_on_disk env w) outs
  \/ Exists (fun p => ~ exists_on_disk env w p) outs.
Proof.
  induction outs as [|p l IH]; [by left|].
  destruct (stat env w p) as [st|e] eqn:Hp.
  - destruct IH as [IH|IH]; [left|right].
    + constructor; [by exists st|done].
    + by apply List.Exists_cons_tl.
  - right. apply List.Exists_cons_hd. intros [st Hst]. congruence.
Qed.

(** [shouldSkipFile] skips exactly the inputs that are up to date. *)
Lemma shouldSkipFile_up_to_date (w : World) (abs : string)
    (outs : list string) (h : string) (c : gmap string CacheEntry) :
  skip (shouldSkipFile env w abs outs h false c) = true
  <-> up_to_date env w abs outs.
Proof.
  unfold shouldSkipFile, up_to_date.
  destruct (stat env w abs) as [st|e] eqn:Hst.
  2:{ split; [done|]. by intros (? & ? & _). }
  destruct (scan_outputs env w outs 0) as [b m] eqn:Hs.
  destruct (outputs_found_or_missing w outs) as [Hall|Hno].
  - rewrite (scan_outputs_all _ _ _ _ Hall) in Hs. injection Hs as <- <-.
    cbn [andb].
    assert (mtime st < fold_left Z.max (output_mtimes env w outs) 0
            <-> mtime st < 0
                \/ exists p st', In p outs /\ stat env w p = Ok st'
                                 /\ mtime st < mtime st') as Hiff.
    { rewrite fold_max_lt. split; (intros [?|H]; [by left|right]).
      - destruct H as (t & Ht & Hlt).
        apply output_mtimes_In in Ht as (p & st' & ? & ? & <-). eauto.
      - destruct H as (p & st' & Hp & Hst' & Hlt). exists (mtime st').
        split; [|done]. apply output_mtimes_In. eauto. }
    destruct (Z.ltb_spec (mtime st)
                (fold_left Z.max (output_mtimes env w outs) 0)) as [Hlt|Hge].
    + split.
      * intros _. exists st. split; [done|]. split; [done|]. by apply Hiff.
      * intros _. destruct (c !! _) as [ce|]; [|done].
        by destruct (String.eqb _ _).
    + split; [done|]. intros (st' & [= <-] & _ & H). apply Hiff in H. lia.
  - assert (b = false) as ->.
    { pose proof (scan_outputs_missing env w outs 0 Hno) as Hm.
      by rewrite Hs in Hm. }
    split; [done|]. intros (? & _ & Hall & _).
    apply List.Exists_exists in Hno as (p & Hp & Hnot).
    rewrite List.Forall_forall in Hall. exfalso. by apply Hnot, Hall.
Qed.

Lemma up_to_date_skips (w : World) (abs : string) (outs : list string)
    (h : string) (c : gmap string CacheEntry) :
  up_to_date env w abs outs ->
  shouldSkipFile env w abs outs h false c
  = {| skip := true;
       skip_reason :=
         Some (match c !! path_relative env (cwd env) abs with
               | Some ce =>
                   if String.eqb (entry_settingsHash ce) h
                   then "cached (up to date)"
                   else "output newer than input"
               | None => "output newer than input"
               end) |}.
Proof.
  intros Hup. apply (shouldSkipFile_up_to_date w abs outs h c) in Hup.
  revert Hup. unfold shouldSkipFile.
  destruct (stat env w abs) as [st|e]; [|done].
  destruct (scan_outputs env w outs 0) as [b m].
  destruct (b && _); [|done]. intros _.
  destruct (c !! _) as [ce|]; [|done]. by destruct (String.eqb _ _).
Qed.

(** The branch of a task that processes its input, outside a dry run. *)
Lemma task_body_processed (abs : string) (r r' : Run) :
  dryRun_ opts = false ->
  skip (skip_check env opts abs r) = false ->
  task_body env opts abs (path_relative env (input opts) abs) r
  = (Ok tt, r') ->
  exists es r1 st,
    process_sizes env opts abs (path_relative env (input opts) abs)
      (out_base env opts abs) r = (Ok es, r1)
    /\ world r' = world r1
    /\ stat env (world r1) abs = Ok st
    /\ manifest r'
       = js_set (path_relative env (input opts) abs) es (manifest r)
    /\ cache r'
       = js_set (path_relative env (cwd env) abs)
           {| inputPath := abs; inputMtime := mtime st;
              entry_settingsHash := generateSettingsHash opts;
              entry_outputFiles := expected_outputs env opts abs;
              timestamp := now (world r1) |} (cache r).
Proof.
  intros Hd Hskip.
  unfold skip_check, expected_outputs, file_result in Hskip.
  cbn [file_out] in Hskip.
  unfold task_body, out_base, expected_outputs, file_result.
  cbn [file_out].
  set (rel := path_relative env (input opts) abs) in *.
  set (outBase := path_join env (output opts) (Str.strip_ext rel)) in *.
  unfold push_cached, push_result, set_manifest, set_cache, modify, gets,
    lift, mbind, M_bind, mret, M_ret.
  cbn beta iota zeta. rewrite Hskip, Hd.
  destruct (process_sizes env opts abs rel outBase r) as [[es|e] r1] eqn:Hp;
    [|done].
  pose proof (world_only_process_sizes env opts abs rel outBase r) as [Hh _].
  rewrite Hp in Hh. cbn [snd] in Hh. destruct Hh as (Hc & _ & _ & _ & Hm & _).
  cbn [fst snd world cache manifest]. 
  destruct (stat env (world r1) abs) as [st|e] eqn:Hst; [|done].
  intros [= <-]. exists es, r1, st. cbn [world manifest cache].
  rewrite Hc, Hm. done.
Qed.

(** After a task has processed its input, outside a dry run, every
    expected output is a file on disk, the manifest holds one entry for
    each (size, format) pair in the order of the loops, and nothing but
    the expected outputs was overwritten. *)
Theorem processed_outputs_written (abs : string) (r r' : Run) :
  dryRun_ opts = false ->
  skip (skip_check env opts abs r) = false ->
  task_body env opts abs (path_relative env (input opts) abs) r
  = (Ok tt, r') ->
  writes_within (expected_outputs env opts abs) (world r) (world r')
  /\ Forall (written (world r')) (expected_outputs env opts abs)
  /\ exists es,
       manifest r'
       = js_set (path_relative env (input opts) abs) es (manifest r)
       /\ Forall2 (entry_for env opts (out_base env opts abs)
                     (path_relative env (input opts) abs))
            (variants opts) es.
Proof.
  intros Hd Hskip Hbody.
  destruct (task_body_processed _ _ _ Hd Hskip Hbody)
    as (es & r1 & st & Hp & Hw & _ & Hm & _).
  rewrite process_sizes_flat in Hp.
  destruct (variants_writes _ _ _ _ _ _ _ _ Hd Hp) as (Hwr & _ & Hok).
  destruct (Hok es eq_refl) as (Hall & new & -> & Hnew).
  unfold expected_outputs, file_result. cbn [file_out].
  fold (out_base env opts abs). rewrite allOutputs_variants, Hw.
  split; [done|]. split; [|eauto].
  apply List.Forall_forall. intros p [v [<- Hv]]%List.in_map_iff.
  by apply Hall.
Qed.

Lemma expected_outputs_variants (abs : string) :
  expected_outputs env opts abs
  = (fun v => outPath opts (out_base env opts abs) v.1 v.2) <$> variants opts.
Proof.
  unfold expected_outputs, file_result. cbn [file_out].
  fold (out_base env opts abs). apply allOutputs_variants.
Qed.

Lemma processed_is_up_to_date (abs : string) (r r' : Run) :
  dryRun_ opts = false ->
  skip (skip_check env opts abs r) = false ->
  task_body env opts abs (path_relative env (input opts) abs) r
  = (Ok tt, r') ->
  older_than_run (world r) abs ->
  ~ In abs (expected_outputs env opts abs) ->
  expected_outputs env opts abs <> [] ->
  (forall p, In p (expected_outputs env opts abs) ->
             fs_fault env (Stat p) = None) ->
  up_to_date env (world r') abs (expected_outputs env opts abs).
Proof.
  intros Hd Hskip Hbody (n & Hn & Hlt) Hnot Hne Hfault.
  destruct (task_body_processed _ _ _ Hd Hskip Hbody)
    as (es & r1 & st & Hp & Hw & Hst & _ & Hc).
  rewrite process_sizes_flat in Hp. rewrite expected_outputs_variants in *.
  destruct (variants_writes _ _ _ _ _ _ _ _ Hd Hp) as ([Hnow Hfs] & _ & Hok).
  destruct (Hok es eq_refl) as (Hall & _).
  set (outs := (fun v => outPath opts (out_base env opts abs) v.1 v.2)
                 <$> variants opts) in *.
  assert (forall p, In p outs ->
                    exists st', stat env (world r1) p = Ok st'
                                /\ mtime st' = now (world r)) as Hstat.
  { intros p Hp'. pose proof (Hfault p Hp') as Hf.
    apply List.in_map_iff in Hp' as (v & <- & Hv).
    destruct (Hall v Hv) as (n' & Hn' & _ & Ht).
    unfold stat. rewrite Hf, Hn'. eexists. split; [done|].
    simpl. congruence. }
  assert (mtime st = node_mtime n) as Hmt.
  { destruct (Hfs abs n Hn) as [Hsame|[Hin _]]; [|done].
    unfold stat in Hst. rewrite Hsame in Hst.
    destruct (fs_fault env (Stat abs)); [done|]. by injection Hst as <-. }
  rewrite Hw. exists st. split; [done|]. split.
  - apply List.Forall_forall. intros p Hp'.
    destruct (Hstat p Hp') as (st' & Hst' & _). by exists st'.
  - right. destruct outs as [|p l] eqn:Ho; [done|].
    destruct (Hstat p) as (st' & Hst' & Hm); [by left|].
    exists p, st'. split; [by left|]. split; [done|]. lia.
Qed.

(** A processed input is up to date at once: when the input was last
    modified before the run and is not one of its own outputs, the check
    that the next run makes on the world and the cache that the task
    leaves answers "cached (up to date)". *)
Theorem processed_then_up_to_date (abs : string) (r r' : Run) :
  dryRun_ opts = false ->
  skip (skip_check env opts abs r) = false ->
  task_body env opts abs (path_relative env (input opts) abs) r
  = (Ok tt, r') ->
  older_than_run (world r) abs ->
  ~ In abs (expected_outputs env opts abs) ->
  expected_outputs env opts abs <> [] ->
  (forall p, In p (expected_outputs env opts abs) ->
             fs_fault env (Stat p) = None) ->
  path_relative env (cwd env) abs <> "__proto__" ->
  shouldSkipFile env (world r') abs (expected_outputs env opts abs)
    (generateSettingsHash opts) false (cache r')
  = {| skip := true; skip_reason := Some "cached (up to date)" |}.
Proof.
  intros Hd Hskip Hbody Hold Hnot Hne Hfault Hkey.
  rewrite (up_to_date_skips (world r') abs _ _ (cache r'))
    by by apply (processed_is_up_to_date abs r).
  destruct (task_body_processed _ _ _ Hd Hskip Hbody)
    as (es & r1 & st & _ & _ & _ & _ & ->).
  unfold js_set. apply String.eqb_neq in Hkey. rewrite Hkey.
  rewrite lookup_insert_eq. cbn [entry_settingsHash].
  by rewrite String.eqb_refl.
Qed.

(** *** A second run *)

Lemma writes_within_mono (W W' : list string) (w w' : World) :
  (forall p, In p W -> In p W') ->
  writes_within W w w' -> writes_within W' w w'.
Proof.
  intros Hsub [Hnow Hfs]. split; [done|]. intros p n Hp.
  destruct (Hfs p n Hp) as [?|[? ?]]; [by left|right; auto].
Qed.

Lemma older_kept (W : list string) (w w' : World) (abs : string) :
  writes_within W w w' -> ~ In abs W ->
  older_than_run w abs -> older_than_run w' abs.
Proof.
  intros [Hnow Hfs] Hnot (n & Hn & Hlt).
  destruct (Hfs abs n Hn) as [Hsame|[Hin _]]; [|done].
  exists n. by rewrite Hnow.
Qed.

Lemma up_to_date_kept (W : list string) (w w' : World) (abs : string)
    (outs : list string) :
  writes_within W w w' -> ~ In abs W -> older_than_run w abs ->
  up_to_date env w abs outs -> up_to_date env w' abs outs.
Proof.
  intros [Hnow Hfs] Hnot (n & Hn & Hlt) (st & Hst & Hall & Hnewer).
  assert (fs w' !! abs = Some n) as Hn'.
  { by destruct (Hfs abs n Hn) as [?|[? _]]. }
  assert (mtime st = node_mtime n) as Hmt.
  { unfold stat in Hst. rewrite Hn in Hst.
    destruct (fs_fault env (Stat abs)); [done|]. by injection Hst as <-. }
  assert (forall q stq, stat env w q = Ok stq ->
            exists stq', stat env w' q = Ok stq'
                         /\ (mtime stq' = mtime stq
                             \/ mtime stq' = now w)) as Hq.
  { intros q stq. unfold stat. destruct (fs_fault env (Stat q)); [done|].
    destruct (fs w !! q) as [nq|] eqn:Hnq; [|done]. intros [= <-].
    destruct (Hfs q nq Hnq) as [->|[_ (nq' & -> & _ & Ht)]].
    - eexists. split; [done|]. by left.
    - eexists. split; [done|]. right. simpl. congruence. }
  exists st. split; [|split].
  - unfold stat in *. rewrite Hn'. by rewrite Hn in Hst.
  - eapply List.Forall_impl; [|exact Hall].
    intros q [stq Hstq]. destruct (Hq q stq Hstq) as (stq' & ? & _).
    by exists stq'.
  - destruct Hnewer as [?|(p & st' & Hp & Hst' & Hnewer)]; [by left|].
    right. destruct (Hq p st' Hst') as (stq' & Hstq' & Hm).
    exists p, stq'. split; [done|]. split; [done|]. lia.
Qed.

End Outputs.

Section SkippingTasks.

Context (env : Env) (opts : ImgxOptions).

Lemma skip_text_nonempty (c : gmap string CacheEntry) (abs : string) :
  str_or (skip_text env opts c abs) "cached" = skip_text env opts c abs.
Proof.
  unfold skip_text. destruct (c !! _) as [ce|]; [|done].
  by destruct (String.eqb _ _).
Qed.

(** The branch of a task that skips its input. *)
Lemma task_skipping (abs : string) (r : Run) :
  skip (skip_check env opts abs r) = true ->
  exists es,
    task env opts abs r
    = (Ok tt,
       {| world := world r; events := events r; cache := cache r;
          results := (results r ++ [file_result env opts abs])%list;
          skippedFiles := skippedFiles r;
          cachedFiles :=
            (cachedFiles r ++ [cached_entry env opts (cache r) abs])%list;
          manifest :=
            js_set (path_relative env (input opts) abs) es (manifest r);
          processedCount := processedCount r + 1 |}).
Proof.
  intros Hskip.
  assert (skip_check env opts abs r
          = {| skip := true;
               skip_reason := Some (skip_text env opts (cache r) abs) |})
    as Hcheck.
  { unfold skip_check in *. destruct (force_ opts); [done|].
    apply shouldSkipFile_up_to_date in Hskip.
    by rewrite (up_to_date_skips env _ _ _ _ _ Hskip). }
  unfold skip_check, expected_outputs, file_result in Hcheck.
  cbn [file_out] in Hcheck.
  unfold task, try_catch, task_body.
  unfold push_cached, push_result, set_manifest, modify, gets, mbind, M_bind,
    mret, M_ret.
  cbn beta iota zeta. rewrite Hcheck. cbn [skip skip_reason from_option id world
    events cache results skippedFiles cachedFiles manifest processedCount].
  rewrite skip_text_nonempty. unfold cached_entry, file_result.
  eexists. reflexivity.
Qed.

(** What a task writes, outside a dry run. *)
Lemma task_writes (abs : string) (r : Run) :
  dryRun_ opts = false ->
  writes_within (expected_outputs env opts abs) (world r)
    (world (task env opts abs r).2).
Proof.
  intros Hd. destruct (skip (skip_check env opts abs r)) eqn:Hskip.
  { destruct (task_skipping abs r Hskip) as (es & ->).
    apply writes_within_refl. }
  unfold skip_check, expected_outputs, file_result in Hskip.
  cbn [file_out] in Hskip. rewrite expected_outputs_variants.
  unfold task, try_catch, task_body, out_base.
  set (rel := path_relative env (input opts) abs) in *.
  set (outBase := path_join env (output opts) (Str.strip_ext rel)) in *.
  unfold push_skipped, push_cached, push_result, set_manifest, set_cache,
    modify, gets, lift, mbind, M_bind, mret, M_ret.
  cbn beta iota zeta. rewrite Hskip, Hd.
  destruct (process_sizes env opts abs rel outBase r) as [res r1] eqn:Hp.
  rewrite process_sizes_flat in Hp.
  destruct (variants_writes _ _ _ _ _ _ _ _ _ _ Hd Hp) as (Hw & _ & _).
  destruct res as [es|e]; cbn [fst snd world]; [|done].
  by destruct (stat env (world r1) abs) as [st|e].
Qed.

Lemma task_is_body (abs : string) (r : Run) :
  (task_body env opts abs (path_relative env (input opts) abs) r).1 = Ok tt ->
  task env opts abs r
  = task_body env opts abs (path_relative env (input opts) abs) r.
Proof.
  unfold task, try_catch.
  by destruct (task_body _ _ _ _ r) as [[[]|e] r1].
Qed.

Lemma task_up_to_date (abs : string) (r : Run) :
  dryRun_ opts = false ->
  (task_body env opts abs (path_relative env (input opts) abs) r).1 = Ok tt ->
  older_than_run (world r) abs ->
  ~ In abs (expected_outputs env opts abs) ->
  expected_outputs env opts abs <> [] ->
  (forall p, In p (expected_outputs env opts abs) ->
             fs_fault env (Stat p) = None) ->
  up_to_date env (world (task env opts abs r).2) abs
    (expected_outputs env opts abs).
Proof.
  intros Hd Hok Hold Hnot Hne Hfault.
  destruct (skip (skip_check env opts abs r)) eqn:Hskip.
  - destruct (task_skipping abs r Hskip) as (es & ->). cbn [snd world].
    unfold skip_check in Hskip. destruct (force_ opts) eqn:Hf; [done|].
    by apply shouldSkipFile_up_to_date in Hskip.
  - rewrite (task_is_body _ _ Hok).
    destruct (task_body _ _ _ _ r) as [[[]|e] r'] eqn:Hbody; [|done].
    by apply (processed_is_up_to_date env opts abs r).
Qed.

(** The first run: when no task throws, every input is up to date at the
    end of the tasks. *)
Lemma tasks_up_to_date (W : list string) (files : list string) (r : Run) :
  dryRun_ opts = false ->
  Forall (fun o => o = None) (thrown env opts files r) ->
  Forall (older_than_run (world r)) files ->
  Forall (fun abs => ~ In abs W) files ->
  (forall abs p, In abs files -> In p (expected_outputs env opts abs) ->
                 In p W /\ fs_fault env (Stat p) = None) ->
  variants opts <> [] ->
  writes_within W (world r) (world (after_tasks env opts files r))
  /\ Forall (fun abs =>
               up_to_date env (world (after_tasks env opts files r)) abs
                 (expected_outputs env opts abs)) files.
Proof.
  intros Hd Hnone Hold Hnot Hout Hne. revert r Hnone Hold.
  induction files as [|abs files IH]; intros r Hnone Hold.
  { split; [apply writes_within_refl|constructor]. }
  cbn [after_tasks thrown] in *.
  inversion Hnone as [|? ? Hnone1 Hnone2]; subst.
  inversion Hold as [|? ? Hold1 Hold2]; subst.
  inversion Hnot as [|? ? Hnot1 Hnot2]; subst.
  pose proof (task_writes abs r Hd) as Hw1.
  assert (writes_within W (world r) (world (task env opts abs r).2)) as Hw1'.
  { eapply writes_within_mono; [|exact Hw1]. intros p Hp.
    apply (Hout abs p); [by left|done]. }
  destruct (IH Hnot2) with (r := (task env opts abs r).2) as [Hw2 Hup].
  - intros a p Ha Hp. apply (Hout a p); [by right|done].
  - done.
  - rewrite List.Forall_forall in *. intros a Ha.
    eapply older_kept; [exact Hw1'|by apply Hnot2|by apply Hold2].
  - split.
    + eapply writes_within_trans; [| |exact Hw1'|exact Hw2]; done.
    + constructor; [|done].
      eapply up_to_date_kept; [exact Hw2|done| |].
      * eapply older_kept; [exact Hw1'|done|done].
      * apply task_up_to_date; try done.
        -- destruct (task_body _ _ _ _ r).1 as [[]|e]; done.
        -- intros Hin. apply Hnot1. apply (Hout abs abs); [by left|done].
        -- rewrite expected_outputs_variants.
           destruct (variants opts); [done|discriminate].
        -- intros p Hp. apply (Hout abs p); [by left|done].
Qed.

Lemma failures_nil (files : list string) (r : Run) :
  failures env opts files (thrown env opts files r) = [] ->
  Forall (fun o => o = None) (thrown env opts files r).
Proof.
  revert r. induction files as [|abs files IH]; intros r; [constructor|].
  cbn [thrown failures].
  destruct (task_body _ _ _ _ r).1 as [[]|e]; [|done].
  intros H. constructor; [done|by apply IH].
Qed.

(** *** The trace of a run *)

Lemma mkdir_events (dir : string) (r : Run) :
  events (mkdir env dir r).2 = (events r ++ [EvMkdir dir])%list.
Proof.
  unfold mkdir, emit, modify, gets, throw, set_world, mbind, M_bind, mret, M_ret.
  simpl. destruct (fs_fault env (Mkdir dir)); [done|].
  destruct (fs (world r) !! dir) as [[[] ? ?]|]; done.
Qed.

Lemma writeFile_events (ev : Event) (p data : string) (r : Run) :
  events (writeFile env ev p data r).2
  = (events r ++ match (writeFile env ev p data r).1 with
                 | Ok _ => [ev]
                 | Throw _ => []
                 end)%list.
Proof.
  unfold writeFile, emit, modify, gets, throw, set_world, mbind, M_bind.
  simpl. destruct (fs_fault env (WriteFile p)); simpl;
    [by rewrite List.app_nil_r|].
  destruct (fs (world r) !! p) as [[[] ? ?]|]; simpl; try done.
  by rewrite List.app_nil_r.
Qed.

Lemma process_output_trace (abs rel : string) (v : Z * Format)
    (es : list ImageManifestEntry) (r r' : Run)
    (res : Result (list ImageManifestEntry)) :
  process_output env opts abs rel (out_base env opts abs) v.1 es v.2 r
  = (res, r') ->
  exists l, events r' = (events r ++ l)%list
            /\ l `prefix_of` variant_trace env opts abs v
            /\ ((exists es', res = Ok es') ->
                l = variant_trace env opts abs v).
Proof.
  unfold process_output, variant_trace, pipeline. cbv zeta.
  set (out := outPath opts (out_base env opts abs) v.1 v.2).
  unfold mbind at 1. unfold M_bind at 1.
  pose proof (mkdir_events (path_dirname env out) r) as He1.
  destruct (mkdir env (path_dirname env out) r) as [[[]|e] r1];
    cbn [snd] in He1.
  2:{ intros [= <- <-]. eexists. split; [done|].
      split; [apply prefix_cons, prefix_nil|]. by intros [? ?]. }
  destruct (dryRun_ opts).
  { intros [= <- <-]. eexists. split; [done|]. done. }
  unfold toBuffer, emit, modify, gets, lift, mbind, M_bind, mret, M_ret.
  cbn beta iota zeta. cbn [world events].
  destruct (sharp_toBuffer env _ _) as [buffer|e].
  2:{ intros [= <- <-]. cbn [events]. rewrite He1, <-List.app_assoc.
      eexists. split; [done|].
      split; [apply prefix_cons, prefix_cons, prefix_nil|]. by intros [? ?]. }
  match goal with
  | |- context [writeFile env ?ev out buffer ?r2] =>
      pose proof (writeFile_events ev out buffer r2) as He2;
      destruct (writeFile env ev out buffer r2) as [[[]|e] r3]
  end; cbn [fst snd events] in He2.
  2:{ intros [= <- <-]. rewrite He2, He1, List.app_nil_r, <-List.app_assoc.
      eexists. split; [done|].
      split; [apply prefix_cons, prefix_cons, prefix_nil|]. by intros [? ?]. }
  destruct (sharp_metadata env buffer) as [metadata|e];
    intros [= <- <-]; rewrite He2, He1, <-!List.app_assoc;
    (eexists; split; [done|]; split; [done|done]).
Qed.

(** The loops of a processing task walk through the trace of the task:
    all of it when they come to their end, a first part of it when a step
    throws. *)
Lemma variants_trace (abs rel : string) (vs : list (Z * Format))
    (es : list ImageManifestEntry) (r r' : Run)
    (res : Result (list ImageManifestEntry)) :
  foldM (fun es v =>
           process_output env opts abs rel (out_base env opts abs) v.1 es v.2)
    vs es r = (res, r') ->
  exists l, events r' = (events r ++ l)%list
            /\ l `prefix_of` (vs ≫= variant_trace env opts abs)
            /\ ((exists es', res = Ok es') ->
                l = vs ≫= variant_trace env opts abs).
Proof.
  revert es r. induction vs as [|v vs IH]; intros es r.
  - intros [= <- <-]. exists []. by rewrite List.app_nil_r.
  - cbn [foldM mbind list_bind]. unfold mbind at 1, M_bind at 1.
    destruct (process_output _ _ _ _ _ _ _ _ r) as [res1 r1] eqn:H1.
    destruct (process_output_trace _ _ _ _ _ _ _ H1) as (l1 & He1 & Hp1 & Hf1).
    destruct res1 as [es1|e].
    + intros H2. destruct (IH _ _ H2) as (l2 & He2 & Hp2 & Hf2).
      rewrite (Hf1 (ex_intro _ es1 eq_refl)) in He1.
      exists (variant_trace env opts abs v ++ l2)%list.
      split; [by rewrite He2, He1, List.app_assoc|].
      split; [by apply prefix_app|].
      intros Hok. by rewrite (Hf2 Hok).
    + intros [= <- <-]. exists l1. split; [done|].
      split; [by apply prefix_app_r|]. by intros [? ?].
Qed.


End SkippingTasks.

Section SecondRun.

Context (env : Env) (opts : ImgxOptions).

(** The end of a run writes the cache file and the manifest file, and
    nothing else. *)
Lemma finish_writes (files : list string) (r : Run) :
  writes_within [cachePath env opts; manifestPath env opts] (world r)
    (world (finish env opts files r).2)
  /\ exists l, events (finish env opts files r).2 = (events r ++ l)%list
               /\ Forall (closing env opts) l.
Proof.
  unfold finish, saveCache.
  assert (forall ev p data r0,
            In p [cachePath env opts; manifestPath env opts] ->
            closing env opts ev ->
            writes_within [cachePath env opts; manifestPath env opts]
              (world r0) (world (writeFile env ev p data r0).2)
            /\ same_heap r0 (writeFile env ev p data r0).2
            /\ exists l, events (writeFile env ev p data r0).2
                         = (events r0 ++ l)%list
                         /\ Forall (closing env opts) l) as Hwrite.
  { intros ev p data r0 Hp Hev.
    destruct (writeFile_writes env ev p data r0) as (Hw & Hh & _).
    split; [|split; [done|] ].
    - eapply writes_within_mono; [|exact Hw]. by intros q [<-|[]].
    - rewrite writeFile_events.
      destruct (writeFile env ev p data r0).1; eexists; split; try done.
      by constructor. }
  assert (forall r0 : Run, exists l, events r0 = (events r0 ++ l)%list
                                     /\ Forall (closing env opts) l) as Hnil.
  { intros r0. exists []. by rewrite List.app_nil_r. }
  unfold mbind, M_bind, gets, mret, M_ret. cbn beta iota zeta.
  destruct (dryRun_ opts); cbn [negb andb].
  { rewrite andb_false_r. cbn [fst snd].
    split; [apply writes_within_refl|apply Hnil]. }
  destruct (Hwrite (EvSaveCache (cachePath env opts)) (cachePath env opts)
              (JSON_stringify_cache env (cache r)) r)
    as (Hw1 & Hh1 & l1 & He1 & Hl1); [by left|by left|].
  destruct (writeFile env _ _ _ r) as [[[]|e] r1]; cbn [fst snd] in *;
    [|by eauto].
  rewrite andb_true_r.
  destruct (0 <? size (manifest r1))%nat; cbn [fst snd].
  2:{ split; [done|eauto]. }
  destruct (Hwrite (EvWriteManifest (manifestPath env opts))
              (manifestPath env opts)
              (JSON_stringify_manifest env (manifest r1)) r1)
    as (Hw2 & Hh2 & l2 & He2 & Hl2); [by right; left|by right|].
  assert (writes_within [cachePath env opts; manifestPath env opts]
            (world r)
            (world (writeFile env (EvWriteManifest (manifestPath env opts))
                      (manifestPath env opts)
                      (JSON_stringify_manifest env (manifest r1)) r1).2))
    as Hw by (by eapply writes_within_trans; [| |exact Hw1|exact Hw2]).
  assert (exists l,
            events (writeFile env (EvWriteManifest (manifestPath env opts))
                      (manifestPath env opts)
                      (JSON_stringify_manifest env (manifest r1)) r1).2
            = (events r ++ l)%list /\ Forall (closing env opts) l) as Hev.
  { exists (l1 ++ l2)%list. rewrite He2, He1, List.app_assoc.
    split; [done|]. by apply Forall_app. }
  by destruct (writeFile env _ _ _ r1) as [[[]|e] r2]; cbn [fst snd] in *.
Qed.

(** The cache file that the end of a run leaves. *)
Lemma finish_cache_file (files : list string) (r r' : Run)
    (res : ImgxResult) :
  dryRun_ opts = false ->
  cachePath env opts <> manifestPath env opts ->
  finish env opts files r = (Ok res, r') ->
  readFile env (world r') (cachePath env opts)
  = match fs_fault env (ReadFile (cachePath env opts)) with
    | Some e => Throw e
    | None => Ok (JSON_stringify_cache env (cache r))
    end.
Proof.
  intros Hd Hne. unfold finish, saveCache.
  unfold mbind, M_bind, gets, mret, M_ret. cbn beta iota zeta. rewrite Hd.
  cbn [negb].
  assert (forall ev p data r0 r1,
            writeFile env ev p data r0 = (Ok tt, r1) ->
            fs (world r1)
            = <[p := {| is_dir := false; node_mtime := now (world r0);
                        node_data := data |}]> (fs (world r0))
            /\ manifest r1 = manifest r0) as Hwrite.
  { intros ev p data r0 r1.
    unfold writeFile, emit, modify, gets, throw, set_world, mbind, M_bind.
    simpl. destruct (fs_fault env (WriteFile p)); [done|].
    destruct (fs (world r0) !! p) as [[[] ? ?]|]; simpl; [done|..];
      by intros [= <-]. }
  destruct (writeFile env _ _ _ r) as [[[]|e] r1] eqn:H1; [|done].
  rewrite andb_true_r.
  apply Hwrite in H1 as [Hfs1 Hm1].
  assert (forall r2, fs (world r2) !! cachePath env opts
                     = fs (world r1) !! cachePath env opts ->
            readFile env (world r2) (cachePath env opts)
            = match fs_fault env (ReadFile (cachePath env opts)) with
              | Some e => Throw e
              | None => Ok (JSON_stringify_cache env (cache r))
              end) as Hread.
  { intros r2 Hr2. unfold readFile. rewrite Hr2, Hfs1, lookup_insert_eq.
    done. }
  destruct (0 <? size (manifest r1))%nat.
  - destruct (writeFile env _ _ _ r1) as [[[]|e] r2] eqn:H2; [|done].
    apply Hwrite in H2 as [Hfs2 _]. intros [= _ <-]. apply Hread.
    rewrite Hfs2. by rewrite lookup_insert_ne.
  - intros [= _ <-]. by apply Hread.
Qed.

(** The tasks of a run whose inputs are all up to date. *)
Lemma tasks_all_skipped (files : list string) (r : Run) :
  force_ opts = false ->
  Forall (fun abs => up_to_date env (world r) abs
                       (expected_outputs env opts abs)) files ->
  world (after_tasks env opts files r) = world r
  /\ events (after_tasks env opts files r) = events r
  /\ skippedFiles (after_tasks env opts files r) = skippedFiles r
  /\ results (after_tasks env opts files r)
     = (results r ++ (file_result env opts <$> files))%list
  /\ cachedFiles (after_tasks env opts files r)
     = (cachedFiles r ++ (cached_entry env opts (cache r) <$> files))%list.
Proof.
  intros Hf. revert r. induction files as [|abs files IH]; intros r Hup.
  { cbn [after_tasks fmap list_fmap]. rewrite !List.app_nil_r. done. }
  inversion Hup as [|? ? Hup1 Hup2]; subst.
  assert (skip (skip_check env opts abs r) = true) as Hskip.
  { unfold skip_check. rewrite Hf. by apply shouldSkipFile_up_to_date. }
  destruct (task_skipping env opts abs r Hskip) as (es & Htask).
  cbn [after_tasks]. rewrite Htask. cbn [snd].
  match goal with
  | |- context [after_tasks env opts files ?r1] =>
      destruct (IH r1 Hup2) as (Hw & He & Hs & Hr & Hl)
  end.
  rewrite Hw, He, Hs, Hr, Hl. cbn [world events skippedFiles results
    cachedFiles cache fmap list_fmap]. rewrite <-!List.app_assoc. done.
Qed.

(** The state in which a run that is not a dry run and in which no task
    throws leaves the world: what it wrote, and every input up to date. *)
Lemma first_run_up_to_date (w : World) (r' : Run) (res : ImgxResult) :
  let files := enumerated env opts w in
  let r := after_tasks env opts files (start env opts w) in
  dryRun_ opts = false ->
  finish env opts files r = (Ok res, r') ->
  r_skipped res = [] ->
  Forall (older_than_run w) files ->
  Forall (fun abs => ~ In abs (written_paths env opts files)) files ->
  Forall (fun p => fs_fault env (Stat p) = None)
    (files ≫= expected_outputs env opts) ->
  variants opts <> [] ->
  Forall (fun o => o = None) (thrown env opts files (start env opts w))
  /\ Forall (fun abs => up_to_date env (world r') abs
                          (expected_outputs env opts abs)) files.
Proof.
  intros files r Hd Hfin Hskipped Hold Hnot Hfault Hne.
  set (W := written_paths env opts files) in *.
  assert (forall abs p, In abs files -> In p (expected_outputs env opts abs) ->
            In p W /\ fs_fault env (Stat p) = None) as Hout.
  { intros abs p Ha Hp.
    assert (In p (files ≫= expected_outputs env opts)) as Hin.
    { apply list_elem_of_In, list_elem_of_bind. exists abs.
      split; by apply list_elem_of_In. }
    split.
    - unfold W, written_paths. apply in_or_app. by left.
    - rewrite List.Forall_forall in Hfault. by apply Hfault. }
  assert (Forall (fun o => o = None)
            (thrown env opts files (start env opts w))) as Hnone.
  { apply failures_nil. destruct (finish_spec _ _ _ _ _ _ Hfin) as [-> _].
    cbn [r_skipped] in Hskipped.
    pose proof (tasks_skipped env opts files (start env opts w)) as Hs.
    fold r in Hs. rewrite Hskipped in Hs. cbn [skippedFiles start] in Hs.
    by rewrite List.app_nil_l in Hs. }
  split; [done|].
  destruct (tasks_up_to_date env opts W files (start env opts w) Hd Hnone
              Hold Hnot Hout Hne) as [Hw1 Hup].
  fold r in Hw1, Hup. cbn [world start] in Hw1.
  destruct (finish_writes files r) as [Hw2 _]. rewrite Hfin in Hw2.
  cbn [snd] in Hw2.
  assert (writes_within W (world r) (world r')) as Hw2'.
  { eapply writes_within_mono; [|exact Hw2]. intros p Hp.
    unfold W, written_paths. apply in_or_app. by right. }
  rewrite List.Forall_forall in *. intros abs Ha.
  eapply up_to_date_kept; [exact Hw2'|by apply Hnot| |by apply Hup].
  eapply older_kept; [exact Hw1|by apply Hnot|by apply Hold].
Qed.

(** A run from a world in which every input is up to date. *)
Lemma run_all_skipped (w : World) :
  let files := enumerated env opts w in
  force_ opts = false ->
  Forall (fun abs => up_to_date env w abs (expected_outputs env opts abs))
    files ->
  Forall (closing env opts) (imgx env opts w).2
  /\ writes_within [cachePath env opts; manifestPath env opts] w
       (imgx env opts w).1.2
  /\ forall res, (imgx env opts w).1.1 = Ok res ->
       r_skipped res = []
       /\ r_cached res
          = cached_entry env opts (loadCache env w (cachePath env opts))
              <$> files
       /\ r_files res = file_result env opts <$> files.
Proof.
  intros files Hf Hup.
  destruct (tasks_all_skipped files (start env opts w) Hf Hup)
    as (Hworld & Hevents & Hsk & Hres & Hl).
  set (r2 := after_tasks env opts files (start env opts w)) in *.
  destruct (finish_writes files r2) as [Hw3 (l3 & He3 & Hl3)].
  assert (Forall (closing env opts) (events (finish env opts files r2).2)
          /\ writes_within [cachePath env opts; manifestPath env opts]
               w (world (finish env opts files r2).2)
          /\ forall res2, (finish env opts files r2).1 = Ok res2 ->
               r_skipped res2 = []
               /\ r_cached res2
                  = cached_entry env opts
                      (loadCache env w (cachePath env opts)) <$> files
               /\ r_files res2 = file_result env opts <$> files) as Hend.
  { rewrite Hworld in Hw3. cbn [world start] in Hw3.
    rewrite Hevents in He3. cbn [events start app] in He3.
    split; [by rewrite He3|]. split; [done|].
    intros res2 Hres2.
    destruct (finish env opts files r2) as [res2' r3] eqn:Hfin2.
    cbn [fst] in Hres2. subst res2'.
    destruct (finish_spec _ _ _ _ _ _ Hfin2) as [-> _].
    cbn [r_skipped r_cached r_files]. rewrite Hsk, Hl, Hres.
    by cbn [skippedFiles cachedFiles results cache start app]. }
  destruct (imgx_cases env opts w) as [(Hw0 & He0 & Hr0)|(_ & _ & _ & Hrun)].
  - rewrite Hw0, He0. split; [constructor|]. split; [apply writes_within_refl|].
    intros res2 Hres2. destruct Hr0 as [[e He]|[Hnil Hok]]; [congruence|].
    rewrite Hok in Hres2. injection Hres2 as <-. unfold files.
    by rewrite Hnil.
  - rewrite Hrun. cbn [fst snd]. exact Hend.
Qed.

(** A second run over inputs that the first run left up to date encodes
    nothing.  Let a run that is neither dry nor forced and that asks for at
    least one (size, format) pair return with no input skipped for an
    error; let the inputs be older than the run and none of them a path
    that the run writes, let [fs.stat] fail on none of the expected
    outputs, and let the next run enumerate the same files.  Then the same
    run from the world that the first one left invokes no codec, makes no
    directory and writes no output: it writes the cache file and the
    manifest file only; and when it returns, it reports every input in
    [cached] and in [files], and none in [skipped]. *)
Theorem second_run_encodes_nothing (w w1 : World) (res : ImgxResult)
    (evs : list Event) :
  dryRun_ opts = false ->
  force_ opts = false ->
  imgx env opts w = (Ok res, w1, evs) ->
  r_skipped res = [] ->
  enumerated env opts w1 = enumerated env opts w ->
  Forall (older_than_run w) (enumerated env opts w) ->
  Forall (fun abs =>
            ~ In abs (written_paths env opts (enumerated env opts w)))
    (enumerated env opts w) ->
  Forall (fun p => fs_fault env (Stat p) = None)
    (enumerated env opts w ≫= expected_outputs env opts) ->
  variants opts <> [] ->
  Forall (closing env opts) (imgx env opts w1).2
  /\ writes_within [cachePath env opts; manifestPath env opts] w1
       (imgx env opts w1).1.2
  /\ forall res2, (imgx env opts w1).1.1 = Ok res2 ->
       r_skipped res2 = []
       /\ file <$> r_cached res2
          ≡ₚ path_relative env (input opts) <$> enumerated env opts w
       /\ r_files res2 ≡ₚ file_result env opts <$> enumerated env opts w.
Proof.
  intros Hd Hf Hrun Hskipped Hsame Hold Hnot Hfault Hne.
  assert (Forall (fun abs => up_to_date env w1 abs
                               (expected_outputs env opts abs))
            (enumerated env opts w1)) as Hup.
  { rewrite Hsame. apply imgx_result in Hrun
      as [(Hnil & _)|(r & r' & Hr & Hfin & -> & _)].
    - rewrite Hnil. constructor.
    - subst r.
      by destruct (first_run_up_to_date w r' res Hd Hfin Hskipped Hold Hnot
                     Hfault Hne). }
  destruct (run_all_skipped w1 Hf Hup) as (Hev & Hw & Hres).
  split; [done|]. split; [done|]. intros res2 Hres2.
  destruct (Hres res2 Hres2) as (Hs & Hc & Hfiles).
  rewrite Hs, Hc, Hfiles, Hsame. split; [done|]. split; [|done].
  rewrite <-list_fmap_compose. done.
Qed.

End SecondRun.

Section Traces.

Context (env : Env) (opts : ImgxOptions).

Lemma thrown_length (files : list string) (r : Run) :
  length (thrown env opts files r) = length files.
Proof.
  revert r. induction files as [|abs files IH]; intros r; [done|].
  cbn [thrown length]. by rewrite IH.
Qed.

(** The second run tells every input that the first run processed to be
    "cached (up to date)".  Let a run that is neither dry nor forced and
    that asks for at least one (size, format) pair return with no input
    skipped for an error and none reported as cached; let the inputs be
    older than the run and none of them a path that the run writes, let
    [fs.stat] fail on none of the expected outputs, and let the next run
    enumerate the same files.  Let the cache that the first run holds at
    its end survive the round trip through its file: the file can be read,
    it is not the manifest file, [JSON.parse] gives back what
    [JSON.stringify] was given, and no key of an input is [__proto__].
    Then the second run, when it returns, lists in [cached] every input
    with the reason "cached (up to date)". *)
Theorem second_run_reports_cached (w w1 : World) (res : ImgxResult)
    (evs : list Event) :
  let files := enumerated env opts w in
  let c := cache (after_tasks env opts files (start env opts w)) in
  dryRun_ opts = false ->
  force_ opts = false ->
  imgx env opts w = (Ok res, w1, evs) ->
  r_skipped res = [] ->
  r_cached res = [] ->
  enumerated env opts w1 = files ->
  Forall (older_than_run w) files ->
  Forall (fun abs => ~ In abs (written_paths env opts files)) files ->
  Forall (fun p => fs_fault env (Stat p) = None)
    (files ≫= expected_outputs env opts) ->
  variants opts <> [] ->
  JSON_parse_cache env (JSON_stringify_cache env c) = Some c ->
  fs_fault env (ReadFile (cachePath env opts)) = None ->
  cachePath env opts <> manifestPath env opts ->
  Forall (fun abs => path_relative env (cwd env) abs <> "__proto__") files ->
  match (imgx env opts w1).1.1 with
  | Ok res2 =>
      r_cached res2
      ≡ₚ (fun abs => {| file := path_relative env (input opts) abs;
                        reason := "cached (up to date)" |}) <$> files
  | Throw _ => True
  end.
Proof.
  intros files c Hd Hf Hrun Hskipped Hcached Hsame Hold Hnot Hfault Hne
    Hjson Hread Hpaths Hkeys.
  destruct (imgx env opts w1).1.1 as [res2|e] eqn:Hres2; [|done].
  apply imgx_result in Hrun
    as [(Hnil & _)|(r & r' & -> & Hfin & -> & _)].
  { fold files in Hnil. rewrite Hnil in *.
    destruct (imgx_cases env opts w1)
      as [(_ & _ & [[e He]|[_ Hok]])|(Hne1 & _)]; [congruence| |done].
    rewrite Hok in Hres2. by injection Hres2 as <-. }
  fold files in Hfin.
  destruct (first_run_up_to_date env opts w r' res Hd Hfin Hskipped Hold Hnot
              Hfault Hne) as [Hnone Hup].
  fold files in Hnone, Hup. rewrite <-Hsame in Hup.
  destruct (run_all_skipped env opts (world r') Hf Hup) as (_ & _ & Hres).
  destruct (Hres res2 Hres2) as (_ & -> & _). rewrite Hsame.
  assert (loadCache env (world r') (cachePath env opts) = c) as ->.
  { unfold loadCache.
    rewrite (finish_cache_file env opts files _ r' res Hd Hpaths Hfin), Hread.
    fold c. by rewrite Hjson. }
  apply reflexive_eq.
  apply list_fmap_ext. intros j abs Hj. unfold cached_entry. f_equal.
  assert (thrown env opts files (start env opts w) !! j = Some None) as Hj'.
  { destruct (lookup_lt_is_Some_2 (thrown env opts files (start env opts w)) j)
      as [o Ho].
    - rewrite thrown_length. by eapply lookup_lt_Some.
    - rewrite Ho. f_equal.
      eapply (proj1 (Forall_lookup _ _) Hnone); exact Ho. }
  destruct (tasks_cache env opts files (start env opts w) j abs Hj Hj')
    as [Hdry|[(c0 & Hc0 & _)|[Hproto|(ce & Hce & Hhash)]]].
  - congruence.
  - destruct (finish_spec _ _ _ _ _ _ Hfin) as [-> _].
    cbn [r_cached] in Hcached. fold files in Hc0. rewrite Hcached in Hc0.
    done.
  - exfalso. eapply (proj1 (Forall_lookup _ _) Hkeys); [exact Hj|done].
  - unfold skip_text. fold c in Hce. rewrite Hce, Hhash.
    by rewrite String.eqb_refl.
Qed.

(** *** What a run may write *)

Lemma world_step_writes (r r' : Run) :
  world_step true r r' -> writes_within [] (world r) (world r').
Proof.
  intros (Hnow & _ & Hfs). split; [done|]. intros p n Hp.
  destruct (Hfs eq_refl p) as [Hsame|[Hnone _]]; [|congruence].
  left. congruence.
Qed.

Lemma tasks_writes (files : list string) (r : Run) :
  writes_within (files ≫= expected_outputs env opts) (world r)
    (world (after_tasks env opts files r)).
Proof.
  destruct (dryRun_ opts) eqn:Hd.
  { eapply writes_within_mono; [|apply world_step_writes].
    - by intros p [].
    - rewrite <-Hd. apply tasks_world. }
  revert r. induction files as [|abs files IH]; intros r.
  { apply writes_within_refl. }
  cbn [after_tasks mbind list_bind].
  eapply writes_within_trans; [| |apply (task_writes env opts abs r Hd)|apply IH];
    intros p Hp; apply in_or_app; auto.
Qed.

(** A run overwrites nothing but its expected outputs, its cache file and
    its manifest file, and removes nothing: whatever its outcome, every
    file or directory that existed before is as it was, or is one of those
    paths and now a regular file stamped with the time of the run. *)
Theorem imgx_writes_within (w : World) :
  writes_within (written_paths env opts (enumerated env opts w)) w
    (imgx env opts w).1.2.
Proof.
  destruct (imgx_cases env opts w) as [(-> & _)|(_ & _ & _ & ->)];
    [apply writes_within_refl|]. cbn [fst snd].
  pose proof (tasks_writes (enumerated env opts w) (start env opts w)) as H1.
  destruct (finish_writes env opts (enumerated env opts w)
              (after_tasks env opts (enumerated env opts w)
                 (start env opts w))) as [H2 _].
  assert (writes_within (written_paths env opts (enumerated env opts w)) w
            (world (finish env opts (enumerated env opts w)
                      (after_tasks env opts (enumerated env opts w)
                         (start env opts w))).2)) as H.
  { eapply writes_within_trans; [| |exact H1|exact H2];
      intros p Hp; apply in_or_app; auto. }
  exact H.
Qed.

(** *** The trace of a run *)

(** What the task of [abs] adds to the events: nothing when it skips, its
    trace when it processes to the end, a first part of its trace when a
    step throws. *)
Lemma task_trace_spec (abs : string) (r : Run) :
  exists l, events (task env opts abs r).2 = (events r ++ l)%list
            /\ l `prefix_of` task_trace env opts abs
            /\ (skip (skip_check env opts abs r) = true -> l = [])
            /\ (skip (skip_check env opts abs r) = false ->
                (task_body env opts abs
                   (path_relative env (input opts) abs) r).1 = Ok tt ->
                l = task_trace env opts abs).
Proof.
  destruct (skip (skip_check env opts abs r)) eqn:Hskip.
  { destruct (task_skipping env opts abs r Hskip) as (es & ->).
    exists []. cbn [snd events]. rewrite List.app_nil_r.
    split; [done|]. split; [apply prefix_nil|done]. }
  unfold skip_check, expected_outputs, file_result in Hskip.
  cbn [file_out] in Hskip.
  unfold task, try_catch, task_body.
  fold (out_base env opts abs) in Hskip |- *.
  set (rel := path_relative env (input opts) abs) in *.
  unfold push_skipped, push_cached, push_result, set_manifest, set_cache,
    modify, gets, lift, mbind, M_bind, mret, M_ret.
  cbn beta iota zeta. rewrite Hskip.
  destruct (process_sizes env opts abs rel (out_base env opts abs) r)
    as [res r1] eqn:Hp.
  rewrite process_sizes_flat in Hp.
  destruct (variants_trace env opts _ _ _ _ _ _ _ Hp) as (l & He & Hpre & Hfull).
  exists l. fold (task_trace env opts abs) in Hpre, Hfull.
  destruct res as [es|e];
    cbn [fst snd world events cache results skippedFiles cachedFiles manifest
         processedCount].
  - rewrite (Hfull (ex_intro _ es eq_refl)) in *.
    destruct (dryRun_ opts);
      cbn [fst snd world events cache results skippedFiles cachedFiles
           manifest processedCount]; [done|].
    destruct (stat env (world r1) abs) as [st|e];
      cbn [fst snd world events cache results skippedFiles cachedFiles
           manifest processedCount]; done.
  - split; [done|]. split; [done|]. split; [done|]. by intros _ [=].
Qed.

(** The events of the tasks of a run, file by file. *)
Lemma tasks_trace (files : list string) (r : Run) :
  exists traces,
    events (after_tasks env opts files r) = (events r ++ concat traces)%list
    /\ Forall2 (fun abs l => l `prefix_of` task_trace env opts abs)
         files traces
    /\ (force_ opts = true ->
        Forall (fun o => o = None) (thrown env opts files r) ->
        traces = task_trace env opts <$> files).
Proof.
  revert r. induction files as [|abs files IH]; intros r.
  { exists []. cbn [after_tasks concat]. rewrite List.app_nil_r.
    split; [done|]. split; [constructor|done]. }
  destruct (task_trace_spec abs r) as (l & He & Hpre & _ & Hfull).
  destruct (IH (task env opts abs r).2) as (traces & Hes & Hall & Hforce).
  exists (l :: traces). cbn [after_tasks concat thrown].
  split; [by rewrite Hes, He, List.app_assoc|].
  split; [by constructor|].
  intros Hf Hnone. inversion Hnone as [|? ? Hnone1 Hnone2]; subst.
  cbn [fmap list_fmap]. f_equal; [|by apply Hforce].
  apply Hfull.
  - unfold skip_check, shouldSkipFile. by rewrite Hf.
  - by destruct (task_body _ _ _ _ r).1 as [[]|e].
Qed.

(** The events of a run. *)
Lemma imgx_trace_spec (w : World) :
  exists traces c,
    (imgx env opts w).2 = (concat traces ++ c)%list
    /\ Forall2 (fun abs l => l `prefix_of` task_trace env opts abs)
         (enumerated env opts w) traces
    /\ Forall (closing env opts) c
    /\ (force_ opts = true ->
        (exists res, (imgx env opts w).1.1 = Ok res) ->
        Forall (fun o => o = None)
          (thrown env opts (enumerated env opts w) (start env opts w)) ->
        traces = task_trace env opts <$> enumerated env opts w).
Proof.
  destruct (tasks_trace (enumerated env opts w) (start env opts w))
    as (traces & He & Hall & Hforce).
  destruct (finish_writes env opts (enumerated env opts w)
              (after_tasks env opts (enumerated env opts w)
                 (start env opts w))) as [_ (c & Hc & Hclosing)].
  rewrite He in Hc. cbn [events start app] in Hc.
  destruct (imgx_cases env opts w) as [(_ & -> & Hres)|(_ & _ & _ & ->)].
  - exists (replicate (length (enumerated env opts w)) []), [].
    split; [|split; [|split; [constructor|] ] ].
    + clear. by induction (enumerated env opts w).
    + clear. induction (enumerated env opts w); constructor; [|done].
      apply prefix_nil.
    + intros _ [res Hok] _.
      destruct Hres as [[e Herr]|[Hnil _]]; [congruence|]. by rewrite Hnil.
  - exists traces, c. cbn [snd]. split; [done|]. split; [done|].
    split; [done|]. intros Hf _ Hnone. by apply Hforce.
Qed.

(** A task that does not skip leaves [cached] as it was. *)
Lemma task_processing_cached (abs : string) (r : Run) :
  skip (skip_check env opts abs r) = false ->
  cachedFiles (task env opts abs r).2 = cachedFiles r.
Proof.
  intros Hskip. unfold skip_check, expected_outputs, file_result in Hskip.
  cbn [file_out] in Hskip.
  unfold task, try_catch, task_body.
  set (rel := path_relative env (input opts) abs) in *.
  set (outBase := path_join env (output opts) (Str.strip_ext rel)) in *.
  unfold push_skipped, push_cached, push_result, set_manifest, set_cache,
    modify, gets, lift, mbind, M_bind, mret, M_ret.
  cbn beta iota zeta. rewrite Hskip.
  pose proof (world_only_process_sizes env opts abs rel outBase r) as [Hh _].
  destruct (process_sizes env opts abs rel outBase r) as [[es|e] r1];
    cbn [snd] in Hh; destruct Hh as (_ & _ & _ & Hc & _);
    cbn [fst snd world events cache results skippedFiles cachedFiles manifest
         processedCount]; [|done].
  destruct (dryRun_ opts);
    cbn [fst snd world events cache results skippedFiles cachedFiles manifest
         processedCount]; [done|].
  by destruct (stat env (world r1) abs) as [st|e].
Qed.

Lemma tasks_forced (files : list string) (r : Run) :
  force_ opts = true ->
  cachedFiles (after_tasks env opts files r) = cachedFiles r.
Proof.
  intros Hf. revert r. induction files as [|abs files IH]; intros r; [done|].
  cbn [after_tasks]. rewrite IH. apply task_processing_cached.
  unfold skip_check, shouldSkipFile. by rewrite Hf.
Qed.

(** A forced run in which no input is skipped for an error, its tasks
    being run one after the other. *)
Lemma forced_run_spec (w w' : World) (res : ImgxResult)
    (evs : list Event) :
  force_ opts = true ->
  imgx env opts w = (Ok res, w', evs) ->
  r_skipped res = [] ->
  r_cached res = []
  /\ exists c, evs = (concat (task_trace env opts <$> enumerated env opts w)
                        ++ c)%list
               /\ Forall (closing env opts) c.
Proof.
  intros Hf Hrun Hskipped.
  destruct (imgx_trace_spec w) as (traces & c & He & _ & Hc & Hforce).
  rewrite Hrun in He. cbn [snd] in He. pose proof Hrun as Hrun0.
  apply imgx_result in Hrun
    as [(Hnil & -> & _ & _)|(r & r' & Hr & Hfin & _ & _)].
  { rewrite Hnil in *. split; [done|]. exists c. split; [|done].
    rewrite He, Hforce; [done|done|by rewrite Hrun0; eauto|constructor]. }
  destruct (finish_spec _ _ _ _ _ _ Hfin) as [-> _].
  cbn [r_skipped r_cached] in *.
  assert (Forall (fun o => o = None)
            (thrown env opts (enumerated env opts w) (start env opts w)))
    as Hnone.
  { apply failures_nil.
    pose proof (tasks_skipped env opts (enumerated env opts w)
                  (start env opts w)) as Hs.
    rewrite <-Hr, Hskipped in Hs. cbn [skippedFiles start] in Hs.
    by rewrite List.app_nil_l in Hs. }
  split.
  - subst r. by rewrite tasks_forced.
  - exists c. rewrite He, Hforce; [done|done|by rewrite Hrun0; eauto|done].
Qed.

(** No run asks the AVIF encoder for a quality above 60 or an effort
    above 6: an AVIF pipeline of a run carries the smaller of the quality
    and 60, and the smaller of the effort and 6. *)
Theorem avif_settings_capped (w : World) (p : SharpPipeline) (q e : Z) :
  In (EvSharp p) (imgx env opts w).2 ->
  sp_encoder p = EncAvif q e ->
  q = Z.min (quality_ opts) 60 /\ e = Z.min (effort_ opts) 6
  /\ q <= 60 /\ e <= 6.
Proof.
  intros Hin Henc.
  destruct (imgx_trace_spec w) as (traces & c & He & Hall & Hc & _).
  rewrite He in Hin. apply in_app_or in Hin as [Hin|Hin].
  2:{ rewrite List.Forall_forall in Hc. by destruct (Hc _ Hin). }
  apply in_concat in Hin as (l & Hl & Hin).
  apply list_elem_of_In, list_elem_of_lookup in Hl as [j Hj].
  destruct (Forall2_lookup_r _ _ _ _ _ Hall Hj) as (abs & _ & [k Hk]).
  assert (In (EvSharp p) (task_trace env opts abs)) as Hp.
  { rewrite Hk. apply in_or_app. by left. }
  unfold task_trace in Hp.
  apply list_elem_of_In, list_elem_of_bind in Hp as (v & Hp & _).
  apply list_elem_of_In in Hp. unfold variant_trace in Hp.
  destruct Hp as [?|Hp]; [done|].
  destruct (dryRun_ opts); [done|]. destruct Hp as [[= <-]|[?|[]]]; [|done].
  unfold pipeline, encoder in Henc. cbn [sp_encoder] in Henc.
  destruct v.2; try done. injection Henc as <- <-. lia.
Qed.

End Traces.

Ltac closed_forall :=
  repeat first [ apply List.Forall_nil | apply List.Forall_cons ].

(** The task of the sample input, which nothing was produced for yet. *)
Lemma processed_outputs_written_witness :
  writes_within (expected_outputs Rerun.env Sample.opts Rerun.abs)
    (world Rerun.r0) (world Rerun.r1)
  /\ Forall (written (world Rerun.r1))
       (expected_outputs Rerun.env Sample.opts Rerun.abs)
  /\ exists es,
       manifest Rerun.r1
       = js_set (path_relative Rerun.env (input Sample.opts) Rerun.abs) es
           (manifest Rerun.r0)
       /\ Forall2 (entry_for Rerun.env Sample.opts
                     (out_base Rerun.env Sample.opts Rerun.abs)
                     (path_relative Rerun.env (input Sample.opts) Rerun.abs))
            (variants Sample.opts) es.
Proof.
  apply (processed_outputs_written Rerun.env Sample.opts Rerun.abs Rerun.r0
           Rerun.r1); vm_compute; reflexivity.
Defined.

Lemma processed_then_up_to_date_witness :
  shouldSkipFile Rerun.env (world Rerun.r1) Rerun.abs
    (expected_outputs Rerun.env Sample.opts Rerun.abs)
    (generateSettingsHash Sample.opts) false (cache Rerun.r1)
  = {| skip := true; skip_reason := Some "cached (up to date)" |}.
Proof.
  apply (processed_then_up_to_date Rerun.env Sample.opts Rerun.abs Rerun.r0
           Rerun.r1).
  - vm_compute; reflexivity.
  - vm_compute; reflexivity.
  - vm_compute; reflexivity.
  - eexists. split; [vm_compute; reflexivity|]. vm_compute. reflexivity.
  - vm_compute. intros [H|[]]. discriminate H.
  - vm_compute. discriminate.
  - intros p Hp. reflexivity.
  - vm_compute. discriminate.
Defined.

(** A second run over the world that the first run of the sample left. *)
Lemma second_run_encodes_nothing_witness :
  Forall (closing Rerun.env Sample.opts)
    (imgx Rerun.env Sample.opts Rerun.w1).2
  /\ writes_within [cachePath Rerun.env Sample.opts;
                    manifestPath Rerun.env Sample.opts] Rerun.w1
       (imgx Rerun.env Sample.opts Rerun.w1).1.2
  /\ forall res2, (imgx Rerun.env Sample.opts Rerun.w1).1.1 = Ok res2 ->
       r_skipped res2 = []
       /\ file <$> r_cached res2
          ≡ₚ path_relative Rerun.env (input Sample.opts)
               <$> enumerated Rerun.env Sample.opts Sample.w_fresh
       /\ r_files res2
          ≡ₚ file_result Rerun.env Sample.opts
               <$> enumerated Rerun.env Sample.opts Sample.w_fresh.
Proof.
  eapply (second_run_encodes_nothing Rerun.env Sample.opts Sample.w_fresh
            Rerun.w1).
  - reflexivity.
  - reflexivity.
  - vm_compute. reflexivity.
  - reflexivity.
  - reflexivity.
  - closed_forall. eexists. split; [vm_compute; reflexivity|].
    vm_compute. reflexivity.
  - closed_forall. vm_compute. intros [H|[H|[H|[]]]]; discriminate H.
  - closed_forall. reflexivity.
  - vm_compute. discriminate.
Defined.

Lemma second_run_reports_cached_witness :
  match (imgx Rerun.env Sample.opts Rerun.w1).1.1 with
  | Ok res2 =>
      r_cached res2
      ≡ₚ (fun abs =>
            {| file := path_relative Rerun.env (input Sample.opts) abs;
               reason := "cached (up to date)" |})
           <$> enumerated Rerun.env Sample.opts Sample.w_fresh
  | Throw _ => True
  end.
Proof.
  eapply (second_run_reports_cached Rerun.env Sample.opts Sample.w_fresh
            Rerun.w1).
  - reflexivity.
  - reflexivity.
  - vm_compute. reflexivity.
  - reflexivity.
  - reflexivity.
  - reflexivity.
  - closed_forall. eexists. split; [vm_compute; reflexivity|].
    vm_compute. reflexivity.
  - closed_forall. vm_compute. intros [H|[H|[H|[]]]]; discriminate H.
  - closed_forall. reflexivity.
  - vm_compute. discriminate.
  - vm_compute. reflexivity.
  - reflexivity.
  - vm_compute. discriminate.
  - closed_forall. vm_compute. discriminate.
Defined.

Lemma avif_settings_capped_witness :
  60 = Z.min (quality_ Rerun.forced) 60 /\ 6 = Z.min (effort_ Rerun.forced) 6
  /\ 60 <= 60 /\ 6 <= 6.
Proof.
  apply (avif_settings_capped Rerun.env Rerun.forced Sample.w_fresh
           {| sp_input := Rerun.abs; sp_withMetadata := true;
              sp_width := 1000; sp_height := None;
              sp_withoutEnlargement := true;
              sp_encoder := EncAvif 60 6 |}).
  - vm_compute. do 4 right. left. reflexivity.
  - reflexivity.
Defined.

(** ** Configuration files *)

Section ConfigFacts.

Context (cenv : ConfigEnv).

(** [loadConfig] never hands out a value that its caller could not read a
    property of: what it returns is truthy, be it the empty object. *)
Theorem loadConfig_truthy (w : World) (workingDir : string)
    (customPath : option string) :
  js_truthy (loadConfig cenv w workingDir customPath) = true.
Proof.
  unfold loadConfig. destruct (truthy _); [|done].
  by destruct (js_truthy (loadConfigFile cenv w _)) eqn:H.
Qed.

(** With a custom path the working directory plays no part, and a custom
    file that cannot be accessed gives the empty configuration: the
    configuration files of the working directory are not looked for. *)
Theorem loadConfig_custom_path (w : World) (workingDir workingDir' : string)
    (customPath : string) :
  customPath <> "" ->
  loadConfig cenv w workingDir (Some customPath)
  = loadConfig cenv w workingDir' (Some customPath)
  /\ ((forall u, access cenv w (path_resolve cenv customPath) <> Ok u) ->
      loadConfig cenv w workingDir (Some customPath) = JsObject []).
Proof.
  intros Hne. apply String.eqb_neq in Hne.
  unfold loadConfig, findConfigFile. cbn [truthy default from_option id].
  rewrite Hne. cbn [negb]. split; [done|]. intros Hno.
  destruct (access cenv w (path_resolve cenv customPath)) as [u|e]; [|done].
  by destruct (Hno u).
Qed.

(** Without a custom path, an accessible [imgx.config.json] decides alone:
    [imgx.config.mjs] is not imported, also when the JSON file cannot be
    read, is not JSON, or holds a falsy value, in which cases the
    configuration is empty. *)
Theorem loadConfig_json_first (w : World) (workingDir : string)
    (customPath : option string) :
  let configPath :=
    path_join (run_env cenv) workingDir "imgx.config.json" in
  truthy customPath = false ->
  access cenv w configPath = Ok tt ->
  configPath <> "" ->
  toLowerCase (path_extname (run_env cenv) configPath) = ".json" ->
  loadConfig cenv w workingDir customPath
  = match readFile (run_env cenv) w configPath with
    | Ok content =>
        match JSON_parse cenv content with
        | Ok config => if js_truthy config then config else JsObject []
        | Throw _ => JsObject []
        end
    | Throw _ => JsObject []
    end.
Proof.
  intros configPath Hcustom Haccess Hne Hext.
  apply String.eqb_neq in Hne.
  unfold loadConfig, findConfigFile. rewrite Hcustom.
  cbn [first_accessible]. fold configPath. rewrite Haccess.
  cbn [truthy default from_option id]. rewrite Hne. cbn [negb].
  unfold loadConfigFile, loadConfigFile_body. rewrite Hext.
  cbn [String.eqb Ascii.eqb]. 
  destruct (readFile _ w configPath) as [content|e]; [|done].
  by destruct (JSON_parse cenv content) as [config|e].
Qed.

End ConfigFacts.

Lemma loadConfig_custom_path_witness :
  loadConfig ConfigSample.cenv ConfigSample.w "/proj" (Some "my.config.json")
  = loadConfig ConfigSample.cenv ConfigSample.w "/elsewhere"
      (Some "my.config.json")
  /\ ((forall u, access ConfigSample.cenv ConfigSample.w
                   (path_resolve ConfigSample.cenv "my.config.json")
                 <> Ok u) ->
      loadConfig ConfigSample.cenv ConfigSample.w "/proj"
        (Some "my.config.json") = JsObject []).
Proof.
  apply (loadConfig_custom_path ConfigSample.cenv ConfigSample.w "/proj"
           "/elsewhere" "my.config.json").
  discriminate.
Defined.

Lemma loadConfig_json_first_witness :
  loadConfig ConfigSample.cenv ConfigSample.w "/proj" None
  = match readFile (run_env ConfigSample.cenv) ConfigSample.w
            (path_join (run_env ConfigSample.cenv) "/proj"
               "imgx.config.json") with
    | Ok content =>
        match JSON_parse ConfigSample.cenv content with
        | Ok config => if js_truthy config then config else JsObject []
        | Throw _ => JsObject []
        end
    | Throw _ => JsObject []
    end.
Proof.
  apply (loadConfig_json_first ConfigSample.cenv ConfigSample.w "/proj" None).
  - reflexivity.
  - vm_compute. reflexivity.
  - vm_compute. discriminate.
  - vm_compute. reflexivity.
Defined.


(** ** imgxFromFiles *)

Section FilesFacts.

Context (fenv : Files.FilesEnv) (opts : Files.ImgxFilesOptions).

Lemma files_same_heap_refl (r : Files.FilesRun) : files_same_heap r r.
Proof. by repeat split. Qed.

Lemma files_same_heap_trans (r1 r2 r3 : Files.FilesRun) :
  files_same_heap r1 r2 -> files_same_heap r2 r3 -> files_same_heap r1 r3.
Proof. unfold files_same_heap. intuition congruence. Qed.

(** The codec touches neither the world nor the shared variables. *)
Lemma toBuffer_spec (p : Files.BufferPipeline) (r : Files.FilesRun) :
  Files.f_world (Files.toBuffer fenv p r).2 = Files.f_world r
  /\ files_same_heap r (Files.toBuffer fenv p r).2
  /\ Files.f_events (Files.toBuffer fenv p r).2
     = (Files.f_events r ++ [Files.FvSharp p])%list.
Proof.
  unfold Files.toBuffer, Files.emit, Files.modify, Files.lift, mbind,
    Files.MF_bind.
  simpl. by repeat split.
Qed.

(** One round of the inner loop when nothing goes to disk. *)
Lemma process_output_memory (inputBuffer outBase : string) (size : Z)
    (acc : list Files.ProcessedOutput) (fmt : Format) (r r' : Files.FilesRun)
    (res : Result (list Files.ProcessedOutput)) :
  Files.writeToDisk_ opts = false ->
  Files.process_output fenv opts inputBuffer outBase size acc fmt r
  = (res, r') ->
  Files.f_world r' = Files.f_world r
  /\ files_same_heap r r'
  /\ (exists l, Files.f_events r' = (Files.f_events r ++ l)%list
                /\ Forall is_sharp l)
  /\ forall acc', res = Ok acc' ->
       exists out, acc' = (acc ++ [out])%list /\ in_memory out.
Proof.
  intros Hd. unfold Files.process_output. rewrite Hd. cbv zeta.
  unfold mbind, Files.MF_bind, mret, Files.MF_ret, Files.lift.
  cbn beta iota.
  destruct (toBuffer_spec
              {| Files.bp_input := inputBuffer;
                 Files.bp_withMetadata := Files.stripMetadata_ opts;
                 Files.bp_width := size;
                 Files.bp_height := Files.f_height opts;
                 Files.bp_withoutEnlargement :=
                   Files.withoutEnlargement_ opts;
                 Files.bp_encoder := Files.encoder opts fmt |} r)
    as (Hw & Hh & He).
  assert (exists l, Files.f_events (Files.toBuffer fenv
            {| Files.bp_input := inputBuffer;
               Files.bp_withMetadata := Files.stripMetadata_ opts;
               Files.bp_width := size;
               Files.bp_height := Files.f_height opts;
               Files.bp_withoutEnlargement := Files.withoutEnlargement_ opts;
               Files.bp_encoder := Files.encoder opts fmt |} r).2
            = (Files.f_events r ++ l)%list /\ Forall is_sharp l) as Hev.
  { eexists. split; [exact He|]. by repeat constructor. }
  destruct (Files.toBuffer fenv _ r) as [[buffer|e] r1]; cbn [snd] in *.
  2:{ intros [= <- <-]. done. }
  destruct (sharp_metadata (Files.base_env fenv) buffer) as [metadata|e];
    intros [= <- <-]; (split; [done|]; split; [done|]; split; [done|]).
  - intros acc' [= <-]. eexists. split; [done|]. reflexivity.
  - done.
Qed.

Lemma process_sizes_memory (inputBuffer outBase : string)
    (r r' : Files.FilesRun) (res : Result (list Files.ProcessedOutput)) :
  Files.writeToDisk_ opts = false ->
  Files.process_sizes fenv opts inputBuffer outBase r = (res, r') ->
  Files.f_world r' = Files.f_world r
  /\ files_same_heap r r'
  /\ (exists l, Files.f_events r' = (Files.f_events r ++ l)%list
                /\ Forall is_sharp l)
  /\ forall outs, res = Ok outs -> Forall in_memory outs.
Proof.
  intros Hd. unfold Files.process_sizes.
  assert (Forall in_memory []) as Hnil by constructor.
  revert Hnil. generalize (@nil Files.ProcessedOutput).
  revert r. induction (Files.sizesToProcess opts) as [|size sizes IH];
    intros r acc Hacc.
  { intros [= <- <-]. split; [done|]. split; [apply files_same_heap_refl|].
    split; [exists []; by rewrite List.app_nil_r|]. by intros ? [= <-]. }
  cbn [Files.foldM]. unfold mbind at 1, Files.MF_bind at 1.
  assert (forall fmts acc r r1 res1,
            Forall in_memory acc ->
            Files.foldM (Files.process_output fenv opts inputBuffer outBase
                           size) fmts acc r = (res1, r1) ->
            Files.f_world r1 = Files.f_world r
            /\ files_same_heap r r1
            /\ (exists l, Files.f_events r1 = (Files.f_events r ++ l)%list
                          /\ Forall is_sharp l)
            /\ forall outs, res1 = Ok outs -> Forall in_memory outs) as Hinner.
  { clear -Hd. induction fmts as [|fmt fmts IHf]; intros acc r r1 res1 Hacc.
    { intros [= <- <-]. split; [done|]. split; [apply files_same_heap_refl|].
      split; [exists []; by rewrite List.app_nil_r|]. by intros ? [= <-]. }
    cbn [Files.foldM]. unfold mbind at 1, Files.MF_bind at 1.
    destruct (Files.process_output _ _ _ _ _ _ _ r) as [res0 r0] eqn:H0.
    destruct (process_output_memory _ _ _ _ _ _ _ _ Hd H0)
      as (Hw0 & Hh0 & (l0 & He0 & Hl0) & Hok0).
    destruct res0 as [acc0|e].
    - intros H1. destruct (Hok0 acc0 eq_refl) as (out & -> & Hout).
      assert (Forall in_memory (acc ++ [out])) as Hacc'.
      { apply Forall_app. split; [done|]. by repeat constructor. }
      destruct (IHf _ _ _ _ Hacc' H1)
        as (Hw1 & Hh1 & (l1 & He1 & Hl1) & Hok1).
      split; [congruence|]. split; [by eapply files_same_heap_trans|].
      split; [|done]. exists (l0 ++ l1)%list.
      split; [by rewrite He1, He0, List.app_assoc|by apply Forall_app].
    - intros [= <- <-]. split; [done|]. split; [done|]. split; [eauto|done]. }
  destruct (Files.foldM _ (Files.formats_ opts) acc r) as [res0 r0] eqn:H0.
  destruct (Hinner _ _ _ _ _ Hacc H0) as (Hw0 & Hh0 & (l0 & He0 & Hl0) & Hok0).
  destruct res0 as [acc0|e].
  - intros H1.
    destruct (IH _ _ (Hok0 acc0 eq_refl) H1)
      as (Hw1 & Hh1 & (l1 & He1 & Hl1) & Hok1).
    split; [congruence|]. split; [by eapply files_same_heap_trans|].
    split; [|done]. exists (l0 ++ l1)%list.
    split; [by rewrite He1, He0, List.app_assoc|by apply Forall_app].
  - intros [= <- <-]. split; [done|]. split; [done|]. split; [eauto|done].
Qed.

End FilesFacts.

Section FilesTasks.

Context (fenv : Files.FilesEnv) (opts : Files.ImgxFilesOptions).

#[local] Existing Instances Files.MF_ret Files.MF_bind.

Lemma settingsHash_nonempty (o : ImgxOptions) : generateSettingsHash o <> "".
Proof.
  unfold generateSettingsHash, SHA1.hex, SHA1.hex_state.
  generalize (SHA1.digest (JSON.object (settings o))). intros s.
  unfold SHA1.hex_word at 1. cbn [map string_of_list_ascii String.app].
  discriminate.
Qed.

Lemma heap_only_ret {A : Type} (a : A) : heap_only (mret a).
Proof. intros r. apply files_same_heap_refl. Qed.

Lemma heap_only_bind {A B : Type} (m : Files.MF A) (f : A -> Files.MF B) :
  heap_only m -> (forall a, heap_only (f a)) -> heap_only (m ≫= f).
Proof.
  intros Hm Hf r. unfold mbind, Files.MF_bind.
  pose proof (Hm r) as H1. destruct (m r) as [[a|e] r1]; cbn [snd] in *.
  - eapply files_same_heap_trans; [exact H1|apply Hf].
  - done.
Qed.

Lemma heap_only_foldM {A B : Type} (f : B -> A -> Files.MF B)
    (l : list A) (b : B) :
  (forall b a, heap_only (f b a)) -> heap_only (Files.foldM f l b).
Proof.
  intros Hf. revert b. induction l as [|a l IH]; intros b; cbn [Files.foldM].
  - apply heap_only_ret.
  - apply heap_only_bind; [apply Hf|]. intros b'. apply IH.
Qed.

Lemma heap_only_mkdir (dir : string) : heap_only (Files.mkdir fenv dir).
Proof.
  intros r. unfold Files.mkdir, Files.emit, Files.modify, Files.gets,
    Files.throw, Files.set_world, mbind, Files.MF_bind, mret, Files.MF_ret.
  simpl. destruct (fs_fault _ _); [by repeat split|].
  destruct (fs (Files.f_world r) !! dir) as [[[] ? ?]|]; by repeat split.
Qed.

Lemma heap_only_writeFile (ev : Files.FilesEvent) (p data : string) :
  heap_only (Files.writeFile fenv ev p data).
Proof.
  intros r. unfold Files.writeFile, Files.emit, Files.modify, Files.gets,
    Files.throw, Files.set_world, mbind, Files.MF_bind.
  simpl. destruct (fs_fault _ _); [by repeat split|].
  destruct (fs (Files.f_world r) !! p) as [[[] ? ?]|]; by repeat split.
Qed.

Lemma heap_only_toBuffer (p : Files.BufferPipeline) :
  heap_only (Files.toBuffer fenv p).
Proof. intros r. by destruct (toBuffer_spec fenv p r) as (_ & ? & _). Qed.

Lemma heap_only_lift {A : Type} (x : Result A) : heap_only (Files.lift x).
Proof. intros r. apply files_same_heap_refl. Qed.

Lemma heap_only_process_sizes (inputBuffer outBase : string) :
  heap_only (Files.process_sizes fenv opts inputBuffer outBase).
Proof.
  unfold Files.process_sizes. apply heap_only_foldM. intros acc size.
  apply heap_only_foldM. intros acc' fmt. unfold Files.process_output.
  apply heap_only_bind.
  { destruct (Files.writeToDisk_ opts);
      [apply heap_only_mkdir|apply heap_only_ret]. }
  intros _. apply heap_only_bind; [apply heap_only_toBuffer|]. intros buffer.
  apply heap_only_bind.
  { destruct (Files.writeToDisk_ opts);
      [apply heap_only_writeFile|apply heap_only_ret]. }
  intros _. apply heap_only_bind; [apply heap_only_lift|]. intros metadata.
  apply heap_only_ret.
Qed.

(** A task never throws; it pushes its input to [processedFiles], to
    [skipped], or (an input found up to date, with its buffers) to
    both. *)
Lemma files_task_spec (index : nat) (x : Files.ImgxFileInput)
    (r : Files.FilesRun) :
  exists r' l1 l2,
    Files.task fenv opts index x r = (Ok tt, r')
    /\ Files.processedFiles r' = (Files.processedFiles r ++ l1)%list
    /\ Files.f_skippedFiles r' = (Files.f_skippedFiles r ++ l2)%list
    /\ files_pushed fenv opts index x l1 l2.
Proof.
  unfold Files.task, Files.try_catch, Files.task_body, files_pushed.
  unfold mbind at 1 2, Files.MF_bind at 1 2, Files.gets, Files.lift.
  cbn beta iota.
  destruct (Files.read_input fenv (Files.f_world r) index x)
    as [[[originalPath originalIdentifier] inputBuffer]|e] eqn:Hread.
  2:{ unfold Files.push_skipped, Files.modify.
      eexists _, [], [_]. split; [reflexivity|].
      cbn [Files.processedFiles Files.f_skippedFiles].
      rewrite List.app_nil_r.
      split; [done|]. split; [done|]. cbn [length].
      repeat split; try lia. by repeat constructor. }
  assert (originalIdentifier = Files.identifier fenv index x) as Hid.
  { unfold Files.read_input in Hread. destruct x as [p|data]; cbn.
    - destruct (readFile _ _ p); [|done]. by injection Hread as _ <- _.
    - by injection Hread as _ <- _. }
  cbn beta iota zeta.
  set (outBase := if Files.has_output opts then _ else _).
  unfold mbind at 1, Files.MF_bind at 1. cbn beta iota.
  destruct (Files.checks_cache opts && skip _) eqn:Hskip.
  - (* the input is up to date *)
    apply andb_prop in Hskip as [Hcc _].
    unfold Files.push_skipped, Files.push_processed, Files.modify, mbind,
      Files.MF_bind, mret, Files.MF_ret.
    cbn beta iota.
    destruct (if Files.returnBuffers_ opts then _ else _) as [|out outs].
    + eexists _, [], [_]. split; [reflexivity|].
      cbn [Files.processedFiles Files.f_skippedFiles].
      rewrite List.app_nil_r.
      split; [done|]. split; [done|]. cbn [length].
      repeat split; try lia. repeat constructor. done.
    + eexists _, [_], [_]. split; [reflexivity|].
      cbn [Files.processedFiles Files.f_skippedFiles].
      split; [done|]. split; [done|]. cbn [length].
      repeat split; try lia; [congruence|]. repeat constructor. done.
  - (* the input is processed *)
    unfold mbind at 1, Files.MF_bind at 1.
    pose proof (heap_only_process_sizes inputBuffer outBase r) as Hh.
    destruct (Files.process_sizes fenv opts inputBuffer outBase r)
      as [[outs|e] r1]; cbn [snd] in Hh;
      destruct Hh as (_ & Hp & Hs & _).
    2:{ unfold Files.push_skipped, Files.modify.
        eexists _, [], [_]. split; [reflexivity|].
        cbn [Files.processedFiles Files.f_skippedFiles].
        rewrite List.app_nil_r, Hp, Hs.
        split; [done|]. split; [done|]. cbn [length].
        repeat split; try lia. by repeat constructor. }
    unfold Files.push_processed, Files.set_manifest, Files.set_cache,
      Files.modify, Files.gets, mbind, Files.MF_bind, mret, Files.MF_ret.
    cbn beta iota.
    cbn [Files.f_world Files.f_events Files.f_cache Files.processedFiles
         Files.f_skippedFiles Files.f_manifest].
    assert (forall r2 : Files.FilesRun,
              Files.processedFiles r2
              = (Files.processedFiles r1
                   ++ [{| Files.originalPath := originalPath;
                          Files.originalIdentifier := originalIdentifier;
                          Files.outputs := outs |}])%list ->
              Files.f_skippedFiles r2 = Files.f_skippedFiles r1 ->
              exists r' l1 l2,
                (@Ok unit tt, r2) = (Ok tt, r')
                /\ Files.processedFiles r' = (Files.processedFiles r ++ l1)%list
                /\ Files.f_skippedFiles r'
                   = (Files.f_skippedFiles r ++ l2)%list
                /\ (length l1 <= 1)%nat /\ (length l2 <= 1)%nat
                /\ (1 <= length l1 + length l2)%nat
                /\ (Files.checks_cache opts = false ->
                    (length l1 + length l2 = 1)%nat)
                /\ Forall (fun s => file s = Files.identifier fenv index x)
                     l2) as Hdone.
    { intros r2 H1 H2. exists r2. eexists [_], [].
      rewrite H1, H2, Hp, Hs, List.app_nil_r.
      split; [done|]. split; [done|]. split; [done|]. cbn [length].
      repeat split; try lia. constructor. }
    destruct (Files.checks_cache opts && Files.is_path x).
    + destruct (stat _ _ originalPath) as [st|e];
        cbn [Files.f_world Files.f_events Files.f_cache Files.processedFiles
             Files.f_skippedFiles Files.f_manifest]; by apply Hdone.
    + by apply Hdone.
Qed.

End FilesTasks.

Section FilesRuns.

Context (fenv : Files.FilesEnv) (opts : Files.ImgxFilesOptions).

#[local] Existing Instances Files.MF_ret Files.MF_bind.

Lemma files_for_each (index : nat) (l : list Files.ImgxFileInput)
    (r : Files.FilesRun) :
  Files.for_each_from index l (Files.task fenv opts) r
  = (Ok tt, files_after_tasks fenv opts index l r).
Proof.
  revert index r. induction l as [|x l IH]; intros index r; [done|].
  cbn [Files.for_each_from files_after_tasks]. unfold mbind, Files.MF_bind.
  destruct (files_task_spec fenv opts index x r) as (r' & _ & _ & -> & _).
  apply IH.
Qed.

Lemma checks_cache_to_disk : Files.checks_cache opts = Files.to_disk opts.
Proof.
  unfold Files.checks_cache, Files.settingsHash.
  pose proof (settingsHash_nonempty (Files.tempOpts opts)) as H.
  apply String.eqb_neq in H. rewrite H. apply andb_true_r.
Qed.

(** What the tasks of a call add to the two lists. *)
Lemma files_tasks_pushed (index : nat) (l : list Files.ImgxFileInput)
    (r : Files.FilesRun) :
  exists L1 L2,
    Files.processedFiles (files_after_tasks fenv opts index l r)
    = (Files.processedFiles r ++ L1)%list
    /\ Files.f_skippedFiles (files_after_tasks fenv opts index l r)
       = (Files.f_skippedFiles r ++ L2)%list
    /\ (length L1 <= length l)%nat /\ (length L2 <= length l)%nat
    /\ (length l <= length L1 + length L2)%nat
    /\ (Files.to_disk opts = false ->
        (length L1 + length L2 = length l)%nat).
Proof.
  revert index r. induction l as [|x l IH]; intros index r.
  { exists [], []. rewrite !List.app_nil_r. cbn [length]. repeat split; lia. }
  cbn [files_after_tasks].
  destruct (files_task_spec fenv opts index x r)
    as (r' & l1 & l2 & -> & Hp & Hs & H1 & H2 & H3 & H4 & _).
  cbn [snd].
  destruct (IH (S index) r') as (L1 & L2 & Hp' & Hs' & H1' & H2' & H3' & H4').
  exists (l1 ++ L1)%list, (l2 ++ L2)%list.
  rewrite Hp', Hs', Hp, Hs, <-!List.app_assoc, !List.length_app.
  cbn [length]. rewrite checks_cache_to_disk in H4.
  repeat split; try lia. intros Hd. specialize (H4 Hd). specialize (H4' Hd).
  lia.
Qed.

(** The end of a call. *)
Lemma files_finish_spec (r : Files.FilesRun) :
  match Files.finish fenv opts r with
  | (Ok res, r') =>
      res = {| Files.fr_processed :=
                 Z.of_nat (length (Files.processedFiles r));
               Files.fr_processedFiles := Files.processedFiles r;
               Files.fr_skipped := Files.f_skippedFiles r;
               Files.fr_totalFound :=
                 Z.of_nat (length (Files.f_files opts));
               Files.fr_manifest :=
                 if (0 <? size (Files.f_manifest r))%nat
                 then Some (Files.f_manifest r) else None |}
  | (Throw e, _) =>
      Files.to_disk opts = true
      /\ exists ev p data r0 r1,
           In p [Files.cachePath fenv opts; Files.manifestPath fenv opts]
           /\ Files.writeFile fenv ev p data r0 = (Throw e, r1)
  end
  /\ (Files.to_disk opts = false ->
      Files.finish fenv opts r
      = (Ok {| Files.fr_processed :=
                 Z.of_nat (length (Files.processedFiles r));
               Files.fr_processedFiles := Files.processedFiles r;
               Files.fr_skipped := Files.f_skippedFiles r;
               Files.fr_totalFound :=
                 Z.of_nat (length (Files.f_files opts));
               Files.fr_manifest :=
                 if (0 <? size (Files.f_manifest r))%nat
                 then Some (Files.f_manifest r) else None |}, r)).
Proof.
  unfold Files.finish.
  unfold mbind, Files.MF_bind, Files.gets, mret, Files.MF_ret.
  cbn beta iota.
  destruct (Files.to_disk opts) eqn:Hd; cbn [andb]; [|by split].
  split; [|done].
  assert (forall ev p data r0,
            files_same_heap r0 (Files.writeFile fenv ev p data r0).2) as Hh.
  { intros. apply heap_only_writeFile. }
  assert (forall (ev : Files.FilesEvent) (p data : string)
                 (r0 : Files.FilesRun),
            In p [Files.cachePath fenv opts; Files.manifestPath fenv opts] ->
            match Files.writeFile fenv ev p data r0 with
            | (Ok _, r1) => files_same_heap r0 r1
            | (Throw e, _) =>
                exists ev p data r0 r1,
                  In p [Files.cachePath fenv opts;
                        Files.manifestPath fenv opts]
                  /\ Files.writeFile fenv ev p data r0 = (Throw e, r1)
            end) as Hw.
  { intros ev p data r0 Hp.
    pose proof (Hh ev p data r0) as H0.
    destruct (Files.writeFile fenv ev p data r0) as [[[]|e] r1] eqn:Hwr;
      [done|]. eauto 10. }
  destruct (negb (String.eqb (Files.cachePath fenv opts) "")).
  - pose proof (Hw (Files.FvSaveCache (Files.cachePath fenv opts))
                  (Files.cachePath fenv opts)
                  (JSON_stringify_cache (Files.base_env fenv)
                     (Files.f_cache r)) r (or_introl eq_refl)) as H1.
    destruct (Files.writeFile fenv _ _ _ r) as [[[]|e] r1]; [|by split].
    destruct H1 as (_ & Hp1 & Hs1 & Hm1). rewrite Hm1.
    destruct (0 <? size (Files.f_manifest r))%nat.
    + pose proof (Hw (Files.FvWriteManifest (Files.manifestPath fenv opts))
                    (Files.manifestPath fenv opts)
                    (JSON_stringify_manifest (Files.base_env fenv)
                       (Files.f_manifest r)) r1
                    (or_intror (or_introl eq_refl))) as H2.
      destruct (Files.writeFile fenv _ _ _ r1) as [[[]|e] r2]; [|by split].
      destruct H2 as (_ & Hp2 & Hs2 & _). cbn [id].
      by rewrite Hp2, Hs2, Hp1, Hs1.
    + cbn [id]. by rewrite Hp1, Hs1.
  - destruct (0 <? size (Files.f_manifest r))%nat; [|done].
    pose proof (Hw (Files.FvWriteManifest (Files.manifestPath fenv opts))
                  (Files.manifestPath fenv opts)
                  (JSON_stringify_manifest (Files.base_env fenv)
                     (Files.f_manifest r)) r
                  (or_intror (or_introl eq_refl))) as H2.
    destruct (Files.writeFile fenv _ _ _ r) as [[[]|e] r2]; [|by split].
    destruct H2 as (_ & Hp2 & Hs2 & _). cbn [id]. by rewrite Hp2, Hs2.
Qed.

Lemma imgxFromFiles_run (w : World) :
  Files.imgxFromFiles fenv opts w
  = if Files.writeToDisk_ opts && negb (Files.has_output opts) then
      (Throw output_required, w, [])
    else
      match Files.configure fenv opts with
      | Throw e => (Throw e, w, [])
      | Ok _ =>
          match Files.f_files opts with
          | [] =>
              (Ok {| Files.fr_processed := 0; Files.fr_processedFiles := [];
                     Files.fr_skipped := []; Files.fr_totalFound := 0;
                     Files.fr_manifest := None |}, w, [])
          | l =>
              match
                pLimit (Files.base_env fenv) (Files.concurrency_ fenv opts)
              with
              | Throw e => (Throw e, w, [])
              | Ok _ =>
                  let '(res, r) :=
                    Files.finish fenv opts
                      (files_after_tasks fenv opts 0 l
                         (Files.start fenv opts w)) in
                  (res, Files.f_world r, Files.f_events r)
              end
          end
      end.
Proof.
  unfold Files.imgxFromFiles.
  destruct (Files.writeToDisk_ opts && negb (Files.has_output opts)); [done|].
  destruct (Files.configure fenv opts) as [[]|e]; [|done].
  destruct (Files.f_files opts) as [|x l]; [done|].
  destruct (pLimit _ _) as [[]|e]; [|done].
  unfold mbind at 1, Files.MF_bind at 1. by rewrite files_for_each.
Qed.

(** A call that does not get as far as its tasks does nothing; a call
    that does is its tasks followed by its end. *)
Lemma imgxFromFiles_cases (w : World) :
  ((Files.imgxFromFiles fenv opts w).1.2 = w
   /\ (Files.imgxFromFiles fenv opts w).2 = []
   /\ ((exists e, (Files.imgxFromFiles fenv opts w).1.1 = Throw e)
       \/ (Files.f_files opts = []
           /\ (Files.imgxFromFiles fenv opts w).1.1
              = Ok {| Files.fr_processed := 0; Files.fr_processedFiles := [];
                      Files.fr_skipped := []; Files.fr_totalFound := 0;
                      Files.fr_manifest := None |})))
  \/ (Files.f_files opts <> []
      /\ Files.imgxFromFiles fenv opts w
         = ((Files.finish fenv opts
               (files_after_tasks fenv opts 0 (Files.f_files opts)
                  (Files.start fenv opts w))).1,
            Files.f_world
              (Files.finish fenv opts
                 (files_after_tasks fenv opts 0 (Files.f_files opts)
                    (Files.start fenv opts w))).2,
            Files.f_events
              (Files.finish fenv opts
                 (files_after_tasks fenv opts 0 (Files.f_files opts)
                    (Files.start fenv opts w))).2)).
Proof.
  rewrite imgxFromFiles_run.
  destruct (Files.writeToDisk_ opts && negb (Files.has_output opts));
    [left; eauto|].
  destruct (Files.configure fenv opts) as [[]|e]; [|left; eauto].
  destruct (Files.f_files opts) as [|x l]; [left; eauto 6|].
  destruct (pLimit _ _) as [[]|e]; [|left; eauto].
  right. split; [done|]. cbv zeta.
  by destruct (Files.finish fenv opts _) as [res r'].
Qed.

(** The counts of a result of [imgxFromFiles]: every input is in
    [processedFiles], in [skipped], or in both, and in exactly one of
    them when nothing goes to disk. *)
Theorem files_result_counts (w w' : World) (res : Files.ImgxFilesResult)
    (evs : list Files.FilesEvent) :
  Files.imgxFromFiles fenv opts w = (Ok res, w', evs) ->
  Files.fr_totalFound res = Z.of_nat (length (Files.f_files opts))
  /\ Files.fr_processed res
     = Z.of_nat (length (Files.fr_processedFiles res))
  /\ (length (Files.fr_processedFiles res) <= length (Files.f_files opts))%nat
  /\ (length (Files.fr_skipped res) <= length (Files.f_files opts))%nat
  /\ (length (Files.f_files opts)
      <= length (Files.fr_processedFiles res)
         + length (Files.fr_skipped res))%nat
  /\ (Files.to_disk opts = false ->
      (length (Files.fr_processedFiles res) + length (Files.fr_skipped res)
       = length (Files.f_files opts))%nat).
Proof.
  rewrite imgxFromFiles_run.
  destruct (Files.writeToDisk_ opts && negb (Files.has_output opts)); [done|].
  destruct (Files.configure fenv opts) as [[]|e0]; [|done].
  destruct (Files.f_files opts) as [|x l] eqn:Hfiles.
  { intros [= <- _ _]. cbn. repeat split; lia. }
  destruct (pLimit _ _) as [[]|e0]; [|done].
  cbv zeta.
  destruct (files_tasks_pushed 0 (x :: l) (Files.start fenv opts w))
    as (L1 & L2 & Hp & Hs & H1 & H2 & H3 & H4).
  destruct (files_finish_spec
              (files_after_tasks fenv opts 0 (x :: l)
                 (Files.start fenv opts w))) as [Hfin _].
  destruct (Files.finish fenv opts _) as [[res0|e] r']; [|done].
  intros [= <- _ _]. subst res0.
  cbn [Files.fr_totalFound Files.fr_processed Files.fr_processedFiles
       Files.fr_skipped].
  rewrite Hp, Hs, Hfiles. cbn [Files.processedFiles Files.f_skippedFiles
    Files.start app]. repeat split; try done.
Qed.

(** [imgxFromFiles] rejects in these cases only: at once, with the
    validation message, when it is to write to disk and has no output
    directory; before any task, with what [sharp.cache] or
    [sharp.concurrency] throws, or, when there is an input, with what
    [pLimit] throws; in these cases nothing is done.  Or at its end, with
    the error of [fs.writeFile], when the cache file or the manifest file
    cannot be written.  The failure of an input never makes the call
    reject. *)
Theorem files_rejections (w w' : World) (e : Error)
    (evs : list Files.FilesEvent) :
  Files.imgxFromFiles fenv opts w = (Throw e, w', evs) ->
  (Files.writeToDisk_ opts = true /\ Files.has_output opts = false
   /\ e = output_required /\ w' = w /\ evs = [])
  \/ ((sharp_cache (Files.base_env fenv) (Files.sharpCacheFiles_ opts)
       = Throw e
       \/ sharp_concurrency (Files.base_env fenv)
            (Files.concurrency_ fenv opts) = Throw e
       \/ (Files.f_files opts <> []
           /\ pLimit (Files.base_env fenv) (Files.concurrency_ fenv opts)
              = Throw e))
      /\ w' = w /\ evs = [])
  \/ (Files.to_disk opts = true
      /\ exists ev p data r0 r1,
           In p [Files.cachePath fenv opts; Files.manifestPath fenv opts]
           /\ Files.writeFile fenv ev p data r0 = (Throw e, r1)).
Proof.
  rewrite imgxFromFiles_run.
  destruct (Files.writeToDisk_ opts) eqn:Hw,
    (Files.has_output opts) eqn:Ho; cbn [andb negb].
  2:{ intros [= <- <- <-]. by left. }
  all: unfold Files.configure.
  all: destruct (sharp_cache _ _) as [[]|e1] eqn:Hsc;
         [|intros [= <- <- <-]; right; left; auto].
  all: destruct (sharp_concurrency _ _) as [[]|e1] eqn:Hcc;
         [|intros [= <- <- <-]; right; left; auto].
  all: destruct (Files.f_files opts) as [|x l]; [done|].
  all: destruct (pLimit _ _) as [[]|e1] eqn:Hpl;
         [|intros [= <- <- <-]; right; left; split; [|done];
           right; right; by split].
  all: cbv zeta.
  all: match goal with
       | |- context [Files.finish fenv opts ?r] =>
           destruct (files_finish_spec r) as [Hfin _];
           destruct (Files.finish fenv opts r) as [[res0|e0] r']; [done|]
       end.
  all: intros [= <- _ _]; by right; right.
Qed.

End FilesRuns.

Section FilesModes.

Context (fenv : Files.FilesEnv) (opts : Files.ImgxFilesOptions).

#[local] Existing Instances Files.MF_ret Files.MF_bind.

(** A task when nothing goes to disk. *)
Lemma files_task_memory (index : nat) (x : Files.ImgxFileInput)
    (r : Files.FilesRun) :
  Files.writeToDisk_ opts = false ->
  all_in_memory r ->
  Files.f_world (Files.task fenv opts index x r).2 = Files.f_world r
  /\ (exists l, Files.f_events (Files.task fenv opts index x r).2
                = (Files.f_events r ++ l)%list
                /\ Forall is_sharp l)
  /\ all_in_memory (Files.task fenv opts index x r).2.
Proof.
  intros Hd [Hpf Hman].
  assert (Files.checks_cache opts = false) as Hcc.
  { unfold Files.checks_cache, Files.to_disk. rewrite Hd.
    by rewrite andb_false_r. }
  assert (exists l, Files.f_events r = (Files.f_events r ++ l)%list
                    /\ Forall is_sharp l) as Hnil.
  { exists []. by rewrite List.app_nil_r. }
  destruct (Files.task fenv opts index x r) as [res0 r'] eqn:Ht.
  cbn [snd]. revert Ht.
  unfold Files.task, Files.try_catch, Files.task_body.
  unfold mbind at 1 2, Files.MF_bind at 1 2, Files.gets, Files.lift.
  cbn beta iota.
  destruct (Files.read_input fenv (Files.f_world r) index x)
    as [[[originalPath originalIdentifier] inputBuffer]|e] eqn:Hread.
  2:{ unfold Files.push_skipped, Files.modify. intros [= _ <-].
      cbn [Files.f_world Files.f_events]. split; [done|].
      split; [done|]. by split. }
  cbn beta iota zeta. rewrite Hcc. cbn [andb].
  set (outBase := if Files.has_output opts then _ else _).
  unfold mbind at 1, Files.MF_bind at 1. cbn beta iota.
  unfold mbind at 1, Files.MF_bind at 1.
  destruct (Files.process_sizes fenv opts inputBuffer outBase r)
    as [res r1] eqn:Hp.
  destruct (process_sizes_memory fenv opts _ _ _ _ _ Hd Hp)
    as (Hw & (Hc & Hpr & Hs & Hm) & Hev & Hout).
  destruct res as [outs|e].
  2:{ unfold Files.push_skipped, Files.modify. intros [= _ <-].
      cbn [Files.f_world Files.f_events]. split; [done|].
      split; [done|]. split; cbn [Files.processedFiles Files.f_manifest].
      - by rewrite Hpr.
      - by rewrite Hm. }
  unfold Files.push_processed, Files.set_manifest, Files.modify, mbind,
    Files.MF_bind, mret, Files.MF_ret.
  cbn beta iota. intros [= _ <-].
  cbn [Files.f_world Files.f_events Files.f_cache Files.processedFiles
       Files.f_skippedFiles Files.f_manifest].
  split; [done|]. split; [done|]. split;
    cbn [Files.f_world Files.f_events Files.f_cache Files.processedFiles
         Files.f_skippedFiles Files.f_manifest].
  - rewrite Hpr. apply Forall_app. split; [done|].
    constructor; [|constructor]. by apply Hout.
  - intros k es. rewrite Hm. unfold js_set.
    destruct (String.eqb originalIdentifier "__proto__"); [apply Hman|].
    destruct (decide (k = originalIdentifier)) as [->|Hne].
    + rewrite lookup_insert_eq. intros [= <-].
      apply Forall_fmap. eapply List.Forall_impl; [|exact (Hout outs eq_refl)].
      intros out Ho. unfold Files.manifest_entry. cbn [src].
      rewrite Hd. cbn [andb]. exact Ho.
    + rewrite lookup_insert_ne by done. apply Hman.
Qed.

Lemma files_tasks_memory (index : nat) (l : list Files.ImgxFileInput)
    (r : Files.FilesRun) :
  Files.writeToDisk_ opts = false ->
  all_in_memory r ->
  Files.f_world (files_after_tasks fenv opts index l r) = Files.f_world r
  /\ (exists evs, Files.f_events (files_after_tasks fenv opts index l r)
                  = (Files.f_events r ++ evs)%list
                  /\ Forall is_sharp evs)
  /\ all_in_memory (files_after_tasks fenv opts index l r).
Proof.
  intros Hd. revert index r. induction l as [|x l IH]; intros index r Hr.
  { split; [done|]. split; [|done]. exists []. by rewrite List.app_nil_r. }
  cbn [files_after_tasks].
  destruct (files_task_memory index x r Hd Hr) as (Hw & (l1 & He & Hl1) & Hr').
  destruct (IH (S index) _ Hr') as (Hw' & (l2 & He' & Hl2) & Hr'').
  split; [congruence|]. split; [|done]. exists (l1 ++ l2)%list.
  split; [by rewrite He', He, List.app_assoc|by apply Forall_app].
Qed.

(** With [writeToDisk: false] a call of [imgxFromFiles] whose options
    sharp and [pLimit] accept returns; it makes no directory and writes no
    file, so that the file system is left as it was: beside reading the
    inputs that are given as paths, it only calls the codec.  It names no
    path: the outputs it returns and the entries of its manifest carry
    the empty string as their path. *)
Theorem files_in_memory (w : World) :
  Files.writeToDisk opts = Some false ->
  Files.configure fenv opts = Ok tt ->
  pLimit (Files.base_env fenv) (Files.concurrency_ fenv opts) = Ok tt ->
  exists res evs,
    Files.imgxFromFiles fenv opts w = (Ok res, w, evs)
    /\ Forall is_sharp evs
    /\ Forall (fun pf => Forall in_memory (Files.outputs pf))
         (Files.fr_processedFiles res)
    /\ forall m k es, Files.fr_manifest res = Some m -> m !! k = Some es ->
                      Forall (fun e => src e = "") es.
Proof.
  intros Hopt Hconf Hlimit.
  assert (Files.writeToDisk_ opts = false) as Hd
    by (unfold Files.writeToDisk_; by rewrite Hopt).
  assert (Files.to_disk opts = false) as Htd
    by (unfold Files.to_disk; rewrite Hd; apply andb_false_r).
  rewrite imgxFromFiles_run, Hd, Hconf. cbn [andb].
  destruct (Files.f_files opts) as [|x l].
  { eexists _, _. split; [reflexivity|]. cbn. repeat split; try constructor.
    by intros. }
  rewrite Hlimit. cbv zeta.
  assert (all_in_memory (Files.start fenv opts w)) as Hstart.
  { split; [constructor|]. intros k es. cbn. by rewrite lookup_empty. }
  destruct (files_tasks_memory 0 (x :: l) _ Hd Hstart)
    as (Hw & (evs & He & Hevs) & [Hpf Hman]).
  destruct (files_finish_spec fenv opts
              (files_after_tasks fenv opts 0 (x :: l)
                 (Files.start fenv opts w))) as [_ Hfin].
  rewrite (Hfin Htd), Hw, He. cbn [Files.f_world Files.f_events Files.start app].
  eexists _, _. split; [reflexivity|].
  cbn [Files.fr_processedFiles Files.fr_manifest].
  split; [done|]. split; [done|]. intros m k es.
  destruct (0 <? size _)%nat; [|done]. intros [= <-]. apply Hman.
Qed.




End FilesModes.

(** The counts of the sample call that keeps its outputs in memory. *)
Lemma files_result_counts_witness :
  Files.fr_totalFound FilesSample.result
  = Z.of_nat (length (Files.f_files FilesSample.in_memory))
  /\ Files.fr_processed FilesSample.result
     = Z.of_nat (length (Files.fr_processedFiles FilesSample.result))
  /\ (length (Files.fr_processedFiles FilesSample.result)
      <= length (Files.f_files FilesSample.in_memory))%nat
  /\ (length (Files.fr_skipped FilesSample.result)
      <= length (Files.f_files FilesSample.in_memory))%nat
  /\ (length (Files.f_files FilesSample.in_memory)
      <= length (Files.fr_processedFiles FilesSample.result)
         + length (Files.fr_skipped FilesSample.result))%nat
  /\ (Files.to_disk FilesSample.in_memory = false ->
      (length (Files.fr_processedFiles FilesSample.result)
       + length (Files.fr_skipped FilesSample.result)
       = length (Files.f_files FilesSample.in_memory))%nat).
Proof.
  eapply (files_result_counts FilesSample.fenv FilesSample.in_memory
            Sample.w_done).
  vm_compute. reflexivity.
Defined.

(** The sample call without an output directory. *)
Lemma files_rejections_witness :
  (Files.writeToDisk_ FilesSample.no_output = true
   /\ Files.has_output FilesSample.no_output = false
   /\ output_required = output_required /\ Sample.w_done = Sample.w_done
   /\ @nil Files.FilesEvent = [])
  \/ ((sharp_cache (Files.base_env FilesSample.fenv)
         (Files.sharpCacheFiles_ FilesSample.no_output)
       = Throw output_required
       \/ sharp_concurrency (Files.base_env FilesSample.fenv)
            (Files.concurrency_ FilesSample.fenv FilesSample.no_output)
          = Throw output_required
       \/ (Files.f_files FilesSample.no_output <> []
           /\ pLimit (Files.base_env FilesSample.fenv)
                (Files.concurrency_ FilesSample.fenv FilesSample.no_output)
              = Throw output_required))
      /\ Sample.w_done = Sample.w_done /\ @nil Files.FilesEvent = [])
  \/ (Files.to_disk FilesSample.no_output = true
      /\ exists ev p data r0 r1,
           In p [Files.cachePath FilesSample.fenv FilesSample.no_output;
                 Files.manifestPath FilesSample.fenv FilesSample.no_output]
           /\ Files.writeFile FilesSample.fenv ev p data r0
              = (Throw output_required, r1)).
Proof.
  apply (files_rejections FilesSample.fenv FilesSample.no_output
           Sample.w_done Sample.w_done output_required []).
  reflexivity.
Defined.

Lemma files_in_memory_witness :
  exists res evs,
    Files.imgxFromFiles FilesSample.fenv FilesSample.in_memory Sample.w_done
    = (Ok res, Sample.w_done, evs)
    /\ Forall is_sharp evs
    /\ Forall (fun pf => Forall in_memory (Files.outputs pf))
         (Files.fr_processedFiles res)
    /\ forall m k es, Files.fr_manifest res = Some m -> m !! k = Some es ->
                      Forall (fun e => src e = "") es.
Proof.
  apply (files_in_memory FilesSample.fenv FilesSample.in_memory
           Sample.w_done); reflexivity.
Defined.


(** ** Dry runs and the growth of the cache *)

Section DryRuns.

Context (env : Env) (opts : ImgxOptions).

(** In a dry run the loops over sizes and formats produce no manifest
    entry. *)
Lemma process_sizes_dry (abs rel outBase : string) (r r' : Run)
    (es : list ImageManifestEntry) :
  dryRun_ opts = true ->
  process_sizes env opts abs rel outBase r = (Ok es, r') -> es = [].
Proof.
  intros Hd. rewrite process_sizes_flat.
  enough (forall vs acc r,
            foldM (fun es v =>
                     process_output env opts abs rel outBase v.1 es v.2)
              vs acc r = (Ok es, r') -> es = acc) as H by apply H.
  induction vs as [|v vs IH]; intros acc r0.
  { by intros [= <- _]. }
  cbn [foldM]. unfold mbind at 1, M_bind at 1.
  unfold process_output at 1. rewrite Hd. cbv zeta.
  unfold mbind at 1, M_bind at 1.
  destruct (mkdir env _ r0) as [[[]|e] r1]; [|done].
  unfold mret, M_ret. apply IH.
Qed.

(** What a task does to [cached]: it adds an entry exactly when it
    skips. *)
Lemma task_cached_iff (abs : string) (r : Run) :
  exists l, cachedFiles (task env opts abs r).2 = (cachedFiles r ++ l)%list
            /\ (l = [] -> skip (skip_check env opts abs r) = false).
Proof.
  destruct (skip (skip_check env opts abs r)) eqn:Hskip.
  - destruct (task_skipping env opts abs r Hskip) as (es & ->).
    eexists. split; [reflexivity|]. done.
  - exists []. rewrite List.app_nil_r.
    split; [by apply task_processing_cached|done].
Qed.

Lemma tasks_cached_grow (files : list string) (r : Run) :
  exists l, cachedFiles (after_tasks env opts files r)
            = (cachedFiles r ++ l)%list.
Proof.
  revert r. induction files as [|abs files IH]; intros r.
  { exists []. by rewrite List.app_nil_r. }
  cbn [after_tasks]. destruct (task_cached_iff abs r) as (l1 & H1 & _).
  destruct (IH (task env opts abs r).2) as (l2 & H2).
  exists (l1 ++ l2)%list. by rewrite H2, H1, List.app_assoc.
Qed.

(** A task of a dry run that does not skip records its input with an
    empty list, or not at all. *)
Lemma task_dry_manifest (abs : string) (r : Run) :
  dryRun_ opts = true ->
  skip (skip_check env opts abs r) = false ->
  manifest_lists_empty (manifest r) ->
  manifest_lists_empty (manifest (task env opts abs r).2).
Proof.
  intros Hd Hskip Hr.
  unfold skip_check, expected_outputs, file_result in Hskip.
  cbn [file_out] in Hskip.
  destruct (task env opts abs r) as [res r'] eqn:Ht. cbn [snd]. revert Ht.
  unfold task, try_catch, task_body.
  set (rel := path_relative env (input opts) abs) in *.
  set (outBase := path_join env (output opts) (Str.strip_ext rel)) in *.
  unfold push_skipped, push_cached, push_result, set_manifest, set_cache,
    modify, gets, lift, mbind, M_bind, mret, M_ret.
  cbn beta iota zeta. rewrite Hskip, Hd.
  pose proof (world_only_process_sizes env opts abs rel outBase r) as [Hh _].
  destruct (process_sizes env opts abs rel outBase r) as [[es|e] r1] eqn:Hp;
    cbn [snd] in Hh; destruct Hh as (_ & _ & _ & _ & Hm & _).
  - apply (process_sizes_dry _ _ _ _ _ _ Hd) in Hp as ->.
    intros [= _ <-]. cbn [manifest]. rewrite Hm. intros k es.
    unfold js_set. destruct (String.eqb rel "__proto__"); [apply Hr|].
    destruct (decide (k = rel)) as [->|Hne].
    + rewrite lookup_insert_eq. by intros [= <-].
    + rewrite lookup_insert_ne by done. apply Hr.
  - intros [= _ <-]. cbn [manifest]. by rewrite Hm.
Qed.

Lemma tasks_dry_manifest (files : list string) (r : Run) :
  dryRun_ opts = true ->
  cachedFiles (after_tasks env opts files r) = cachedFiles r ->
  manifest_lists_empty (manifest r) ->
  manifest_lists_empty (manifest (after_tasks env opts files r)).
Proof.
  intros Hd. revert r. induction files as [|abs files IH]; intros r Hc Hr;
    [done|].
  cbn [after_tasks] in *.
  destruct (task_cached_iff abs r) as (l1 & H1 & Hnil).
  destruct (tasks_cached_grow files (task env opts abs r).2) as (l2 & H2).
  rewrite H2, H1, <-List.app_assoc in Hc.
  apply (f_equal (@length _)) in Hc. rewrite !List.length_app in Hc.
  assert (l1 = [] /\ l2 = []) as [-> ->].
  { destruct l1, l2; cbn in Hc; try lia. done. }
  apply IH.
  - by rewrite H2, List.app_nil_r.
  - apply task_dry_manifest; auto.
Qed.

(** In a dry run that finds nothing cached, the manifest that [imgx]
    returns lists no output: every input that it names has an empty
    list. *)
Theorem dry_run_manifest_empty (w w' : World) (res : ImgxResult)
    (evs : list Event) :
  dryRun_ opts = true ->
  imgx env opts w = (Ok res, w', evs) ->
  r_cached res = [] ->
  match r_manifest res with
  | Some m => manifest_lists_empty m
  | None => True
  end.
Proof.
  intros Hd Hrun Hcached.
  apply imgx_result in Hrun
    as [(_ & -> & _)|(r & r' & -> & Hfin & _)]; [done|].
  destruct (finish_spec _ _ _ _ _ _ Hfin) as [-> _].
  cbn [r_manifest r_cached] in *.
  destruct (0 <? size _)%nat; [|done].
  apply tasks_dry_manifest; [done|by rewrite Hcached|].
  intros k es. cbn. by rewrite lookup_empty.
Qed.

(** The cache only grows during the tasks of a run. *)
Lemma tasks_cache_keys (files : list string) (r : Run) (k : string) :
  is_Some (cache r !! k) ->
  is_Some (cache (after_tasks env opts files r) !! k).
Proof.
  revert r. induction files as [|abs files IH]; intros r Hk; [done|].
  cbn [after_tasks]. apply IH.
  pose proof (task_cache_spec env opts abs r) as He. unfold cache_effect in He.
  destruct (task_body _ _ _ _ r).1 as [u|e].
  - destruct He as [[-> _]|(ce & _ & ->)]; [done|].
    apply js_set_lookup. by right.
  - by rewrite He.
Qed.

(** No run evicts a cache record: the cache file that a run leaves holds
    a record under every key of the cache that the run loaded, also for
    inputs that are no longer enumerated. *)
Theorem cache_records_kept (w w' : World) (res : ImgxResult)
    (evs : list Event) :
  dryRun_ opts = false ->
  imgx env opts w = (Ok res, w', evs) ->
  enumerated env opts w <> [] ->
  cachePath env opts <> manifestPath env opts ->
  fs_fault env (ReadFile (cachePath env opts)) = None ->
  exists c,
    readFile env w' (cachePath env opts) = Ok (JSON_stringify_cache env c)
    /\ forall k, is_Some (loadCache env w (cachePath env opts) !! k) ->
                 is_Some (c !! k).
Proof.
  intros Hd Hrun Hne Hpaths Hread.
  apply imgx_result in Hrun
    as [(Hnil & _)|(r & r' & -> & Hfin & -> & _)]; [done|].
  eexists. split.
  - rewrite (finish_cache_file env opts _ _ _ _ Hd Hpaths Hfin), Hread.
    reflexivity.
  - intros k Hk. by apply tasks_cache_keys.
Qed.

End DryRuns.

Lemma dry_run_manifest_empty_witness :
  match r_manifest
          match (imgx Sample.env_fresh (Sample.with_dryRun Sample.opts)
                   Sample.w_fresh).1.1 with
          | Ok res => res
          | Throw _ =>
              {| r_processed := 0; r_files := []; r_skipped := [];
                 r_cached := []; r_totalFound := 0; r_manifest := None |}
          end with
  | Some m => manifest_lists_empty m
  | None => True
  end.
Proof.
  eapply (dry_run_manifest_empty Sample.env_fresh
            (Sample.with_dryRun Sample.opts) Sample.w_fresh).
  - reflexivity.
  - vm_compute. reflexivity.
  - reflexivity.
Defined.

Lemma cache_records_kept_witness :
  exists c,
    readFile Sample.env_cached
      (imgx Sample.env_cached Sample.opts Sample.w_cached).1.2
      (cachePath Sample.env_cached Sample.opts)
    = Ok (JSON_stringify_cache Sample.env_cached c)
    /\ forall k,
         is_Some (loadCache Sample.env_cached Sample.w_cached
                    (cachePath Sample.env_cached Sample.opts) !! k) ->
         is_Some (c !! k).
Proof.
  eapply (cache_records_kept Sample.env_cached Sample.opts Sample.w_cached).
  - reflexivity.
  - vm_compute. reflexivity.
  - vm_compute. discriminate.
  - vm_compute. discriminate.
  - reflexivity.
Defined.

(** ** A change of settings between two runs *)

Section ChangedSettings.

Context (env : Env) (opts opts2 : ImgxOptions).

(** A change of settings that leaves the names of the outputs as they
    were does not make the next run encode anything.  Let a run with
    [opts] that is not a dry run and that asks for at least one (size,
    format) pair return with no input skipped for an error; let the inputs
    be older than the run and none of them a path that the run writes,
    and let [fs.stat] fail on none of the expected outputs.  Let [opts2]
    (another quality, effort, height, metadata or enlargement setting) not
    be forced, enumerate the same files and expect the same outputs for
    each of them.  Then the run with [opts2] from the world that the first
    one left finds every input up to date, whatever the fingerprints in
    the cache: it calls no codec, makes no directory and writes no output,
    and when it returns it reports every input in [cached], with a reason
    of [shouldSkipFile], and none in [skipped]. *)
Theorem changed_settings_not_reencoded (w w1 : World) (res : ImgxResult)
    (evs : list Event) :
  dryRun_ opts = false ->
  force_ opts2 = false ->
  imgx env opts w = (Ok res, w1, evs) ->
  r_skipped res = [] ->
  enumerated env opts2 w1 = enumerated env opts w ->
  Forall (fun abs => expected_outputs env opts2 abs
                     = expected_outputs env opts abs)
    (enumerated env opts w) ->
  Forall (older_than_run w) (enumerated env opts w) ->
  Forall (fun abs =>
            ~ In abs (written_paths env opts (enumerated env opts w)))
    (enumerated env opts w) ->
  Forall (fun p => fs_fault env (Stat p) = None)
    (enumerated env opts w ≫= expected_outputs env opts) ->
  variants opts <> [] ->
  Forall (closing env opts2) (imgx env opts2 w1).2
  /\ match (imgx env opts2 w1).1.1 with
     | Ok res2 =>
         r_skipped res2 = []
         /\ file <$> r_cached res2
            ≡ₚ path_relative env (input opts2) <$> enumerated env opts w
         /\ Forall (fun c => skip_reason_text (reason c)) (r_cached res2)
     | Throw _ => True
     end.
Proof.
  intros Hd Hf Hrun Hskipped Hsame Hnames Hold Hnot Hfault Hne.
  assert (Forall (fun abs => up_to_date env w1 abs
                               (expected_outputs env opts2 abs))
            (enumerated env opts2 w1)) as Hup.
  { rewrite Hsame. apply imgx_result in Hrun
      as [(Hnil & _)|(r & r' & Hr & Hfin & -> & _)].
    - rewrite Hnil. constructor.
    - subst r.
      destruct (first_run_up_to_date env opts w r' res Hd Hfin Hskipped Hold
                  Hnot Hfault Hne) as [_ Hup].
      rewrite List.Forall_forall in *. intros abs Ha.
      rewrite (Hnames abs Ha). by apply Hup. }
  destruct (run_all_skipped env opts2 w1 Hf Hup) as (Hev & _ & Hres).
  split; [done|].
  destruct (imgx env opts2 w1).1.1 as [res2|e]; [|done].
  destruct (Hres res2 eq_refl) as (Hs & Hc & _).
  rewrite Hs, Hc, Hsame. split; [done|]. split.
  - by rewrite <-list_fmap_compose.
  - apply Forall_fmap, List.Forall_forall. intros abs _.
    unfold compose, cached_entry, skip_text. cbn [reason].
    destruct (loadCache env w1 (cachePath env opts2)
                !! path_relative env (cwd env) abs) as [ce|];
      [destruct (String.eqb _ _)|]; first [by left|by right].
Qed.

End ChangedSettings.

(** The sample run, followed by a run that asks for another quality. *)
Lemma changed_settings_not_reencoded_witness :
  Forall (closing Rerun.env (Sample.with_quality 50 Sample.opts))
    (imgx Rerun.env (Sample.with_quality 50 Sample.opts) Rerun.w1).2
  /\ match (imgx Rerun.env (Sample.with_quality 50 Sample.opts)
              Rerun.w1).1.1 with
     | Ok res2 =>
         r_skipped res2 = []
         /\ file <$> r_cached res2
            ≡ₚ path_relative Rerun.env
                 (input (Sample.with_quality 50 Sample.opts))
                 <$> enumerated Rerun.env Sample.opts Sample.w_fresh
         /\ Forall (fun c => skip_reason_text (reason c)) (r_cached res2)
     | Throw _ => True
     end.
Proof.
  eapply (changed_settings_not_reencoded Rerun.env Sample.opts
            (Sample.with_quality 50 Sample.opts) Sample.w_fresh Rerun.w1).
  - reflexivity.
  - reflexivity.
  - vm_compute. reflexivity.
  - reflexivity.
  - reflexivity.
  - closed_forall. vm_compute. reflexivity.
  - closed_forall. eexists. split; [vm_compute; reflexivity|].
    vm_compute. reflexivity.
  - closed_forall. vm_compute. intros [H|[H|[H|[]]]]; discriminate H.
  - closed_forall. reflexivity.
  - vm_compute. discriminate.
Defined.

(** ** Buffers and the cache *)

Section FilesBuffers.

Context (fenv : Files.FilesEnv) (opts : Files.ImgxFilesOptions).

#[local] Existing Instances Files.MF_ret Files.MF_bind.

(** The task of a Buffer leaves the cache as it was. *)
Lemma files_task_buffer (index : nat) (data : string) (r : Files.FilesRun) :
  Files.f_cache (Files.task fenv opts index (Files.InputBuffer data) r).2
  = Files.f_cache r.
Proof.
  destruct (Files.task fenv opts index (Files.InputBuffer data) r)
    as [res0 r'] eqn:Ht.
  cbn [snd]. revert Ht.
  unfold Files.task, Files.try_catch, Files.task_body.
  unfold mbind at 1 2, Files.MF_bind at 1 2, Files.gets, Files.lift.
  cbn beta iota. cbn [Files.read_input]. cbn beta iota zeta.
  set (outBase := if Files.has_output opts then _ else _).
  unfold mbind at 1, Files.MF_bind at 1. cbn beta iota.
  destruct (Files.checks_cache opts && skip _).
  - unfold Files.push_skipped, Files.push_processed, Files.modify, mbind,
      Files.MF_bind, mret, Files.MF_ret.
    cbn beta iota.
    by destruct (if Files.returnBuffers_ opts then _ else _);
      intros [= _ <-].
  - unfold mbind at 1, Files.MF_bind at 1.
    pose proof (heap_only_process_sizes fenv opts data outBase r) as Hh.
    destruct (Files.process_sizes fenv opts data outBase r)
      as [[outs|e] r1]; cbn [snd] in Hh; destruct Hh as (Hc & _).
    2:{ unfold Files.push_skipped, Files.modify. by intros [= _ <-]. }
    cbn [Files.is_path]. rewrite andb_false_r.
    unfold Files.push_processed, Files.set_manifest, Files.modify, mbind,
      Files.MF_bind, mret, Files.MF_ret.
    cbn beta iota. by intros [= _ <-].
Qed.

Lemma files_tasks_buffers (index : nat) (l : list Files.ImgxFileInput)
    (r : Files.FilesRun) :
  Forall (fun x => Files.is_path x = false) l ->
  Files.f_cache (files_after_tasks fenv opts index l r) = Files.f_cache r.
Proof.
  revert index r. induction l as [|x l IH]; intros index r Hl; [done|].
  inversion Hl as [|? ? Hx Hl']; subst. cbn [files_after_tasks].
  rewrite (IH _ _ Hl'). destruct x as [p|data]; [done|].
  apply files_task_buffer.
Qed.

(** The cache file that the end of a call leaves. *)
Lemma files_finish_cache_file (r r' : Files.FilesRun)
    (res : Files.ImgxFilesResult) :
  Files.to_disk opts = true ->
  Files.cachePath fenv opts <> "" ->
  Files.cachePath fenv opts <> Files.manifestPath fenv opts ->
  Files.finish fenv opts r = (Ok res, r') ->
  readFile (Files.base_env fenv) (Files.f_world r') (Files.cachePath fenv opts)
  = match fs_fault (Files.base_env fenv)
            (ReadFile (Files.cachePath fenv opts)) with
    | Some e => Throw e
    | None =>
        Ok (JSON_stringify_cache (Files.base_env fenv) (Files.f_cache r))
    end.
Proof.
  intros Htd Hne Hpaths. apply String.eqb_neq in Hne.
  unfold Files.finish.
  unfold mbind, Files.MF_bind, Files.gets, mret, Files.MF_ret.
  cbn beta iota. rewrite Htd, Hne. cbn [negb andb].
  assert (forall ev p data r0 r1,
            Files.writeFile fenv ev p data r0 = (Ok tt, r1) ->
            fs (Files.f_world r1)
            = <[p := {| is_dir := false; node_mtime := now (Files.f_world r0);
                        node_data := data |}]> (fs (Files.f_world r0)))
    as Hwrite.
  { intros ev p data r0 r1.
    unfold Files.writeFile, Files.emit, Files.modify, Files.gets,
      Files.throw, Files.set_world, mbind, Files.MF_bind.
    cbn beta iota. destruct (fs_fault _ _); [done|].
    destruct (fs (Files.f_world r0) !! p) as [[[] ? ?]|]; [done|..];
      by intros [= <-]. }
  destruct (Files.writeFile fenv _ _ _ r) as [[[]|e] r1] eqn:H1; [|done].
  apply Hwrite in H1.
  assert (forall r2, fs (Files.f_world r2) !! Files.cachePath fenv opts
                     = fs (Files.f_world r1) !! Files.cachePath fenv opts ->
            readFile (Files.base_env fenv) (Files.f_world r2)
              (Files.cachePath fenv opts)
            = match fs_fault (Files.base_env fenv)
                      (ReadFile (Files.cachePath fenv opts)) with
              | Some e => Throw e
              | None =>
                  Ok (JSON_stringify_cache (Files.base_env fenv)
                        (Files.f_cache r))
              end) as Hread.
  { intros r2 Hr2. unfold readFile. rewrite Hr2, H1, lookup_insert_eq.
    done. }
  destruct (0 <? size (Files.f_manifest r1))%nat.
  - destruct (Files.writeFile fenv _ _ _ r1) as [[[]|e] r2] eqn:H2; [|done].
    apply Hwrite in H2. intros [= _ <-]. apply Hread.
    rewrite H2. by rewrite lookup_insert_ne.
  - intros [= _ <-]. by apply Hread.
Qed.

(** [imgxFromFiles] keeps no cache record for a Buffer: a call that
    writes to disk and whose inputs are all Buffers saves the cache that
    it loaded, as it loaded it. *)
Theorem files_buffers_not_cached (w w' : World)
    (res : Files.ImgxFilesResult) (evs : list Files.FilesEvent) :
  Forall (fun x => Files.is_path x = false) (Files.f_files opts) ->
  Files.f_files opts <> [] ->
  Files.imgxFromFiles fenv opts w = (Ok res, w', evs) ->
  Files.to_disk opts = true ->
  Files.cachePath fenv opts <> "" ->
  Files.cachePath fenv opts <> Files.manifestPath fenv opts ->
  fs_fault (Files.base_env fenv) (ReadFile (Files.cachePath fenv opts))
  = None ->
  readFile (Files.base_env fenv) w' (Files.cachePath fenv opts)
  = Ok (JSON_stringify_cache (Files.base_env fenv)
          (loadCache (Files.base_env fenv) w (Files.cachePath fenv opts))).
Proof.
  intros Hbuf Hne Hrun Htd Hcp Hpaths Hread. revert Hrun.
  rewrite imgxFromFiles_run.
  destruct (Files.writeToDisk_ opts && negb (Files.has_output opts)); [done|].
  destruct (Files.configure fenv opts) as [[]|e0]; [|done].
  destruct (Files.f_files opts) as [|x l] eqn:Hfiles; [done|].
  destruct (pLimit _ _) as [[]|e0]; [|done]. cbv zeta.
  destruct (Files.finish fenv opts _) as [[res0|e] r'] eqn:Hfin; [|done].
  intros [= _ <- _].
  rewrite (files_finish_cache_file _ _ _ Htd Hcp Hpaths Hfin), Hread.
  rewrite (files_tasks_buffers _ _ _ Hbuf). cbn [Files.f_cache Files.start].
  by rewrite Htd.
Qed.

End FilesBuffers.

(** A Buffer written to the output directory of the sample. *)
Lemma files_buffers_not_cached_witness :
  readFile (Files.base_env FilesSample.fenv)
    (Files.imgxFromFiles FilesSample.fenv FilesSample.buffer_to_disk
       Sample.w_cached).1.2
    (Files.cachePath FilesSample.fenv FilesSample.buffer_to_disk)
  = Ok (JSON_stringify_cache (Files.base_env FilesSample.fenv)
          (loadCache (Files.base_env FilesSample.fenv) Sample.w_cached
             (Files.cachePath FilesSample.fenv FilesSample.buffer_to_disk))).
Proof.
  eapply (files_buffers_not_cached FilesSample.fenv
            FilesSample.buffer_to_disk Sample.w_cached).
  - constructor; [reflexivity|constructor].
  - discriminate.
  - vm_compute. reflexivity.
  - reflexivity.
  - vm_compute. discriminate.
  - vm_compute. discriminate.
  - reflexivity.
Defined.

(** ** The three lists of a result *)

Section Categories.

Context (env : Env) (opts : ImgxOptions).




End Categories.


(** ** Merges *)

Section Merge.

Context {A : Type}.

Lemma interleaved_skip (ls : list (list A)) (m : list A) :
  interleaved ls m -> interleaved ([] :: ls) m.
Proof.
  induction 1 as [ls Hls|ls1 x l ls2 m _ IH].
  - constructor. by constructor.
  - apply (interleaved_step ([] :: ls1)). exact IH.
Qed.

Lemma interleaved_head (l : list A) (ls : list (list A)) (m : list A) :
  interleaved ls m -> interleaved (l :: ls) (l ++ m).
Proof.
  intros H. induction l as [|x l IH]; [by apply interleaved_skip|].
  apply (interleaved_step [] x l ls). exact IH.
Qed.

Lemma interleaved_concat (ls : list (list A)) : interleaved ls (concat ls).
Proof.
  induction ls as [|l ls IH]; [by constructor|].
  cbn [concat]. by apply interleaved_head.
Qed.

End Merge.

(** ** The events of a run *)

Section Interleaving.

Context (env : Env) (opts : ImgxOptions).

(** The events of a run are a merge of one list for each input, which is
    a first part of the trace of that input (for each variant: the
    directory is made, the codec runs, the output is written), followed
    by the writing of the cache and of the manifest. *)
Theorem imgx_trace (w : World) :
  exists traces m c,
    (imgx env opts w).2 = (m ++ c)%list
    /\ interleaved traces m
    /\ Forall2 (fun abs l => l `prefix_of` task_trace env opts abs)
         (enumerated env opts w) traces
    /\ Forall (closing env opts) c.
Proof.
  destruct (imgx_trace_spec env opts w) as (traces & c & He & Hall & Hc & _).
  exists traces, (concat traces), c.
  split; [done|]. split; [apply interleaved_concat|done].
Qed.

(** A forced run in which no input is skipped for an error goes through
    the whole trace of every input: its events are a merge of these
    traces, followed by the writing of the cache and of the manifest; and
    it reports no input as cached. *)
Theorem forced_run_trace (w w' : World) (res : ImgxResult)
    (evs : list Event) :
  force_ opts = true ->
  imgx env opts w = (Ok res, w', evs) ->
  r_skipped res = [] ->
  r_cached res = []
  /\ exists m c,
       evs = (m ++ c)%list
       /\ interleaved (task_trace env opts <$> enumerated env opts w) m
       /\ Forall (closing env opts) c.
Proof.
  intros Hf Hrun Hskipped.
  destruct (forced_run_spec env opts w w' res evs Hf Hrun Hskipped)
    as (Hc & c & -> & Hclosing).
  split; [done|]. eexists _, c.
  split; [done|]. split; [apply interleaved_concat|done].
Qed.

End Interleaving.

(** A forced run with two formats over the sample world. *)
Lemma forced_run_trace_witness :
  r_cached
    match (imgx Rerun.env Rerun.forced Sample.w_fresh).1.1 with
    | Ok res => res
    | Throw _ =>
        {| r_processed := 0; r_files := []; r_skipped := []; r_cached := [];
           r_totalFound := 0; r_manifest := None |}
    end = []
  /\ exists m c,
       (imgx Rerun.env Rerun.forced Sample.w_fresh).2 = (m ++ c)%list
       /\ interleaved
            (task_trace Rerun.env Rerun.forced
               <$> enumerated Rerun.env Rerun.forced Sample.w_fresh) m
       /\ Forall (closing Rerun.env Rerun.forced) c.
Proof.
  eapply (forced_run_trace Rerun.env Rerun.forced Sample.w_fresh).
  - reflexivity.
  - vm_compute. reflexivity.
  - reflexivity.
Defined.

(** ** The failure of one input *)

Section Isolated.

Context (env : Env) (opts : ImgxOptions).














End Isolated.


